(** * rg-images: replace_image_paths.py

    A shallow embedding of [replace_image_paths.py] and the properties of
    its specification.

    Modelling conventions.
    - A Python [str] is a [text]: a list of characters.  Characters are
      Rocq's [ascii], read as the code points 0..255.
    - Python integers that can be negative (the running [offset], slice
      bounds, the [-1] sentinel) are [Z]; counters and positions that the
      [re] module produces are [nat].
    - A regular expression is a term of [regex], run by a backtracking
      matcher that tries the alternatives in the order of the [re] module:
      a greedy repetition the longest run first, a lazy one the shortest.
      In comments the double quote of a pattern is written [\x22].
    - The file system is a tree of [node]s; a directory is the list of its
      entries in the order [iterdir] yields them.  A file holds the
      characters its bytes decode to as UTF-8, line endings as stored, or
      is marked as not decodable.  Files are opened in text mode with the
      default [newline]: a read turns [\r\n] and [\r] into [\n]; a write
      stores [\n] as the line separator of the platform, taken to be [\n]
      (POSIX). *)

From Stdlib Require Import List Arith ZArith Lia Bool Ascii.
From Stdlib Require String Decimal DecimalString DecimalNat.
Import String.StringSyntax.
Delimit Scope string_scope with string.
From Stdlib Require Import Permutation Sorted.
Import ListNotations.

Set Implicit Arguments.
Set Warnings "-register-all".

(** ** Text *)

Definition text := list ascii.

Definition str (s : String.string) : text := String.list_ascii_of_string s.
Arguments str s%_string.

(** The double quote, code point 34. *)
Definition dq : ascii := "034"%char.

Definition text_eqb (a b : text) : bool :=
  if list_eq_dec ascii_dec a b then true else false.

(** Carriage return and line feed, code points 13 and 10. *)
Definition cr : ascii := "013"%char.
Definition lf : ascii := "010"%char.

(** What a read in text mode with [newline=None] does to the decoded
    characters: [\r\n] and a lone [\r] become [\n].  The [\r] of a
    [\r\n] is dropped and the [\n] kept. *)
Fixpoint universal_newlines (s : text) : text :=
  match s with
  | [] => []
  | c :: s' =>
      if ascii_dec c cr then
        match s' with
        | c' :: _ =>
            if ascii_dec c' lf then universal_newlines s'
            else lf :: universal_newlines s'
        | [] => [lf]
        end
      else c :: universal_newlines s'
  end.

(** [s[:i]] and [s[i:]] with Python's treatment of negative and
    out-of-range bounds. *)
Definition clamp_index (n : nat) (i : Z) : nat :=
  let len := Z.of_nat n in
  Z.to_nat (if (i <? 0)%Z then Z.max 0 (i + len) else Z.min i len).

Definition slice_to (s : text) (i : Z) : text :=
  firstn (clamp_index (length s) i) s.

Definition slice_from (s : text) (i : Z) : text :=
  skipn (clamp_index (length s) i) s.

(** [s[i:j]] for the non-negative bounds a match object reports. *)
Definition substring (s : text) (i j : nat) : text :=
  firstn (j - i) (skipn i s).

(** [str(n)] for a non-negative integer. *)
Definition str_of_nat (n : nat) : text :=
  str (DecimalString.NilEmpty.string_of_uint (Nat.to_uint n)).

(** ** Character classes of the [re] module (str patterns) *)

(** [\s]: the white space of [str.isspace] below code point 256. *)
Definition is_space (c : ascii) : bool :=
  let n := nat_of_ascii c in
  ((9 <=? n) && (n <=? 13)) || ((28 <=? n) && (n <=? 32))
  || (n =? 133) || (n =? 160).

(** [\d]: the decimal digits below code point 256. *)
Definition is_digit (c : ascii) : bool :=
  let n := nat_of_ascii c in (48 <=? n) && (n <=? 57).

(** [[^\x22]] *)
Definition not_dq (c : ascii) : bool :=
  if ascii_dec c dq then false else true.

(** ** Prefixes and runs *)

(** [s] without its prefix [p], when it starts with [p]. *)
Fixpoint strip_prefix (p s : text) : option text :=
  match p, s with
  | [], _ => Some s
  | _ :: _, [] => None
  | a :: p', b :: s' => if ascii_dec a b then strip_prefix p' s' else None
  end.

(** The longest run of characters of a class at the head of [s], and what
    follows it. *)
Fixpoint span (f : ascii -> bool) (s : text) : text * text :=
  match s with
  | [] => ([], [])
  | c :: s' =>
      if f c then let (r, t) := span f s' in (c :: r, t) else ([], s)
  end.

(** ** Regular expressions *)

(** The part of the syntax the program uses; its repetitions are over
    character classes. *)
Inductive regex :=
| Empty
| Char (c : ascii)
| Class (f : ascii -> bool)
| Seq (r1 r2 : regex)
| Plus (f : ascii -> bool)
| Star (f : ascii -> bool)
| LazyStar (f : ascii -> bool)
| Group (n : nat) (r : regex).

(** The spans of the groups matched so far, the latest first. *)
Definition captures := list (nat * (nat * nat)).

Fixpoint group_span (n : nat) (caps : captures) : option (nat * nat) :=
  match caps with
  | [] => None
  | (m, span) :: caps' => if n =? m then Some span else group_span n caps'
  end.

(** What remains to be matched after a part of the pattern: from the rest
    of the subject, the position and the captures to the end of the match
    and its captures, or to failure. *)
Definition continuation :=
  text -> nat -> captures -> option (nat * captures).

(** [[f]*] followed by [k]: one more character first; when what follows
    fails, without it. *)
Fixpoint greedy (f : ascii -> bool) (k : continuation)
    (s : text) (pos : nat) (caps : captures) : option (nat * captures) :=
  match s with
  | c :: s' =>
      if f c then
        match greedy f k s' (S pos) caps with
        | Some r => Some r
        | None => k s pos caps
        end
      else k s pos caps
  | [] => k s pos caps
  end.

(** [[f]*?] followed by [k]: [k] first; when it fails, one more character. *)
Fixpoint lazy (f : ascii -> bool) (k : continuation)
    (s : text) (pos : nat) (caps : captures) : option (nat * captures) :=
  match k s pos caps with
  | Some r => Some r
  | None =>
      match s with
      | c :: s' => if f c then lazy f k s' (S pos) caps else None
      | [] => None
      end
  end.

(** [r] followed by [k], at position [pos] where the subject still holds
    [s]. *)
Fixpoint run (r : regex) (k : continuation)
    (s : text) (pos : nat) (caps : captures) : option (nat * captures) :=
  match r with
  | Empty => k s pos caps
  | Char c =>
      match s with
      | c' :: s' => if ascii_dec c c' then k s' (S pos) caps else None
      | [] => None
      end
  | Class f =>
      match s with
      | c' :: s' => if f c' then k s' (S pos) caps else None
      | [] => None
      end
  | Seq r1 r2 => run r1 (run r2 k) s pos caps
  | Plus f =>
      match s with
      | c' :: s' => if f c' then greedy f k s' (S pos) caps else None
      | [] => None
      end
  | Star f => greedy f k s pos caps
  | LazyStar f => lazy f k s pos caps
  | Group n r' =>
      run r' (fun s' pos' caps' => k s' pos' ((n, (pos, pos')) :: caps'))
        s pos caps
  end.

(** [pattern.match(s)]: the pattern tried at the head of [s]; the end of
    the match and the spans of its groups. *)
Definition re_match (r : regex) (s : text) : option (nat * captures) :=
  run r (fun _ pos caps => Some (pos, caps)) s 0 [].

(** A literal text in a pattern. *)
Definition lit (t : text) : regex :=
  fold_right (fun c r => Seq (Char c) r) Empty t.

(** [.] with [re.DOTALL] *)
Definition any_char (c : ascii) : bool := true.

(** ** The image pattern [<img\s+src=\x22([^\x22]+)\x22] *)

(** Spans of a match, as [match.start()], [match.start(1)], [match.end(1)]
    and [match.end()]. *)
Record img_match := {
  m_start : nat;
  g1_start : nat;
  g1_end : nat;
  m_end : nat
}.

Definition img_open : text := str "<img".
Definition img_src : text := str "src=" ++ [dq].

Definition img_pattern : regex :=
  Seq (lit img_open)
    (Seq (Plus is_space)
       (Seq (lit img_src)
          (Seq (Group 1 (Plus not_dq)) (Char dq)))).

(** The pattern tried at the head of [s]: start and end of group 1 and end
    of the match. *)
Definition match_img (s : text) : option (nat * nat * nat) :=
  match re_match img_pattern s with
  | Some (e, caps) =>
      match group_span 1 caps with
      | Some (a, b) => Some (a, b, e)
      | None => None
      end
  | None => None
  end.

(** [img_pattern.finditer]: the matches from left to right, each search
    resuming where the previous match ended.  [rest] is the subject from
    position [pos] on; the matcher consumes at least one character per
    step, so [fuel = length rest] is enough. *)
Fixpoint finditer_from (fuel : nat) (rest : text) (pos : nat)
  : list img_match :=
  match fuel with
  | 0 => []
  | S fuel' =>
      match rest with
      | [] => []
      | _ :: rest' =>
          match match_img rest with
          | Some (a, b, e) =>
              {| m_start := pos; g1_start := pos + a;
                 g1_end := pos + b; m_end := pos + e |}
              :: finditer_from fuel' (skipn e rest) (pos + e)
          | None => finditer_from fuel' rest' (S pos)
          end
      end
  end.

Definition finditer (content : text) : list img_match :=
  finditer_from (length content) content 0.

(** [match.group(1)] *)
Definition group1 (content : text) (m : img_match) : text :=
  substring content (g1_start m) (g1_end m).

(** ** The Rewrite Engine: [replace_images_in_content] *)

(** A change record, the dict [{'index', 'old_url', 'new_url', 'exists'}]. *)
Record change := {
  index : nat;
  old_url : text;
  new_url : text;
  exists_ : bool
}.

(** [f"image-{image_index}.webp"] *)
Definition image_name (image_index : nat) : text :=
  str "image-" ++ str_of_nat image_index ++ str ".webp".

(** [expected_filename in available_images] *)
Definition in_list (x : text) (l : list text) : bool :=
  existsb (text_eqb x) l.

(** The body of [for i, match in enumerate(matches)], from iteration [i]
    on, over the loop variables [new_content], [offset] and [changes]. *)
Fixpoint replace_loop (content : text) (available_images : list text)
    (i : nat) (matches : list img_match)
    (new_content : text) (offset : Z) (changes : list change)
  : text * list change :=
  match matches with
  | [] => (new_content, changes)
  | m :: matches' =>
      let image_index := i + 2 in
      let expected_filename := image_name image_index in
      let old := group1 content m in
      if in_list expected_filename available_images then
        let new := expected_filename in
        let start := (Z.of_nat (g1_start m) + offset)%Z in
        let end_ := (Z.of_nat (g1_end m) + offset)%Z in
        let changes' :=
          changes ++ [{| index := i + 1; old_url := old;
                         new_url := new; exists_ := true |}] in
        let new_content' :=
          slice_to new_content start ++ new ++ slice_from new_content end_ in
        let offset' :=
          (offset + (Z.of_nat (length new) - Z.of_nat (length old)))%Z in
        replace_loop content available_images (S i) matches'
          new_content' offset' changes'
      else
        let changes' :=
          changes ++ [{| index := i + 1; old_url := old;
                         new_url := expected_filename;
                         exists_ := false |}] in
        replace_loop content available_images (S i) matches'
          new_content offset changes'
  end.

(** [dry_run] and [folder_name] are parameters of the source function that
    its body never reads. *)
Definition replace_images_in_content (content : text)
    (available_images : list text) (dry_run : bool) (folder_name : text)
  : text * list change :=
  let changes := [] in
  let matches := finditer content in
  match matches with
  | [] => (content, changes)
  | _ :: _ =>
      replace_loop content available_images 0 matches content 0%Z changes
  end.

(** The fragment of the example in the specification. *)
Definition example_fragment : text :=
  str "<img src=" ++ [dq] ++ str "https://cdn.x/a.jpg" ++ [dq] ++ str "> "
  ++ str "<img src=" ++ [dq] ++ str "https://cdn.x/b.jpg" ++ [dq] ++ str ">".

(** ** Exceptions *)

(** The exceptions that the file system of the model gives rise to
    (a missing path, a file where a directory is needed or the reverse,
    bytes that are not UTF-8) and the one of the sort key on a failed
    search; a computation either returns or raises.  Failures of the
    environment that the tree does not describe (permissions, a full disk)
    are outside the model. *)
Inductive exn :=
| FileNotFoundError
| NotADirectoryError
| IsADirectoryError
| UnicodeDecodeError
| AttributeError.

Inductive res (A : Type) :=
| Ok (a : A)
| Raise (e : exn).
Arguments Ok {A} a.
Arguments Raise {A} e.

Definition bind {A B : Type} (x : res A) (k : A -> res B) : res B :=
  match x with
  | Ok a => k a
  | Raise e => Raise e
  end.

Notation "x <- c1 ;; c2" := (bind c1 (fun x => c2))
  (at level 61, c1 at next level, right associativity).

(** A call made on every element of a list, from left to right; the first
    exception ends it. *)
Fixpoint map_res {A B : Type} (f : A -> res B) (l : list A) : res (list B) :=
  match l with
  | [] => Ok []
  | x :: l' => y <- f x ;; ys <- map_res f l' ;; Ok (y :: ys)
  end.

(** ** [sorted] *)

(** Python's sort is stable and compares with [<] only.  Insertion from the
    right end of the list, each element going in front of the first one
    that is not smaller than it, gives that same list. *)
Section Sorting.
Variable A : Type.
Variable lt : A -> A -> bool.

Fixpoint insert_sorted (x : A) (l : list A) : list A :=
  match l with
  | [] => [x]
  | y :: l' => if lt y x then y :: insert_sorted x l' else x :: l
  end.

Fixpoint sorted (l : list A) : list A :=
  match l with
  | [] => []
  | x :: l' => insert_sorted x (sorted l')
  end.
End Sorting.

(** [sorted(l, key=key)]: the keys are computed first, one call per
    element, and the elements are ordered by their keys. *)
Definition sorted_by_key {A : Type} (key : A -> res Z) (l : list A)
  : res (list A) :=
  keys <- map_res key l ;;
  Ok (map snd (sorted (fun p q => (fst p <? fst q)%Z) (combine keys l))).

(** Comparison of sequences, as Python compares strings and lists: by the
    first position where they differ, a proper prefix first. *)
Section Lexicographic.
Variable A : Type.
Variable ltb : A -> A -> bool.

Fixpoint lex_ltb (a b : list A) : bool :=
  match a, b with
  | _, [] => false
  | [], _ :: _ => true
  | x :: a', y :: b' =>
      if ltb x y then true
      else if ltb y x then false
      else lex_ltb a' b'
  end.
End Lexicographic.

(** Comparison of characters, by code point, and of [str]. *)
Definition char_ltb (x y : ascii) : bool := nat_of_ascii x <? nat_of_ascii y.

Definition text_ltb : text -> text -> bool := lex_ltb char_ltb.

(** ** The file system *)

(** A regular file with the characters its bytes decode to, a directory,
    or a regular file whose bytes are not valid UTF-8. *)
Inductive node :=
| File (content : text)
| Dir (entries : list (text * node))
| Undecodable.

(** A [Path], as the list of its components from the root. *)
Definition path := list text.

(** Comparison of [Path]: of the lists of components. *)
Definition path_ltb : path -> path -> bool := lex_ltb text_ltb.

Fixpoint lookup_entry (name : text) (entries : list (text * node))
  : option node :=
  match entries with
  | [] => None
  | (n, d) :: entries' =>
      if text_eqb name n then Some d else lookup_entry name entries'
  end.

(** The node a path denotes in the tree [fs], if any. *)
Fixpoint lookup_path (p : path) (fs : node) : option node :=
  match p with
  | [] => Some fs
  | c :: p' =>
      match fs with
      | File _ | Undecodable => None
      | Dir entries =>
          match lookup_entry c entries with
          | Some d => lookup_path p' d
          | None => None
          end
      end
  end.

(** [p.exists()] *)
Definition path_exists (fs : node) (p : path) : bool :=
  match lookup_path p fs with
  | Some _ => true
  | None => false
  end.

(** [p.is_dir()] *)
Definition is_dir (fs : node) (p : path) : bool :=
  match lookup_path p fs with
  | Some (Dir _) => true
  | _ => false
  end.

(** [list(p.iterdir())] *)
Definition iterdir (fs : node) (p : path) : res (list path) :=
  match lookup_path p fs with
  | None => Raise FileNotFoundError
  | Some (File _) | Some Undecodable => Raise NotADirectoryError
  | Some (Dir entries) => Ok (map (fun e => p ++ [fst e]) entries)
  end.

(** [p.name] *)
Definition path_name (p : path) : text := last p [].

(** [open(p, 'r', encoding='utf-8').read()]: the decoded characters with
    the line endings translated. *)
Definition read_file (fs : node) (p : path) : res text :=
  match lookup_path p fs with
  | None => Raise FileNotFoundError
  | Some (Dir _) => Raise IsADirectoryError
  | Some Undecodable => Raise UnicodeDecodeError
  | Some (File content) => Ok (universal_newlines content)
  end.

(** The characters a file holds, as stored. *)
Definition stored (fs : node) (p : path) : option text :=
  match lookup_path p fs with
  | Some (File content) => Some content
  | _ => None
  end.

(** [open(p, 'w', encoding='utf-8').write(new)]: the file system after the
    write; the file then holds [new] as it is. *)
Fixpoint write_entry (name : text) (k : node -> res node)
    (create : option node) (entries : list (text * node))
  : res (list (text * node)) :=
  match entries with
  | [] =>
      match create with
      | Some d => Ok [(name, d)]
      | None => Raise FileNotFoundError
      end
  | (n, d) :: entries' =>
      if text_eqb name n then
        d' <- k d ;; Ok ((n, d') :: entries')
      else
        es <- write_entry name k create entries' ;; Ok ((n, d) :: es)
  end.

Fixpoint write_file (p : path) (new : text) (fs : node) : res node :=
  match p with
  | [] =>
      match fs with
      | File _ | Undecodable => Ok (File new)
      | Dir _ => Raise IsADirectoryError
      end
  | c :: p' =>
      match fs with
      | File _ | Undecodable => Raise NotADirectoryError
      | Dir entries =>
          es <- write_entry c (write_file p' new)
                  (match p' with [] => Some (File new) | _ :: _ => None end)
                  entries ;;
          Ok (Dir es)
      end
  end.

(** ** The Folder Scanner: [find_article_folders] *)

Definition subdirs : list text := [str "articles"; str "feedback-friday"].
Definition article_html : text := str "article.html".

(** The body of [for subdir in ...] for one [subdir]: the folders it
    appends. *)
Definition scan_subdir (fs : node) (base_path : path) (subdir : text)
  : res (list path) :=
  let subdir_path := base_path ++ [subdir] in
  if path_exists fs subdir_path then
    children <- iterdir fs subdir_path ;;
    Ok (filter (fun folder =>
                  is_dir fs folder
                  && path_exists fs (folder ++ [article_html]))
               children)
  else Ok [].

Fixpoint scan_subdirs (fs : node) (base_path : path) (names : list text)
    (folders : list path) : res (list path) :=
  match names with
  | [] => Ok folders
  | subdir :: names' =>
      found <- scan_subdir fs base_path subdir ;;
      scan_subdirs fs base_path names' (folders ++ found)
  end.

Definition find_article_folders (fs : node) (base_path : path)
  : res (list path) :=
  folders <- scan_subdirs fs base_path subdirs [] ;;
  Ok (sorted path_ltb folders).

(** ** The Image Inventory: [get_available_images] *)

Definition image_prefix : text := str "image-".
Definition webp_suffix : text := str ".webp".

(** [s.startswith(p)] and [s.endswith(p)] *)
Definition startswith (p s : text) : bool :=
  match strip_prefix p s with
  | Some _ => true
  | None => false
  end.

Definition endswith (p s : text) : bool :=
  (length p <=? length s) && text_eqb (skipn (length s - length p) s) p.

(** The pattern [image-(\d+)] *)
Definition number_pattern : regex :=
  Seq (lit image_prefix) (Group 1 (Plus is_digit)).

(** The pattern tried at the head of [s]: group 1. *)
Definition match_image_number (s : text) : option text :=
  match re_match number_pattern s with
  | Some (_, caps) =>
      match group_span 1 caps with
      | Some (a, b) => Some (substring s a b)
      | None => None
      end
  | None => None
  end.

(** [re.search(r'image-(\d+)', s)]: the leftmost match, its group 1. *)
Fixpoint search_image_number (s : text) : option text :=
  match match_image_number s with
  | Some digits => Some digits
  | None =>
      match s with
      | [] => None
      | _ :: s' => search_image_number s'
      end
  end.

(** [int(digits)] on a run of decimal digits. *)
Definition int_of_digits (digits : text) : Z :=
  fold_left (fun acc c => (10 * acc + Z.of_nat (nat_of_ascii c - 48))%Z)
            digits 0%Z.

(** The sort key [lambda x: int(re.search(r'image-(\d+)', x).group(1))];
    [.group] on the [None] of a failed search raises. *)
Definition image_sort_key (x : text) : res Z :=
  match search_image_number x with
  | None => Raise AttributeError
  | Some digits => Ok (int_of_digits digits)
  end.

Definition is_image_name (name : text) : bool :=
  startswith image_prefix name && endswith webp_suffix name.

Definition get_available_images (fs : node) (folder : path)
  : res (list text) :=
  children <- iterdir fs folder ;;
  let images := filter is_image_name (map path_name children) in
  sorted_by_key image_sort_key images.

(** ** The Content Extractor: [extract_content_section] *)

(** The pattern [(<div class=\x22content\x22>)(.*?)(</div>\s*</body>)] with
    [re.DOTALL]. *)
Definition content_open : text :=
  str "<div class=" ++ [dq] ++ str "content" ++ [dq] ++ str ">".
Definition div_close : text := str "</div>".
Definition body_close : text := str "</body>".

Definition content_pattern : regex :=
  Seq (Group 1 (lit content_open))
    (Seq (Group 2 (LazyStar any_char))
       (Group 3 (Seq (lit div_close)
                   (Seq (Star is_space) (lit body_close))))).

(** The pattern tried at the head of [s]: start and end of group 2 and end
    of the match. *)
Definition match_content (s : text) : option (nat * nat * nat) :=
  match re_match content_pattern s with
  | Some (e, caps) =>
      match group_span 2 caps with
      | Some (a, b) => Some (a, b, e)
      | None => None
      end
  | None => None
  end.

(** [re.search]: the leftmost position at which the pattern matches; the
    span of group 2. *)
Fixpoint search_content (s : text) (pos : nat) : option (nat * nat) :=
  match match_content s with
  | Some (a, b, _) => Some (pos + a, pos + b)
  | None =>
      match s with
      | [] => None
      | _ :: s' => search_content s' (S pos)
      end
  end.

Definition extract_content_section (html : text) : Z * Z * text :=
  match search_content html 0 with
  | Some (start, end_) =>
      (Z.of_nat start, Z.of_nat end_, substring html start end_)
  | None => ((-1)%Z, (-1)%Z, [])
  end.

(** ** [repr] of a list of strings *)

Definition hex_digit (n : nat) : ascii :=
  nth n (str "0123456789abcdef") "0"%char.

(** The characters [repr] prints as they are: ASCII from the space to [~],
    and the printable characters of 161..255. *)
Definition is_printable (c : ascii) : bool :=
  let n := nat_of_ascii c in
  ((32 <=? n) && (n <=? 126))
  || ((161 <=? n) && negb (n =? 173)).

Definition repr_char (quote c : ascii) : text :=
  if ascii_dec c quote then ["\"%char; c]
  else if ascii_dec c "\"%char then ["\"%char; c]
  else if ascii_dec c "009"%char then str "\t"
  else if ascii_dec c "010"%char then str "\n"
  else if ascii_dec c "013"%char then str "\r"
  else if is_printable c then [c]
  else
    let n := nat_of_ascii c in
    str "\x" ++ [hex_digit (n / 16); hex_digit (n mod 16)].

Definition has_char (c : ascii) (s : text) : bool :=
  existsb (fun x => if ascii_dec x c then true else false) s.

(** [repr(s)]: single quotes, unless [s] holds one and no double quote. *)
Definition repr_str (s : text) : text :=
  let quote :=
    if has_char "'"%char s && negb (has_char dq s) then dq else "'"%char in
  [quote] ++ flat_map (repr_char quote) s ++ [quote].

Fixpoint join (sep : text) (l : list text) : text :=
  match l with
  | [] => []
  | [x] => x
  | x :: l' => x ++ sep ++ join sep l'
  end.

(** [repr(l)] for a list of strings *)
Definition repr_list (l : list text) : text :=
  str "[" ++ join (str ", ") (map repr_str l) ++ str "]".

(** ** The Article Processor: [process_article] *)

(** The result dict. *)
Record article_result := {
  r_folder : text;
  r_path : text;
  r_changes : list change;
  r_errors : list text;
  r_images_in_html : nat;
  r_images_available : nat
}.

(** [str(folder)] *)
Definition path_str (p : path) : text := join (str "/") p.

Definition content_not_found : text := str "Sezione .content non trovata".

(** [f"{len(missing)} immagini mancanti: {[c['new_url'] for c in missing]}"] *)
Definition missing_message (missing : list change) : text :=
  str_of_nat (length missing) ++ str " immagini mancanti: "
  ++ repr_list (map new_url missing).

(** Lines 127-131: the errors appended under [# Verifica mismatch]. *)
Definition mismatch_errors (changes : list change) : list text :=
  let images_with_files := length (filter exists_ changes) in
  if images_with_files =? length changes then []
  else
    let missing := filter (fun c => negb (exists_ c)) changes in
    [missing_message missing].

(** The result and the file system after the call. *)
Definition process_article (fs : node) (folder : path) (dry_run : bool)
  : res (article_result * node) :=
  let article_path := folder ++ [article_html] in
  html <- read_file fs article_path ;;
  available_images <- get_available_images fs folder ;;
  let images_available := length available_images in
  let '(start, end_, content) := extract_content_section html in
  if (start =? -1)%Z then
    Ok ({| r_folder := path_name folder; r_path := path_str folder;
           r_changes := []; r_errors := [] ++ [content_not_found];
           r_images_in_html := 0;
           r_images_available := images_available |}, fs)
  else
    let '(new_content, changes) :=
      replace_images_in_content content available_images dry_run
        (path_name folder) in
    let result :=
      {| r_folder := path_name folder; r_path := path_str folder;
         r_changes := changes;
         r_errors := [] ++ mismatch_errors changes;
         r_images_in_html := length changes;
         r_images_available := images_available |} in
    if negb dry_run && negb (Nat.eqb (length changes) 0) then
      let new_html :=
        slice_to html start ++ new_content ++ slice_from html end_ in
      fs' <- write_file article_path new_html fs ;;
      Ok (result, fs')
    else Ok (result, fs).

(** ** The loop of [main] *)

(** [for folder in folders], over [total_changes], [total_errors] and the
    file system; what [main] prints is left out. *)
Fixpoint main_loop (fs : node) (folders : list path) (dry_run : bool)
    (total_changes total_errors : nat) : res (nat * nat * node) :=
  match folders with
  | [] => Ok (total_changes, total_errors, fs)
  | folder :: folders' =>
      r <- process_article fs folder dry_run ;;
      let '(result, fs') := r in
      let total_changes' :=
        match r_changes result with
        | [] => total_changes
        | _ :: _ => total_changes + length (r_changes result)
        end in
      let total_errors' :=
        match r_errors result with
        | [] => total_errors
        | _ :: _ => total_errors + length (r_errors result)
        end in
      main_loop fs' folders' dry_run total_changes' total_errors'
  end.

Definition main (fs : node) (base_path : path) (dry_run : bool)
  : res (nat * nat * node) :=
  folders <- find_article_folders fs base_path ;;
  main_loop fs folders dry_run 0 0.

(** ** Vocabulary of the specification *)

(** The change records the specification describes, one per match, for the
    matches from scan position [i] on. *)
Fixpoint records (content : text) (available_images : list text) (i : nat)
    (matches : list img_match) : list change :=
  match matches with
  | [] => []
  | m :: matches' =>
      {| index := i + 1; old_url := group1 content m;
         new_url := image_name (i + 2);
         exists_ := in_list (image_name (i + 2)) available_images |}
      :: records content available_images (S i) matches'
  end.

(** The URL an occurrence carries in the output fragment. *)
Definition kept_url (c : change) : text :=
  if exists_ c then new_url c else old_url c.

(** The text around the captured URLs: before the first, between two
    consecutive ones, after the last. *)
Fixpoint gaps_from (content : text) (from : nat) (matches : list img_match)
  : list text :=
  match matches with
  | [] => [skipn from content]
  | m :: matches' =>
      substring content from (g1_start m)
      :: gaps_from content (g1_end m) matches'
  end.

Definition gaps (content : text) : list text :=
  gaps_from content 0 (finditer content).

(** Gaps and URLs put together again, a URL after each gap but the last. *)
Fixpoint weave (gaps urls : list text) : text :=
  match gaps with
  | [] => []
  | g :: gaps' =>
      match urls with
      | [] => g
      | u :: urls' => g ++ u ++ weave gaps' urls'
      end
  end.

(** The sum over the change records of the differences in length. *)
Definition length_delta (changes : list change) : Z :=
  fold_right Z.add 0%Z
    (map (fun c => (Z.of_nat (length (new_url c))
                    - Z.of_nat (length (old_url c)))%Z) changes).

(** [needle in haystack] for strings: a substring test. *)
Fixpoint contains (haystack needle : text) : bool :=
  startswith needle haystack
  || match haystack with
     | [] => false
     | _ :: haystack' => contains haystack' needle
     end.

(** Group 3 of the content pattern, [</div>\s*</body>], at the head of
    [s], in the words of the specification. *)
Definition closes (s : text) : Prop :=
  exists ws rest,
    s = div_close ++ ws ++ body_close ++ rest
    /\ Forall (fun c => is_space c = true) ws.

(** An occurrence of the content pattern in [html]: the opening tag at
    position [p], then [mid], then the closing boundary. *)
Definition content_occurrence (html : text) (p : nat) (mid : text) : Prop :=
  exists pre tail,
    html = pre ++ content_open ++ mid ++ tail
    /\ length pre = p /\ closes tail.

(** The integer the specification sorts the inventory by: the one written
    right after the leading [image-]. *)
Definition image_number (name : text) : Z :=
  int_of_digits (fst (span is_digit (skipn (length image_prefix) name))).

(** [p <= q] for paths. *)
Definition path_le (p q : path) : Prop := path_ltb q p = false.

(** The folders the specification promises: the children of [subdir] that
    are directories and hold an entry named [article.html]. *)
Definition folders_in (fs : node) (base_path : path) (subdir : text)
  : list path :=
  match lookup_path (base_path ++ [subdir]) fs with
  | Some (Dir entries) =>
      filter (fun folder =>
                is_dir fs folder
                && path_exists fs (folder ++ [article_html]))
             (map (fun e => base_path ++ [subdir; fst e]) entries)
  | _ => []
  end.

Definition article_folders (fs : node) (base_path : path) : list path :=
  flat_map (folders_in fs base_path) subdirs.

(** ** Vocabulary of the proofs *)

(** The captured spans lie in the subject, one after the other, from
    position [from] on. *)
Fixpoint spans_ok (content : text) (from : nat) (matches : list img_match)
  : Prop :=
  match matches with
  | [] => True
  | m :: matches' =>
      from <= g1_start m /\ g1_start m <= g1_end m
      /\ g1_end m <= length content
      /\ spans_ok content (g1_end m) matches'
  end.

(** The rewriting seen on the text alone: where the pattern matches, the
    URL is exchanged and the scan resumes after the match; elsewhere one
    character is copied. *)
Fixpoint rewrite_from (available_images : list text) (fuel : nat)
    (rest : text) (i : nat) : text :=
  match fuel with
  | 0 => rest
  | S fuel' =>
      match rest with
      | [] => []
      | c :: rest' =>
          match match_img rest with
          | Some (a, b, e) =>
              firstn a rest
              ++ (if in_list (image_name (i + 2)) available_images
                  then image_name (i + 2) else substring rest a b)
              ++ substring rest b e
              ++ rewrite_from available_images fuel' (skipn e rest) (S i)
          | None => c :: rewrite_from available_images fuel' rest' i
          end
      end
  end.

Definition rewrite_text (available_images : list text) (s : text) (i : nat)
  : text :=
  rewrite_from available_images (length s) s i.

(** The image pattern without backtracking.  [\s+] is followed by the
    letter [s] and [[^\x22]+] by the quote: neither repetition can give a
    character back to what follows it, so the first path the matcher takes,
    with both runs the longest, is the only one. *)
Definition match_img_direct (s : text) : option (nat * nat * nat) :=
  match strip_prefix img_open s with
  | None => None
  | Some s1 =>
      let (ws, s2) := span is_space s1 in
      match ws with
      | [] => None
      | _ :: _ =>
          match strip_prefix img_src s2 with
          | None => None
          | Some s3 =>
              let (url, s4) := span not_dq s3 in
              match url, s4 with
              | _ :: _, _ :: _ =>
                  let a := length img_open + length ws + length img_src in
                  Some (a, a + length url, a + length url + 1)
              | _, _ => None
              end
          end
      end
  end.

(** The number pattern without backtracking: the longest run of digits. *)
Definition match_image_number_direct (s : text) : option text :=
  match strip_prefix image_prefix s with
  | None => None
  | Some s1 =>
      match fst (span is_digit s1) with
      | [] => None
      | d :: ds => Some (d :: ds)
      end
  end.

(** Group 3 of the content pattern without backtracking: its length.
    [\s*] is followed by [<], so its longest run is its only choice. *)
Definition match_close (s : text) : option nat :=
  match strip_prefix div_close s with
  | None => None
  | Some s1 =>
      let (ws, s2) := span is_space s1 in
      match strip_prefix body_close s2 with
      | None => None
      | Some _ => Some (length div_close + length ws + length body_close)
      end
  end.

(** Group 2 and then group 3: the lazy repetition takes [j] characters,
    any characters, for the least [j] after which group 3 matches. *)
Fixpoint lazy_until_close (s : text) (j : nat) : option (nat * nat) :=
  match match_close s with
  | Some e => Some (j, e)
  | None =>
      match s with
      | [] => None
      | _ :: s' => lazy_until_close s' (S j)
      end
  end.

(** The content pattern without backtracking. *)
Definition match_content_direct (s : text) : option (nat * nat * nat) :=
  match strip_prefix content_open s with
  | None => None
  | Some s1 =>
      match lazy_until_close s1 0 with
      | None => None
      | Some (j, e) =>
          let a := length content_open in Some (a, a + j, a + j + e)
      end
  end.

(** What follows the run starts with a character outside the class. *)
Definition stops (f : ascii -> bool) (t : text) : Prop :=
  match t with
  | [] => True
  | c :: _ => f c = false
  end.

(** [s] starts with [<img], white space, [src=\x22], a non-empty [url]
    without quote, and a quote. *)
Definition img_shape (s ws url rest : text) : Prop :=
  s = img_open ++ ws ++ img_src ++ url ++ dq :: rest
  /\ ws <> [] /\ Forall (fun c => is_space c = true) ws
  /\ url <> [] /\ Forall (fun c => not_dq c = true) url.

(** [k] fails on a subject that starts with a character of the class. *)
Definition rejects (f : ascii -> bool) (k : continuation) : Prop :=
  forall c s pos caps, f c = true -> k (c :: s) pos caps = None.

(** The character that opens a tag. *)
Definition lt_char : ascii := "<"%char.

(** What sorting asks of a comparison [<]: it is asymmetric, and [<=],
    read as "not greater", is transitive. *)
Definition asymmetric {A : Type} (ltb : A -> A -> bool) : Prop :=
  forall x y, ltb x y = true -> ltb y x = false.

Definition le_transitive {A : Type} (ltb : A -> A -> bool) : Prop :=
  forall x y z, ltb y x = false -> ltb z y = false -> ltb z x = false.

Definition le_antisymmetric {A : Type} (ltb : A -> A -> bool) : Prop :=
  forall x y, ltb x y = false -> ltb y x = false -> x = y.

(** The comparison [sorted] makes between two elements with their keys. *)
Definition key_ltb {A : Type} (p q : Z * A) : bool := (fst p <? fst q)%Z.

(** ** Examples *)

(** A fragment whose image already carries its local file name. *)
Definition local_fragment : text :=
  str "<img src=" ++ [dq] ++ str "image-2.webp" ++ [dq] ++ str ">".

(** An image tag whose [src] is not the first attribute, and one whose
    [src] is in single quotes. *)
Definition class_fragment : text :=
  str "<img class=" ++ [dq] ++ str "x" ++ [dq] ++ str " src=" ++ [dq]
  ++ str "https://cdn.x/a.jpg" ++ [dq] ++ str ">".

Definition single_quote_fragment : text :=
  str "<img src='https://cdn.x/a.jpg'>".

(** A document with a content section around [fragment]. *)
Definition example_html (fragment : text) : text :=
  str "<html><body><h1>t</h1>" ++ content_open ++ fragment
  ++ str "</div>" ++ ["010"%char] ++ str "</body></html>".

(** A document without a content section. *)
Definition bare_html : text := str "<html><body><p>x</p></body></html>".

Definition example_fs : node :=
  Dir [(str "site",
        Dir [(str "articles",
              Dir [(str "post",
                    Dir [(str "image-2.webp", File []);
                         (str "article.html",
                          File (example_html example_fragment));
                         (str "image-1.webp", File [])]);
                   (str "bare",
                    Dir [(str "article.html", File bare_html)]);
                   (str "drafts", Dir [(str "notes.txt", File [])])]);
             (str "replace_image_paths.py", File [])])].

Definition example_base : path := [str "site"].
Definition example_post : path := [str "site"; str "articles"; str "post"].
Definition example_bare : path := [str "site"; str "articles"; str "bare"].

(** A folder whose images would sort differently as strings. *)
Definition gallery_entries : list (text * node) :=
  [(str "image-10.webp", File []);
   (str "article.html", File bare_html);
   (str "image-2.webp", File []);
   (str "image-3.png", File []);
   (str "image-1.webp", File [])].

Definition gallery_fs : node := Dir [(str "gallery", Dir gallery_entries)].
Definition gallery : path := [str "gallery"].

(** A site in which [articles] is a regular file. *)
Definition odd_fs : node :=
  Dir [(str "site",
        Dir [(str "articles", File (str "not a directory"));
             (str "feedback-friday",
              Dir [(str "week-1",
                    Dir [(str "article.html", File bare_html)])])])].

(** A site with both subdirectories, folders out of order, one of them
    without article and one plain file among them. *)
Definition two_fs : node :=
  Dir [(str "site",
        Dir [(str "feedback-friday",
              Dir [(str "week-2",
                    Dir [(str "article.html", File bare_html)]);
                   (str "week-1",
                    Dir [(str "article.html", File bare_html)])]);
             (str "articles",
              Dir [(str "zeta", Dir [(str "article.html", File bare_html)]);
                   (str "empty", Dir []);
                   (str "readme.txt", File []);
                   (str "alpha",
                    Dir [(str "article.html", File bare_html)])])])].

(** ** Vocabulary of the further properties *)

(** The articles of a run one after the other: their results and the file
    system after the last. *)
Fixpoint process_all (fs : node) (folders : list path) (dry_run : bool)
  : res (list article_result * node) :=
  match folders with
  | [] => Ok ([], fs)
  | folder :: folders' =>
      r <- process_article fs folder dry_run ;;
      rest <- process_all (snd r) folders' dry_run ;;
      Ok (fst r :: fst rest, snd rest)
  end.

Definition sum_of (f : article_result -> nat) (results : list article_result)
  : nat :=
  fold_right (fun r n => f r + n) 0 results.


(** Somewhere in [name], [image-] is followed by a digit. *)
Definition has_number (name : text) : Prop :=
  exists pre d rest,
    name = pre ++ image_prefix ++ d :: rest /\ is_digit d = true.


(** Two file systems with the same directories and entry names at every
    path, and the same file contents except at the paths in [P]. *)
Definition same_outside (P : path -> Prop) (fs fs' : node) : Prop :=
  forall q,
    match lookup_path q fs, lookup_path q fs' with
    | Some (File c), Some (File c') => ~ P q -> c = c'
    | Some (Dir es), Some (Dir es') => map fst es = map fst es'
    | Some Undecodable, Some Undecodable => True
    | None, None => True
    | _, _ => False
    end.

(** The article of one of the folders. *)
Definition article_of (folders : list path) (q : path) : Prop :=
  exists folder, In folder folders /\ q = folder ++ [article_html].


(** A change record once its URL has been written: the old URL is the one
    the output carries. *)
Definition settle (c : change) : change :=
  {| index := index c; old_url := kept_url c;
     new_url := new_url c; exists_ := exists_ c |}.

(** The change records seen on the text alone, as [rewrite_from] sees the
    output. *)
Fixpoint records_from (available_images : list text) (fuel : nat)
    (rest : text) (i : nat) : list change :=
  match fuel with
  | 0 => []
  | S fuel' =>
      match rest with
      | [] => []
      | _ :: rest' =>
          match match_img rest with
          | Some (a, b, e) =>
              {| index := i + 1; old_url := substring rest a b;
                 new_url := image_name (i + 2);
                 exists_ := in_list (image_name (i + 2)) available_images |}
              :: records_from available_images fuel' (skipn e rest) (S i)
          | None => records_from available_images fuel' rest' i
          end
      end
  end.

Definition records_text (available_images : list text) (s : text) (i : nat)
  : list change :=
  records_from available_images (length s) s i.


(** No closing boundary starts inside [s] when [tail] follows it. *)
Fixpoint no_close (s tail : text) : Prop :=
  match s with
  | [] => True
  | c :: r => ~ closes (c :: r ++ tail) /\ no_close r tail
  end.

(** No occurrence of the content pattern starts before the end of
    [pre]. *)
Definition leftmost (html pre : text) : Prop :=
  forall pre' mid' tail',
    html = pre' ++ content_open ++ mid' ++ tail' -> closes tail' ->
    length pre <= length pre'.

(** The result of an article once its URLs have been written. *)
Definition settled_result (r : article_result) : article_result :=
  {| r_folder := r_folder r; r_path := r_path r;
     r_changes := map settle (r_changes r); r_errors := r_errors r;
     r_images_in_html := r_images_in_html r;
     r_images_available := r_images_available r |}.


(** What a run reports at its end: the two totals, or the exception. *)
Definition totals_of (run : res (nat * nat * node)) : res (nat * nat) :=
  r <- run ;; Ok (fst (fst r), snd (fst r)).

(** Two results that count the same. *)
Definition same_counts (r r' : article_result) : Prop :=
  r_errors r = r_errors r'
  /\ length (r_changes r) = length (r_changes r').

(** [folder] has been processed on the way from [fs0] to [fs]: a further
    call leaves [fs] as it is, and counts as the preview on [fs0] does. *)
Definition settled_at (fs0 fs : node) (folder : path) : Prop :=
  exists r0 r1,
    process_article fs0 folder true = Ok (r0, fs0)
    /\ (forall d, process_article fs folder d = Ok (r1, fs))
    /\ same_counts r0 r1.

(** The file system [fs] of an applying run that started on [fs0], after
    the folders [done]. *)
Definition applied (fs0 : node) (done : list path) (fs : node) : Prop :=
  same_outside (article_of done) fs0 fs
  /\ forall folder, In folder done -> settled_at fs0 fs folder.


(** An article stored with [\r\n] line endings, in a folder with the
    image of its only occurrence. *)
Definition crlf_html : text :=
  str "<html>" ++ [cr; lf] ++ str "<body>" ++ [cr; lf] ++ content_open
  ++ str "<img src=" ++ [dq] ++ str "https://cdn.x/a.jpg" ++ [dq] ++ str ">"
  ++ str "</div>" ++ [cr; lf] ++ str "</body></html>".

Definition crlf_fs : node :=
  Dir [(str "site",
        Dir [(str "articles",
              Dir [(str "post",
                    Dir [(str "article.html", File crlf_html);
                         (str "image-2.webp", File [])])])])].


(** ** The occurrences the specification counts *)

(** The shape of the image pattern stands at position [p] of [content]. *)
Definition shape_at (content : text) (p : nat) : Prop :=
  exists ws url rest, img_shape (skipn p content) ws url rest.

(** The occurrences of [<img src=\x22...\x22>] in [content] as a scan from
    position [from] meets them, each with its position and its URL: the
    next occurrence is the leftmost one that starts at or after the point
    where the scan stands, and the scan goes on behind its closing
    quote. *)
Inductive scanned (content : text) : nat -> list (nat * text) -> Prop :=
| scanned_nil (from : nat) :
    (forall q, from <= q -> ~ shape_at content q) ->
    scanned content from []
| scanned_cons (from p : nat) (ws url rest : text)
    (occurrences : list (nat * text)) :
    from <= p ->
    (forall q, from <= q -> q < p -> ~ shape_at content q) ->
    img_shape (skipn p content) ws url rest ->
    scanned content
      (p + length img_open + length ws + length img_src + length url + 1)
      occurrences ->
    scanned content from ((p, url) :: occurrences).

(** An image tag with another attribute before [src], whose value holds
    the text of the pattern. *)
Definition nested_fragment : text :=
  str "<img alt=" ++ [dq] ++ str "<img src=" ++ [dq] ++ str " src=" ++ [dq]
  ++ str "real.jpg" ++ [dq] ++ str ">".

(** A folder with an article without content section beside an image
    whose name has no number. *)
Definition cover_fs : node :=
  Dir [(str "site",
        Dir [(str "articles",
              Dir [(str "bare",
                    Dir [(str "article.html", File bare_html);
                         (str "image-cover.webp", File [])])])])].


(** * Properties *)

Unset Implicit Arguments.

(** ** The example of the specification *)

Example example_rewrite :
  replace_images_in_content example_fragment [str "image-2.webp"] false []
  = (str "<img src=" ++ [dq] ++ str "image-2.webp" ++ [dq] ++ str "> "
     ++ str "<img src=" ++ [dq] ++ str "https://cdn.x/b.jpg" ++ [dq]
     ++ str ">",
     [ {| index := 1; old_url := str "https://cdn.x/a.jpg";
          new_url := str "image-2.webp"; exists_ := true |};
       {| index := 2; old_url := str "https://cdn.x/b.jpg";
          new_url := str "image-3.webp"; exists_ := false |} ]).
Proof. vm_compute. reflexivity. Qed.

Example example_missing_message :
  mismatch_errors
    (snd (replace_images_in_content example_fragment [str "image-2.webp"]
            false []))
  = [str "1 immagini mancanti: ['image-3.webp']"].
Proof. vm_compute. reflexivity. Qed.

(** ** Text, prefixes and runs *)

Lemma text_eqb_eq (a b : text) : text_eqb a b = true <-> a = b.
Proof.
  unfold text_eqb. destruct (list_eq_dec ascii_dec a b); split; congruence.
Qed.

Lemma text_eqb_refl (a : text) : text_eqb a a = true.
Proof. apply text_eqb_eq. reflexivity. Qed.

Lemma strip_prefix_app (p r : text) : strip_prefix p (p ++ r) = Some r.
Proof.
  induction p as [|a p IH]; simpl; [reflexivity|].
  destruct (ascii_dec a a); [exact IH | congruence].
Qed.

Lemma strip_prefix_inv (p s r : text) :
  strip_prefix p s = Some r -> s = p ++ r.
Proof.
  revert s. induction p as [|a p IH]; intros s H; simpl in *.
  - congruence.
  - destruct s as [|b s]; [discriminate|].
    destruct (ascii_dec a b); [|discriminate].
    subst. f_equal. apply IH. exact H.
Qed.

Lemma span_app (f : ascii -> bool) (s : text) :
  s = fst (span f s) ++ snd (span f s).
Proof.
  induction s as [|c s IH]; simpl; [reflexivity|].
  destruct (f c); [|reflexivity].
  destruct (span f s) as [r t]. simpl in *. congruence.
Qed.

Lemma span_all (f : ascii -> bool) (s : text) :
  Forall (fun c => f c = true) (fst (span f s)).
Proof.
  induction s as [|c s IH]; simpl; [constructor|].
  destruct (f c) eqn:E; [|constructor].
  destruct (span f s) as [r t]. simpl in *. constructor; assumption.
Qed.

Lemma span_stops (f : ascii -> bool) (s : text) : stops f (snd (span f s)).
Proof.
  induction s as [|c s IH]; simpl; [exact I|].
  destruct (f c) eqn:E; [|exact E].
  destruct (span f s) as [r t]. exact IH.
Qed.

Lemma span_run (f : ascii -> bool) (r t : text) :
  Forall (fun c => f c = true) r -> stops f t -> span f (r ++ t) = (r, t).
Proof.
  intros Hr Ht. induction Hr as [|c r Hc Hr IH]; simpl.
  - destruct t as [|c t]; [reflexivity|]. simpl in *. rewrite Ht. reflexivity.
  - rewrite Hc, IH. reflexivity.
Qed.

Lemma span_length (f : ascii -> bool) (s : text) :
  length (fst (span f s)) + length (snd (span f s)) = length s.
Proof.
  rewrite (span_app f s) at 3. rewrite length_app. reflexivity.
Qed.

Lemma skipn_app_length (p r : text) : skipn (length p) (p ++ r) = r.
Proof.
  rewrite skipn_app, Nat.sub_diag, skipn_all. reflexivity.
Qed.

Lemma firstn_app_length (p r : text) : firstn (length p) (p ++ r) = p.
Proof.
  rewrite firstn_app, Nat.sub_diag, firstn_all, app_nil_r. reflexivity.
Qed.

Lemma substring_middle (p u r : text) :
  substring (p ++ u ++ r) (length p) (length p + length u) = u.
Proof.
  unfold substring. rewrite skipn_app_length.
  replace (length p + length u - length p) with (length u) by lia.
  apply firstn_app_length.
Qed.

Lemma not_dq_dq : not_dq dq = false.
Proof. reflexivity. Qed.

Lemma not_dq_false (c : ascii) : not_dq c = false -> c = dq.
Proof. unfold not_dq. destruct (ascii_dec c dq); congruence. Qed.

(** ** The matcher on the patterns of the program *)

Lemma run_lit (p : text) (k : continuation) :
  forall (s : text) (pos : nat) (caps : captures),
    run (lit p) k s pos caps
    = match strip_prefix p s with
      | Some s' => k s' (pos + length p) caps
      | None => None
      end.
Proof.
  induction p as [|a p IH]; intros s pos caps.
  - simpl. rewrite Nat.add_0_r. reflexivity.
  - change (lit (a :: p)) with (Seq (Char a) (lit p)).
    cbn [run strip_prefix]. destruct s as [|b s]; [reflexivity|].
    destruct (ascii_dec a b); [|reflexivity].
    rewrite IH. cbn [length]. rewrite Nat.add_succ_r. reflexivity.
Qed.

(** A greedy repetition whose continuation rejects the class never gives a
    character back: it is the longest run, then the continuation. *)
Lemma greedy_span (f : ascii -> bool) (k : continuation) :
  rejects f k ->
  forall (s : text) (pos : nat) (caps : captures),
    greedy f k s pos caps
    = k (snd (span f s)) (pos + length (fst (span f s))) caps.
Proof.
  intros Hk. induction s as [|c s IH]; intros pos caps; cbn [greedy span].
  - simpl. rewrite Nat.add_0_r. reflexivity.
  - destruct (f c) eqn:E.
    + rewrite IH, (Hk c s pos caps E).
      destruct (span f s) as [r t]. cbn [fst snd length].
      rewrite Nat.add_succ_r. cbn [Nat.add].
      destruct (k t (S (pos + length r)) caps); reflexivity.
    + simpl. rewrite Nat.add_0_r. reflexivity.
Qed.

(** A greedy repetition whose continuation accepts after the longest run
    stops there. *)
Lemma greedy_longest (f : ascii -> bool) (k : continuation)
    (x : nat * captures) :
  forall (s : text) (pos : nat) (caps : captures),
    k (snd (span f s)) (pos + length (fst (span f s))) caps = Some x ->
    greedy f k s pos caps = Some x.
Proof.
  induction s as [|c s IH]; intros pos caps; cbn [greedy span].
  - simpl. rewrite Nat.add_0_r. tauto.
  - destruct (f c) eqn:E.
    + destruct (span f s) as [r t] eqn:Es. cbn [fst snd length].
      rewrite Nat.add_succ_r. intros H.
      rewrite (IH (S pos) caps); [reflexivity|].
      try rewrite Es. exact H.
    + simpl. rewrite Nat.add_0_r. tauto.
Qed.

Lemma run_plus_span (f : ascii -> bool) (k : continuation) :
  rejects f k ->
  forall (s : text) (pos : nat) (caps : captures),
    run (Plus f) k s pos caps
    = match fst (span f s) with
      | [] => None
      | _ :: _ => k (snd (span f s)) (pos + length (fst (span f s))) caps
      end.
Proof.
  intros Hk s pos caps. cbn [run]. destruct s as [|c s]; [reflexivity|].
  cbn [span]. destruct (f c) eqn:E; [|reflexivity].
  rewrite (greedy_span f k Hk).
  destruct (span f s) as [r t]. cbn [fst snd length].
  rewrite Nat.add_succ_r. reflexivity.
Qed.

Lemma run_plus_longest (f : ascii -> bool) (k : continuation) :
  (forall s pos caps, k s pos caps <> None) ->
  forall (s : text) (pos : nat) (caps : captures),
    run (Plus f) k s pos caps
    = match fst (span f s) with
      | [] => None
      | _ :: _ => k (snd (span f s)) (pos + length (fst (span f s))) caps
      end.
Proof.
  intros Hk s pos caps. cbn [run]. destruct s as [|c s]; [reflexivity|].
  cbn [span]. destruct (f c) eqn:E; [|reflexivity].
  destruct (span f s) as [r t] eqn:Es. cbn [fst snd length].
  rewrite Nat.add_succ_r.
  destruct (k t (S (pos + length r)) caps) as [x|] eqn:Ek.
  - apply greedy_longest. rewrite Es. exact Ek.
  - exfalso. exact (Hk _ _ _ Ek).
Qed.

Lemma run_seq (r1 r2 : regex) (k : continuation) (s : text) (pos : nat)
    (caps : captures) :
  run (Seq r1 r2) k s pos caps = run r1 (run r2 k) s pos caps.
Proof. reflexivity. Qed.

Lemma run_group (n : nat) (r : regex) (k : continuation) (s : text)
    (pos : nat) (caps : captures) :
  run (Group n r) k s pos caps
  = run r (fun s' pos' caps' => k s' pos' ((n, (pos, pos')) :: caps'))
      s pos caps.
Proof. reflexivity. Qed.

Lemma rejects_lit (f : ascii -> bool) (c : ascii) (p : text) (r : regex)
    (k : continuation) :
  f c = false -> rejects f (run (Seq (lit (c :: p)) r) k).
Proof.
  intros Hc x s pos caps Hx. rewrite run_seq, run_lit. cbn [strip_prefix].
  destruct (ascii_dec c x) as [->|]; [congruence | reflexivity].
Qed.

Lemma match_img_direct_eq (s : text) : match_img s = match_img_direct s.
Proof.
  unfold match_img, re_match, img_pattern, match_img_direct.
  rewrite run_seq, run_lit.
  destruct (strip_prefix img_open s) as [s1|]; [|reflexivity].
  rewrite run_seq, run_plus_span by (apply rejects_lit; reflexivity).
  pose proof (span_stops is_space s1) as Hstop1.
  destruct (span is_space s1) as [ws s2]. cbn [fst snd] in *.
  destruct ws as [|w ws]; [reflexivity|].
  rewrite run_seq, run_lit.
  destruct (strip_prefix img_src s2) as [s3|]; [|reflexivity].
  rewrite run_seq, run_group, run_plus_span.
  - pose proof (span_stops not_dq s3) as Hstop2.
    destruct (span not_dq s3) as [url s4]. cbn [fst snd] in *.
    destruct url as [|u url]; [reflexivity|].
    cbn [run]. destruct s4 as [|q s4]; [reflexivity|].
    simpl in Hstop2. apply not_dq_false in Hstop2. subst q.
    destruct (ascii_dec dq dq); [|congruence].
    cbn [group_span Nat.eqb]. repeat f_equal; lia.
  - intros c t pos caps Hc. cbn [run].
    destruct (ascii_dec dq c) as [<-|]; [discriminate Hc | reflexivity].
Qed.

Lemma rejects_lit_end (f : ascii -> bool) (c : ascii) (p : text)
    (k : continuation) :
  f c = false -> rejects f (run (lit (c :: p)) k).
Proof.
  intros Hc x s pos caps Hx. rewrite run_lit. cbn [strip_prefix].
  destruct (ascii_dec c x) as [->|]; [congruence | reflexivity].
Qed.

Lemma match_image_number_direct_eq (s : text) :
  match_image_number s = match_image_number_direct s.
Proof.
  unfold match_image_number, re_match, number_pattern,
    match_image_number_direct.
  rewrite run_seq, run_lit.
  destruct (strip_prefix image_prefix s) as [s1|] eqn:E; [|reflexivity].
  apply strip_prefix_inv in E. subst s.
  rewrite run_group, run_plus_longest by discriminate.
  pose proof (span_app is_digit s1) as Happ.
  destruct (span is_digit s1) as [ds rest]. cbn [fst snd] in *.
  destruct ds as [|d ds]; [reflexivity|].
  cbn [group_span Nat.eqb]. subst s1. cbn [Nat.add].
  rewrite (substring_middle image_prefix (d :: ds) rest). reflexivity.
Qed.

(** Group 3 of the content pattern, followed by [k]. *)
Lemma run_close (k : continuation) (s : text) (pos : nat) (caps : captures) :
  run (Group 3 (Seq (lit div_close) (Seq (Star is_space) (lit body_close))))
    k s pos caps
  = match match_close s with
    | Some e => k (skipn e s) (pos + e) ((3, (pos, pos + e)) :: caps)
    | None => None
    end.
Proof.
  unfold match_close. rewrite run_group, run_seq, run_lit.
  destruct (strip_prefix div_close s) as [s1|] eqn:E1; [|reflexivity].
  rewrite run_seq. cbn [run].
  rewrite greedy_span by (apply rejects_lit_end; reflexivity).
  pose proof (span_app is_space s1) as Happ.
  destruct (span is_space s1) as [ws s2]. cbn [fst snd] in *.
  rewrite run_lit.
  destruct (strip_prefix body_close s2) as [s3|] eqn:E2; [|reflexivity].
  apply strip_prefix_inv in E1, E2. subst s s2 s1.
  replace (skipn (length div_close + length ws + length body_close)
             (div_close ++ ws ++ body_close ++ s3)) with s3.
  - rewrite <- !Nat.add_assoc. reflexivity.
  - replace (length div_close + length ws + length body_close)
      with (length (div_close ++ ws ++ body_close))
      by (rewrite !length_app; lia).
    replace (div_close ++ ws ++ body_close ++ s3)
      with ((div_close ++ ws ++ body_close) ++ s3)
      by (rewrite <- !app_assoc; reflexivity).
    symmetry. apply skipn_app_length.
Qed.

(** The lazy group 2 followed by group 3 stops at the first position where
    group 3 matches. *)
Lemma lazy_close (p0 : nat) (caps : captures) (s : text) :
  forall (pos j : nat),
    lazy any_char
      (fun s' pos' caps' =>
         run (Group 3 (Seq (lit div_close)
                         (Seq (Star is_space) (lit body_close))))
           (fun _ pos'' caps'' => Some (pos'', caps''))
           s' pos' ((2, (p0, pos')) :: caps'))
      s pos caps
    = match lazy_until_close s j with
      | Some (j', e) =>
          Some (pos + j' - j + e,
                (3, (pos + j' - j, pos + j' - j + e))
                :: (2, (p0, pos + j' - j)) :: caps)
      | None => None
      end.
Proof.
  induction s as [|c s IH]; intros pos j;
    cbn [lazy lazy_until_close]; rewrite run_close.
  - destruct (match_close []) as [e|]; [|reflexivity].
    replace (pos + j - j) with pos by lia. reflexivity.
  - destruct (match_close (c :: s)) as [e|].
    + replace (pos + j - j) with pos by lia. reflexivity.
    + cbn [any_char]. rewrite (IH (S pos) (S j)).
      destruct (lazy_until_close s (S j)) as [[j' e]|]; [|reflexivity].
      replace (S pos + j' - S j) with (pos + j' - j) by lia. reflexivity.
Qed.

Lemma match_content_direct_eq (s : text) :
  match_content s = match_content_direct s.
Proof.
  unfold match_content, re_match, content_pattern, match_content_direct.
  rewrite run_seq, run_group, run_lit.
  destruct (strip_prefix content_open s) as [s1|]; [|reflexivity].
  rewrite run_seq, run_group. cbn [run].
  rewrite (lazy_close (0 + length content_open) _ s1
             (0 + length content_open) 0).
  destruct (lazy_until_close s1 0) as [[j e]|]; [|reflexivity].
  cbn [group_span Nat.eqb]. cbn zeta. repeat f_equal; lia.
Qed.

(** ** The shape of a match of the image pattern *)

Lemma match_img_shape (s : text) (a b e : nat) :
  match_img s = Some (a, b, e) ->
  exists ws url rest,
    img_shape s ws url rest
    /\ a = length img_open + length ws + length img_src
    /\ b = a + length url /\ e = b + 1.
Proof.
  rewrite match_img_direct_eq. unfold match_img_direct. intros H.
  destruct (strip_prefix img_open s) as [s1|] eqn:E1; [|discriminate].
  pose proof (span_app is_space s1) as A1.
  pose proof (span_all is_space s1) as F1.
  destruct (span is_space s1) as [ws s2]. simpl in A1, F1.
  destruct ws as [|w ws]; [discriminate|].
  destruct (strip_prefix img_src s2) as [s3|] eqn:E2; [|discriminate].
  pose proof (span_app not_dq s3) as A2.
  pose proof (span_all not_dq s3) as F2.
  pose proof (span_stops not_dq s3) as S2.
  destruct (span not_dq s3) as [url s4]. simpl in A2, F2, S2.
  destruct url as [|u url]; [discriminate|].
  destruct s4 as [|q rest]; [discriminate|].
  simpl in S2. apply not_dq_false in S2. subst q.
  injection H as <- <- <-.
  exists (w :: ws), (u :: url), rest. repeat split; try assumption;
    try discriminate; try lia.
  apply strip_prefix_inv in E1, E2. subst s s2 s1. rewrite A2. reflexivity.
Qed.

Lemma is_space_s : is_space "s"%char = false.
Proof. reflexivity. Qed.

Lemma match_img_of_shape (s ws url rest : text) :
  img_shape s ws url rest ->
  match_img s =
    Some (length img_open + length ws + length img_src,
          length img_open + length ws + length img_src + length url,
          length img_open + length ws + length img_src + length url + 1).
Proof.
  intros (-> & Hws & Fws & Hurl & Furl).
  rewrite match_img_direct_eq. unfold match_img_direct.
  rewrite strip_prefix_app.
  rewrite (@span_run is_space ws (img_src ++ url ++ dq :: rest) Fws)
    by reflexivity.
  destruct ws as [|w ws]; [congruence|].
  rewrite strip_prefix_app.
  rewrite (@span_run not_dq url (dq :: rest) Furl) by reflexivity.
  destruct url as [|u url]; [congruence|]. reflexivity.
Qed.

(** ** Slices *)

Lemma slice_to_nat (s : text) (n : nat) : slice_to s (Z.of_nat n) = firstn n s.
Proof.
  unfold slice_to, clamp_index.
  destruct (Z.ltb_spec (Z.of_nat n) 0); [lia|].
  destruct (Nat.le_gt_cases n (length s)).
  - f_equal. lia.
  - rewrite (firstn_all2 (n := n)) by lia.
    apply firstn_all2. lia.
Qed.

Lemma slice_from_nat (s : text) (n : nat) :
  slice_from s (Z.of_nat n) = skipn n s.
Proof.
  unfold slice_from, clamp_index.
  destruct (Z.ltb_spec (Z.of_nat n) 0); [lia|].
  destruct (Nat.le_gt_cases n (length s)).
  - f_equal. lia.
  - rewrite (skipn_all2 (n := n)) by lia.
    apply skipn_all2. lia.
Qed.

Lemma firstn_plus (s : text) (a b : nat) :
  firstn (a + b) s = firstn a s ++ firstn b (skipn a s).
Proof.
  revert s. induction a as [|a IH]; intros s; [reflexivity|].
  destruct s as [|c s]; simpl.
  - destruct b; reflexivity.
  - f_equal. apply IH.
Qed.

Lemma substring_length (s : text) (i j : nat) :
  j <= length s -> length (substring s i j) = j - i.
Proof.
  intros H. unfold substring. rewrite length_firstn, length_skipn. lia.
Qed.

Lemma substring_split (s : text) (i j k : nat) :
  i <= j -> j <= k ->
  substring s i k = substring s i j ++ substring s j k.
Proof.
  intros Hij Hjk. unfold substring.
  replace (k - i) with ((j - i) + (k - j)) by lia.
  rewrite firstn_plus. f_equal.
  rewrite skipn_skipn. do 2 f_equal. lia.
Qed.

Lemma substring_skipn (s : text) (p a b : nat) :
  substring (skipn p s) a b = substring s (p + a) (p + b).
Proof.
  unfold substring. rewrite skipn_skipn.
  replace (p + b - (p + a)) with (b - a) by lia.
  do 2 f_equal. lia.
Qed.

Lemma substring_to_end (s : text) (i k : nat) :
  length s <= k -> substring s i k = skipn i s.
Proof.
  intros H. unfold substring. apply firstn_all2. rewrite length_skipn. lia.
Qed.

Lemma substring_skipn_tail (s : text) (i j : nat) :
  i <= j -> skipn i s = substring s i j ++ skipn j s.
Proof.
  intros H. unfold substring.
  rewrite <- (firstn_skipn (j - i) (skipn i s)) at 1. f_equal.
  rewrite skipn_skipn. f_equal. lia.
Qed.

Lemma substring_one (s rest : text) (c : ascii) (p : nat) :
  skipn p s = c :: rest -> substring s p (S p) = [c].
Proof.
  intros H. unfold substring. rewrite H.
  replace (S p - p) with 1 by lia. reflexivity.
Qed.

Lemma skipn_S_tail (s rest : text) (c : ascii) (p : nat) :
  skipn p s = c :: rest -> skipn (S p) s = rest.
Proof.
  intros H. change (S p) with (1 + p). rewrite <- skipn_skipn, H. reflexivity.
Qed.

Lemma skipn_cons_length (s rest : text) (c : ascii) (p : nat) :
  skipn p s = c :: rest -> p < length s.
Proof.
  intros H. destruct (Nat.lt_ge_cases p (length s)) as [L|L]; [exact L|].
  rewrite skipn_all2 in H by exact L. discriminate.
Qed.

(** ** The loop of the Rewrite Engine *)

Lemma records_length (content : text) (av : list text) (i : nat)
    (ms : list img_match) :
  length (records content av i ms) = length ms.
Proof.
  revert i. induction ms as [|m ms IH]; intros i; simpl; [reflexivity|].
  f_equal. apply IH.
Qed.

Lemma group1_length (content : text) (m : img_match) :
  g1_end m <= length content ->
  length (group1 content m) = g1_end m - g1_start m.
Proof. apply substring_length. Qed.

(** The loop invariant: the working copy is the finished part [done]
    followed by the subject from [from] on, and [offset] is the difference
    of their positions. *)
Lemma replace_loop_weave (content : text) (av : list text)
    (ms : list img_match) :
  forall (i from : nat) (done : text) (offset : Z) (changes : list change),
    spans_ok content from ms ->
    offset = (Z.of_nat (length done) - Z.of_nat from)%Z ->
    replace_loop content av i ms (done ++ skipn from content) offset changes
    = (done ++ weave (gaps_from content from ms)
                 (map kept_url (records content av i ms)),
       changes ++ records content av i ms).
Proof.
  induction ms as [|m ms IH]; intros i from done offset changes Hok Hoff.
  - simpl. rewrite app_nil_r. reflexivity.
  - destruct Hok as (H1 & H2 & H3 & Hok).
    pose proof (group1_length content m H3) as Hlen.
    cbn [replace_loop records map gaps_from weave].
    unfold kept_url at 1. cbn [exists_ new_url old_url].
    destruct (in_list (image_name (i + 2)) av) eqn:Ein.
    + replace (Z.of_nat (g1_start m) + offset)%Z
        with (Z.of_nat (length done + (g1_start m - from))) by lia.
      replace (Z.of_nat (g1_end m) + offset)%Z
        with (Z.of_nat (length done + (g1_end m - from))) by lia.
      rewrite slice_to_nat, slice_from_nat.
      rewrite firstn_app_2.
      rewrite (skipn_app (length done + (g1_end m - from)) done).
      rewrite (skipn_all2 done) by lia.
      replace (length done + (g1_end m - from) - length done)
        with (g1_end m - from) by lia.
      rewrite skipn_skipn.
      replace (g1_end m - from + from) with (g1_end m) by lia.
      cbn [app].
      change (firstn (g1_start m - from) (skipn from content))
        with (substring content from (g1_start m)).
      rewrite <- !app_assoc.
      rewrite (app_assoc done), (app_assoc (done ++ _)).
      rewrite IH with (from := g1_end m); [|exact Hok|].
      * rewrite <- !app_assoc. reflexivity.
      * rewrite !length_app, substring_length by lia. lia.
    + rewrite (substring_skipn_tail content from (g1_start m)) by lia.
      rewrite (substring_skipn_tail content (g1_start m) (g1_end m)) by lia.
      change (substring content (g1_start m) (g1_end m))
        with (group1 content m).
      rewrite (app_assoc done), (app_assoc (done ++ _)).
      rewrite IH with (from := g1_end m); [|exact Hok|].
      * rewrite <- !app_assoc. reflexivity.
      * rewrite !length_app, substring_length, Hlen by lia. lia.
Qed.

(** ** The scan of the matches *)

Lemma match_img_bounds (s : text) (a b e : nat) :
  match_img s = Some (a, b, e) ->
  0 < a /\ a < b /\ e = b + 1 /\ e <= length s.
Proof.
  intros H. apply match_img_shape in H.
  destruct H as (ws & url & rest & (Hs & Hws & _ & Hurl & _) & Ha & Hb & He).
  assert (0 < length url) by (destruct url; [congruence | simpl; lia]).
  subst s. rewrite !length_app. cbn [length].
  change (length img_open) with 4 in *. change (length img_src) with 5 in *.
  lia.
Qed.

(** More fuel than the length of the subject changes nothing. *)
Lemma finditer_from_fuel (f1 : nat) :
  forall (f2 : nat) (rest : text) (pos : nat),
    length rest <= f1 -> length rest <= f2 ->
    finditer_from f1 rest pos = finditer_from f2 rest pos.
Proof.
  induction f1 as [|f1 IH]; intros f2 rest pos H1 H2.
  - destruct rest; [|simpl in H1; lia]. destruct f2; reflexivity.
  - destruct rest as [|c rest]; [destruct f2; reflexivity|].
    destruct f2 as [|f2]; [simpl in H2; lia|].
    simpl in H1, H2. cbn [finditer_from].
    destruct (match_img (c :: rest)) as [[[a b] e]|] eqn:E.
    + apply match_img_bounds in E. destruct E as (Ha & Hb & He & Hl).
      f_equal. apply IH; rewrite length_skipn; simpl length in *; lia.
    + apply IH; lia.
Qed.

Lemma spans_ok_finditer (content : text) (fuel : nat) :
  forall (from pos : nat),
    from <= pos ->
    spans_ok content from (finditer_from fuel (skipn pos content) pos).
Proof.
  induction fuel as [|fuel IH]; intros from pos Hfrom; [exact I|].
  cbn [finditer_from].
  destruct (skipn pos content) as [|c rest] eqn:Es; [exact I|].
  destruct (match_img (c :: rest)) as [[[a b] e]|] eqn:E.
  - apply match_img_bounds in E. destruct E as (Ha & Hb & He & Hl).
    assert (length (c :: rest) = length content - pos) as Hlen
      by (rewrite <- Es; apply length_skipn).
    cbn [spans_ok g1_start g1_end]. repeat split; try lia.
    rewrite <- Es, skipn_skipn, (Nat.add_comm e pos).
    apply IH. lia.
  - rewrite <- (skipn_S_tail content rest c pos Es). apply IH. lia.
Qed.

Lemma finditer_spans_ok (content : text) :
  spans_ok content 0 (finditer content).
Proof.
  unfold finditer.
  change content with (skipn 0 content) at 3.
  apply spans_ok_finditer. lia.
Qed.

(** The Rewrite Engine in the vocabulary of the specification. *)
Lemma replace_images_in_content_weave (content : text) (av : list text)
    (dry_run : bool) (folder_name : text) :
  replace_images_in_content content av dry_run folder_name
  = (weave (gaps content)
       (map kept_url (records content av 0 (finditer content))),
     records content av 0 (finditer content)).
Proof.
  unfold replace_images_in_content, gaps.
  pose proof (finditer_spans_ok content) as Hok.
  destruct (finditer content) as [|m ms] eqn:E; [reflexivity|].
  exact (replace_loop_weave content av (m :: ms) 0 0 [] 0%Z [] Hok eq_refl).
Qed.

Lemma finditer_from_starts (fuel : nat) :
  forall (rest : text) (pos : nat),
    Forall (fun m => pos <= m_start m) (finditer_from fuel rest pos).
Proof.
  induction fuel as [|fuel IH]; intros rest pos; [constructor|].
  cbn [finditer_from]. destruct rest as [|c rest]; [constructor|].
  destruct (match_img (c :: rest)) as [[[a b] e]|] eqn:E.
  - constructor; [simpl; lia|].
    eapply Forall_impl; [|apply IH]. simpl. intros m Hm. lia.
  - eapply Forall_impl; [|apply IH]. simpl. intros m Hm. lia.
Qed.

(** The matches come in the order of their positions and do not overlap. *)
Lemma finditer_from_ordered (fuel : nat) :
  forall (rest : text) (pos : nat),
    StronglySorted (fun m1 m2 => m_end m1 <= m_start m2)
      (finditer_from fuel rest pos).
Proof.
  induction fuel as [|fuel IH]; intros rest pos; [constructor|].
  cbn [finditer_from]. destruct rest as [|c rest]; [constructor|].
  destruct (match_img (c :: rest)) as [[[a b] e]|] eqn:E.
  - constructor; [apply IH|]. apply finditer_from_starts.
  - apply IH.
Qed.

Lemma records_nth (content : text) (av : list text) (ms : list img_match) :
  forall (i k : nat) (m : img_match),
    nth_error ms k = Some m ->
    nth_error (records content av i ms) k
    = Some {| index := i + k + 1; old_url := group1 content m;
              new_url := image_name (i + k + 2);
              exists_ := in_list (image_name (i + k + 2)) av |}.
Proof.
  induction ms as [|m0 ms IH]; intros i k m H.
  - destruct k; discriminate.
  - destruct k as [|k]; simpl in *.
    + injection H as ->. rewrite !Nat.add_0_r. reflexivity.
    + rewrite (IH (S i) k m H).
      replace (S i + k) with (i + S k) by lia. reflexivity.
Qed.

Lemma records_index (content : text) (av : list text) (ms : list img_match) :
  forall i : nat,
    map index (records content av i ms) = seq (i + 1) (length ms).
Proof.
  induction ms as [|m ms IH]; intros i; simpl; [reflexivity|].
  f_equal. rewrite IH. reflexivity.
Qed.

Lemma records_new_url (content : text) (av : list text)
    (ms : list img_match) :
  forall i : nat,
    map new_url (records content av i ms)
    = map (fun j => image_name (j + 2)) (seq i (length ms)).
Proof.
  induction ms as [|m ms IH]; intros i; simpl; [reflexivity|].
  f_equal. apply IH.
Qed.

(** ** C2 *)

(** C2, as stated, fails: in the example of the specification the record
    of scan position 0 has new URL [image-2.webp], not [image-1.webp]. *)
Lemma new_url_is_not_image_i_plus_1 :
  let changes :=
    snd (replace_images_in_content example_fragment [str "image-2.webp"]
           false []) in
  ~ (forall (i : nat) (c : change),
       nth_error changes i = Some c ->
       new_url c = str "image-" ++ str_of_nat (i + 1) ++ str ".webp").
Proof.
  intros changes H.
  specialize (H 0 {| index := 1; old_url := str "https://cdn.x/a.jpg";
                     new_url := str "image-2.webp"; exists_ := true |}
                eq_refl).
  discriminate H.
Qed.

(** C2, amended.  For any fragment with [k] matches the Rewrite Engine
    produces exactly [k] change records, with indices [1..k], the record of
    0-based scan position [i] having new URL [image-(i+2).webp]. *)
Theorem change_records_indexed_from_one (content : text) (av : list text)
    (dry_run : bool) (folder_name : text) :
  let changes :=
    snd (replace_images_in_content content av dry_run folder_name) in
  let k := length (finditer content) in
  length changes = k
  /\ map index changes = seq 1 k
  /\ map new_url changes
     = map (fun i => str "image-" ++ str_of_nat (i + 2) ++ str ".webp")
           (seq 0 k).
Proof.
  rewrite replace_images_in_content_weave. cbn [snd].
  split; [apply records_length|].
  split; [apply (records_index content av _ 0)|].
  apply (records_new_url content av _ 0).
Qed.

(** ** Gaps and URLs *)

Lemma gaps_from_length (content : text) (ms : list img_match) :
  forall from : nat, length (gaps_from content from ms) = S (length ms).
Proof.
  induction ms as [|m ms IH]; intros from; simpl; [reflexivity|].
  f_equal. apply IH.
Qed.

(** The subject is its gaps with the captured URLs between them. *)
Lemma weave_old_urls (content : text) (av : list text)
    (ms : list img_match) :
  forall (i from : nat),
    spans_ok content from ms ->
    weave (gaps_from content from ms)
      (map old_url (records content av i ms))
    = skipn from content.
Proof.
  induction ms as [|m ms IH]; intros i from Hok; [reflexivity|].
  destruct Hok as (H1 & H2 & H3 & Hok).
  cbn [records map gaps_from weave old_url].
  rewrite (IH (S i) (g1_end m) Hok).
  rewrite (substring_skipn_tail content from (g1_start m)) by lia.
  rewrite (substring_skipn_tail content (g1_start m) (g1_end m)) by lia.
  reflexivity.
Qed.

Lemma kept_url_all_present (changes : list change) :
  forallb exists_ changes = true ->
  map kept_url changes = map new_url changes.
Proof.
  induction changes as [|c cs IH]; intros H; [reflexivity|].
  simpl in H. apply andb_prop in H. destruct H as [Hc Hcs].
  simpl. unfold kept_url at 1. rewrite Hc, (IH Hcs). reflexivity.
Qed.

Lemma records_all_present (content : text) (av : list text)
    (ms : list img_match) :
  forall i : nat,
    (forall k, k < length ms -> in_list (image_name (i + k + 2)) av = true) ->
    forallb exists_ (records content av i ms) = true.
Proof.
  induction ms as [|m ms IH]; intros i H; [reflexivity|].
  cbn [records forallb exists_].
  rewrite <- (Nat.add_0_r i) at 1. rewrite (H 0) by (simpl; lia).
  apply IH. intros k Hk.
  replace (S i + k) with (i + S k) by lia. apply H. simpl. lia.
Qed.

Lemma weave_length_delta (changes : list change) :
  forall gs : list text,
    length gs = S (length changes) ->
    Z.of_nat (length (weave gs (map new_url changes)))
    = (Z.of_nat (length (weave gs (map old_url changes)))
       + length_delta changes)%Z.
Proof.
  unfold length_delta.
  induction changes as [|c cs IH]; intros gs H.
  - destruct gs as [|g [|g' gs]]; try discriminate. simpl. lia.
  - destruct gs as [|g gs]; [discriminate|]. simpl in H.
    injection H as H. specialize (IH gs H).
    cbn [map weave fold_right]. rewrite !length_app. lia.
Qed.

(** ** C3 *)

(** C3, as stated, fails: with every expected file in the inventory, a
    fragment whose URL is already [image-2.webp] comes out with that
    original URL still in it. *)
Lemma output_contains_original_url :
  let available := [str "image-2.webp"] in
  let result :=
    replace_images_in_content local_fragment available false [] in
  (forall i, i < length (finditer local_fragment) ->
             in_list (image_name (i + 2)) available = true)
  /\ ~ (forall c, In c (snd result) ->
                  contains (fst result) (old_url c) = false).
Proof.
  split.
  - intros i Hi. change (length (finditer local_fragment)) with 1 in Hi.
    destruct i as [|i]; [reflexivity | lia].
  - intros H.
    specialize (H {| index := 1; old_url := str "image-2.webp";
                     new_url := str "image-2.webp"; exists_ := true |}
                  (or_introl eq_refl)).
    discriminate H.
Qed.

(** C3, amended.  For every fragment in which, for every 0-based
    occurrence position [i], the name [image-(i+2).webp] is in the
    inventory, every captured URL span is replaced by its expected file
    name: input and output are the same gaps, with the captured URLs
    between them in the input and the expected file names in the output;
    and the length of the output is the length of the input plus the sum
    over the occurrences of (length of new URL - length of old URL). *)
Theorem all_present_all_replaced (content : text) (av : list text)
    (dry_run : bool) (folder_name : text)
    (Hall : forall i, i < length (finditer content) ->
                      in_list (image_name (i + 2)) av = true) :
  let result := replace_images_in_content content av dry_run folder_name in
  let changes := snd result in
  length (gaps content) = S (length changes)
  /\ content = weave (gaps content) (map old_url changes)
  /\ fst result = weave (gaps content) (map new_url changes)
  /\ (forall (i : nat) (c : change),
        nth_error changes i = Some c ->
        exists_ c = true
        /\ new_url c = str "image-" ++ str_of_nat (i + 2) ++ str ".webp")
  /\ Z.of_nat (length (fst result))
     = (Z.of_nat (length content) + length_delta changes)%Z.
Proof.
  rewrite replace_images_in_content_weave. cbn [fst snd].
  pose proof (finditer_spans_ok content) as Hok.
  assert (forallb exists_ (records content av 0 (finditer content)) = true)
    as Hpres by (apply records_all_present; exact Hall).
  assert (length (gaps content)
          = S (length (records content av 0 (finditer content)))) as Hlen
    by (unfold gaps; rewrite gaps_from_length, records_length; reflexivity).
  assert (weave (gaps content)
            (map old_url (records content av 0 (finditer content)))
          = content) as Hold
    by (unfold gaps; apply (weave_old_urls content av _ 0 0 Hok)).
  rewrite (kept_url_all_present _ Hpres).
  split; [exact Hlen|]. split; [symmetry; exact Hold|].
  split; [reflexivity|]. split.
  - intros i c Hc.
    destruct (nth_error (finditer content) i) as [m|] eqn:Em.
    + rewrite (records_nth content av _ 0 i m Em) in Hc.
      injection Hc as <-. cbn [exists_ new_url Nat.add].
      split; [|reflexivity]. apply Hall.
      apply nth_error_Some. congruence.
    + apply nth_error_None in Em.
      assert (i < length (records content av 0 (finditer content)))
        by (apply nth_error_Some; congruence).
      rewrite records_length in *. lia.
  - rewrite (weave_length_delta _ _ Hlen), Hold. reflexivity.
Qed.

(** The amended C3 at the example of the specification with both files. *)
Lemma all_present_all_replaced_witness :
  let available := [str "image-2.webp"; str "image-3.webp"] in
  let result :=
    replace_images_in_content example_fragment available false [] in
  (forall i, i < length (finditer example_fragment) ->
             in_list (image_name (i + 2)) available = true)
  /\ Z.of_nat (length (fst result))
     = (Z.of_nat (length example_fragment) + length_delta (snd result))%Z.
Proof.
  assert (forall i, i < length (finditer example_fragment) ->
            in_list (image_name (i + 2))
              [str "image-2.webp"; str "image-3.webp"] = true) as H.
  { intros i Hi. change (length (finditer example_fragment)) with 2 in Hi.
    destruct i as [|[|i]]; [reflexivity | reflexivity | lia]. }
  split; [exact H|].
  apply (all_present_all_replaced example_fragment _ false [] H).
Defined.

(** ** The rewriting on the text alone *)

Lemma rewrite_from_fuel (av : list text) (f1 : nat) :
  forall (f2 : nat) (rest : text) (i : nat),
    length rest <= f1 -> length rest <= f2 ->
    rewrite_from av f1 rest i = rewrite_from av f2 rest i.
Proof.
  induction f1 as [|f1 IH]; intros f2 rest i H1 H2.
  - destruct rest; [|simpl in H1; lia]. destruct f2; reflexivity.
  - destruct rest as [|c rest]; [destruct f2; reflexivity|].
    destruct f2 as [|f2]; [simpl in H2; lia|].
    simpl in H1, H2. cbn [rewrite_from].
    destruct (match_img (c :: rest)) as [[[a b] e]|] eqn:E.
    + apply match_img_bounds in E. destruct E as (Ha & Hb & He & Hl).
      do 3 f_equal.
      apply IH; rewrite length_skipn; simpl length in *; lia.
    + f_equal. apply IH; lia.
Qed.

(** The output of the loop, read off the matches and their spans, is the
    text-only rewriting of the subject. *)
Lemma weave_rewrite_from (content : text) (av : list text) (fuel : nat) :
  forall (i from pos : nat),
    from <= pos ->
    let ms := finditer_from fuel (skipn pos content) pos in
    weave (gaps_from content from ms)
      (map kept_url (records content av i ms))
    = substring content from pos
      ++ rewrite_from av fuel (skipn pos content) i.
Proof.
  induction fuel as [|fuel IH]; intros i from pos Hfrom; cbn zeta.
  - simpl. apply substring_skipn_tail. exact Hfrom.
  - cbn [finditer_from rewrite_from].
    destruct (skipn pos content) as [|c rest] eqn:Es.
    + simpl. rewrite (substring_skipn_tail content from pos Hfrom), Es.
      reflexivity.
    + destruct (match_img (c :: rest)) as [[[a b] e]|] eqn:E.
      * apply match_img_bounds in E. destruct E as (Ha & Hb & He & Hl).
        cbn [records map gaps_from weave g1_start g1_end].
        unfold kept_url at 1. cbn [exists_ new_url old_url].
        unfold group1. cbn [g1_start g1_end].
        rewrite <- Es, skipn_skipn, (Nat.add_comm e pos).
        specialize (IH (S i) (pos + b) (pos + e)). cbn zeta in IH.
        rewrite IH by lia.
        rewrite (substring_split content from pos (pos + a)) by lia.
        rewrite (substring_skipn content pos a b).
        rewrite (substring_skipn content pos b e).
        assert (firstn a (skipn pos content)
                = substring content pos (pos + a)) as ->
          by (unfold substring; f_equal; lia).
        rewrite <- !app_assoc. reflexivity.
      * pose proof (skipn_S_tail content rest c pos Es) as Et.
        specialize (IH i from (S pos)). cbn zeta in IH.
        rewrite Et in IH. rewrite IH by lia.
        rewrite (substring_split content from pos (S pos)) by lia.
        rewrite (substring_one content rest c pos Es).
        rewrite <- app_assoc. reflexivity.
Qed.

Lemma replace_images_in_content_rewrite (content : text) (av : list text)
    (dry_run : bool) (folder_name : text) :
  fst (replace_images_in_content content av dry_run folder_name)
  = rewrite_text av content 0.
Proof.
  rewrite replace_images_in_content_weave. cbn [fst].
  exact (weave_rewrite_from content av (length content) 0 0 0 (le_n 0)).
Qed.

Lemma rewrite_text_none (av : list text) (c : ascii) (r : text) (i : nat) :
  match_img (c :: r) = None ->
  rewrite_text av (c :: r) i = c :: rewrite_text av r i.
Proof.
  intros H. unfold rewrite_text. cbn [length rewrite_from].
  rewrite H. reflexivity.
Qed.

Lemma rewrite_from_some (av : list text) (fuel : nat) (s : text)
    (i a b e : nat) :
  match_img s = Some (a, b, e) ->
  rewrite_from av (S fuel) s i
  = firstn a s
    ++ (if in_list (image_name (i + 2)) av
        then image_name (i + 2) else substring s a b)
    ++ substring s b e
    ++ rewrite_from av fuel (skipn e s) (S i).
Proof.
  intros H. destruct s as [|c s]; [discriminate|].
  cbn [rewrite_from]. rewrite H. reflexivity.
Qed.

Lemma rewrite_text_shape (av : list text) (s ws url rest : text) (i : nat) :
  img_shape s ws url rest ->
  rewrite_text av s i
  = img_open ++ ws ++ img_src
    ++ (if in_list (image_name (i + 2)) av then image_name (i + 2) else url)
    ++ dq :: rewrite_text av rest (S i).
Proof.
  intros Hshape. pose proof (match_img_of_shape s ws url rest Hshape) as Hm.
  destruct Hshape as (Hs & Hws & Fws & Hurl & Furl).
  set (p := img_open ++ ws ++ img_src) in *.
  assert (length img_open + length ws + length img_src = length p) as Hp
    by (unfold p; rewrite !length_app; lia).
  rewrite Hp in Hm.
  assert (s = p ++ url ++ dq :: rest) as Hs'
    by (rewrite Hs; unfold p; rewrite <- !app_assoc; reflexivity).
  assert (length s = S (length p + length url + length rest)) as Hlen
    by (rewrite Hs', !length_app; simpl; lia).
  unfold rewrite_text. rewrite Hlen.
  rewrite (rewrite_from_some av _ s i _ _ _ Hm).
  assert (firstn (length p) s = p) as ->
    by (rewrite Hs'; apply firstn_app_length).
  assert (substring s (length p) (length p + length url) = url) as ->.
  { unfold substring. rewrite Hs', skipn_app_length.
    replace (length p + length url - length p) with (length url) by lia.
    apply firstn_app_length. }
  assert (skipn (length p + length url) s = dq :: rest) as Hsk.
  { rewrite Nat.add_comm, <- skipn_skipn, Hs', skipn_app_length.
    apply skipn_app_length. }
  assert (substring s (length p + length url) (length p + length url + 1)
          = [dq]) as ->.
  { unfold substring. rewrite Hsk.
    replace (length p + length url + 1 - (length p + length url))
      with 1 by lia. reflexivity. }
  assert (skipn (length p + length url + 1) s = rest) as ->.
  { replace (length p + length url + 1)
      with (1 + (length p + length url)) by lia.
    rewrite <- skipn_skipn, Hsk. reflexivity. }
  rewrite (rewrite_from_fuel av _ (length rest) rest (S i)) by lia.
  unfold p. rewrite <- !app_assoc. reflexivity.
Qed.

(** ** Expected file names *)

Lemma string_of_uint_no_dq (d : Decimal.uint) :
  Forall (fun c => not_dq c = true)
    (str (DecimalString.NilEmpty.string_of_uint d)).
Proof.
  induction d; simpl; constructor; (reflexivity || assumption).
Qed.

Lemma image_name_no_dq (n : nat) :
  Forall (fun c => not_dq c = true) (image_name n).
Proof.
  unfold image_name, str_of_nat.
  apply Forall_app. split; [repeat constructor|].
  apply Forall_app. split; [apply string_of_uint_no_dq | repeat constructor].
Qed.

Lemma image_name_not_nil (n : nat) : image_name n <> [].
Proof. discriminate. Qed.

(** ** A scan of the output finds the matches of the input *)

Lemma app_split_notin (x : ascii) (P : text) :
  forall (G Y Z : text),
    G ++ x :: Y = P ++ Z -> ~ In x P -> exists G', G = P ++ G'.
Proof.
  induction P as [|p P IH]; intros G Y Z H Hn.
  - exists G. reflexivity.
  - destruct G as [|g G]; simpl in H.
    + injection H as -> _. exfalso. apply Hn. left. reflexivity.
    + injection H as -> H.
      destruct (IH G Y Z H) as [G' ->].
      * intros Hin. apply Hn. right. exact Hin.
      * exists G'. reflexivity.
Qed.

Lemma is_space_not_lt (ws : text) :
  Forall (fun c => is_space c = true) ws -> ~ In lt_char ws.
Proof.
  intros F Hin. rewrite Forall_forall in F. specialize (F _ Hin).
  discriminate F.
Qed.

Lemma span_not_dq_found (T : text) :
  In dq T ->
  exists u r, T = u ++ dq :: r /\ Forall (fun c => not_dq c = true) u.
Proof.
  intros Hin. exists (fst (span not_dq T)).
  pose proof (span_app not_dq T) as Happ.
  pose proof (span_all not_dq T) as Hall.
  pose proof (span_stops not_dq T) as Hstop.
  destruct (snd (span not_dq T)) as [|q r] eqn:E.
  - exfalso. rewrite app_nil_r in Happ. rewrite Happ in Hin.
    rewrite Forall_forall in Hall. specialize (Hall _ Hin). discriminate.
  - simpl in Hstop. apply not_dq_false in Hstop. subst q.
    exists r. split; assumption.
Qed.

Lemma cons_eq_inv (x y : ascii) (l l' : text) :
  x :: l = y :: l' -> x = y /\ l = l'.
Proof. intros H. injection H as -> ->. split; reflexivity. Qed.

(** A failed attempt in front of a later match fails whatever that match
    captures: the attempt reads the subject up to the [<] of the match at
    most, or it would have found a URL and its closing quote. *)
Lemma match_img_gap (c : ascii) (G X Y : text) :
  In dq X ->
  match_img (c :: G ++ lt_char :: Y) <> None ->
  match_img (c :: G ++ lt_char :: X) <> None.
Proof.
  intros HX HY.
  destruct (match_img (c :: G ++ lt_char :: Y)) as [[[a b] e]|] eqn:E;
    [clear HY | congruence].
  apply match_img_shape in E.
  destruct E as (ws & url & rest & (Hs & Hws & Fws & Hurl & Furl) & _).
  set (P := str "img" ++ ws ++ img_src).
  assert (img_open ++ ws ++ img_src ++ url ++ dq :: rest
          = lt_char :: P ++ url ++ dq :: rest) as HP
    by (unfold P; rewrite <- !app_assoc; reflexivity).
  rewrite HP in Hs. apply cons_eq_inv in Hs. destruct Hs as [-> Hs].
  assert (~ In lt_char P) as HnP.
  { unfold P. intros Hin. apply in_app_or in Hin. destruct Hin as [Hin|Hin].
    - simpl in Hin. intuition discriminate.
    - apply in_app_or in Hin. destruct Hin as [Hin|Hin].
      + exact (is_space_not_lt ws Fws Hin).
      + simpl in Hin. intuition discriminate. }
  destruct (app_split_notin lt_char P G Y _ Hs HnP) as [G' ->].
  rewrite <- app_assoc in Hs. apply app_inv_head in Hs.
  assert (In dq (G' ++ lt_char :: X)) as Hin
    by (apply in_or_app; right; right; exact HX).
  destruct (span_not_dq_found _ Hin) as (u & r & Hu & Fu).
  assert (u <> []) as Hne.
  { intros ->. simpl in Hu. destruct G' as [|g G'].
    - discriminate Hu.
    - injection Hu as -> _. destruct url as [|q url]; [congruence|].
      injection Hs as <- _. inversion Furl. discriminate. }
  rewrite (match_img_of_shape (lt_char :: (P ++ G') ++ lt_char :: X) ws u r).
  - discriminate.
  - split; [|repeat split; assumption].
    rewrite <- app_assoc, Hu. unfold P. rewrite <- !app_assoc. reflexivity.
Qed.

Lemma rewrite_text_nil (av : list text) (i : nat) : rewrite_text av [] i = [].
Proof. reflexivity. Qed.

(** Up to its first match the rewriting copies the subject; the match
    starts with [<] and holds a quote, before and after. *)
Lemma rewrite_text_first (av : list text) (r : text) :
  forall i : nat,
    rewrite_text av r i = r
    \/ exists G X Y,
         r = G ++ lt_char :: X /\ In dq X
         /\ rewrite_text av r i = G ++ lt_char :: Y.
Proof.
  induction r as [|c r IH]; intros i; [left; reflexivity|].
  destruct (match_img (c :: r)) as [[[a b] e]|] eqn:E.
  - right. apply match_img_shape in E.
    destruct E as (ws & url & rest & Hshape & _).
    rewrite (rewrite_text_shape av _ ws url rest i Hshape).
    destruct Hshape as (-> & _).
    exists [], (str "img" ++ ws ++ img_src ++ url ++ dq :: rest).
    eexists. split; [reflexivity|]. split; [|reflexivity].
    apply in_or_app. right. apply in_or_app. right.
    apply in_or_app. left. unfold img_src. apply in_or_app. right.
    left. reflexivity.
  - rewrite (rewrite_text_none av c r i E).
    destruct (IH i) as [-> | (G & X & Y & -> & HX & ->)];
      [left; reflexivity|].
    right. exists (c :: G), X, Y. repeat split. exact HX.
Qed.

Lemma rewrite_text_idem (av : list text) (n : nat) :
  forall (s : text) (i : nat),
    length s <= n ->
    rewrite_text av (rewrite_text av s i) i = rewrite_text av s i.
Proof.
  induction n as [|n IH]; intros s i Hn.
  - destruct s; [reflexivity | simpl in Hn; lia].
  - destruct s as [|c r]; [reflexivity|]. simpl in Hn.
    destruct (match_img (c :: r)) as [[[a b] e]|] eqn:E.
    + apply match_img_shape in E.
      destruct E as (ws & url & rest & Hshape & _).
      rewrite (rewrite_text_shape av _ ws url rest i Hshape).
      destruct Hshape as (Hs & Hws & Fws & Hurl & Furl).
      assert (length rest <= n) as Hrest.
      { assert (length (c :: r) = length
                  (img_open ++ ws ++ img_src ++ url ++ dq :: rest)) as Hl
          by (rewrite Hs; reflexivity).
        rewrite !length_app in Hl. simpl in Hl. lia. }
      assert (forall url',
                url' <> [] -> Forall (fun c => not_dq c = true) url' ->
                in_list (image_name (i + 2)) av = true
                \/ (in_list (image_name (i + 2)) av = false /\ url' = url) ->
                (if in_list (image_name (i + 2)) av
                 then image_name (i + 2) else url) = url' ->
                rewrite_text av
                  (img_open ++ ws ++ img_src ++ url'
                   ++ dq :: rewrite_text av rest (S i)) i
                = img_open ++ ws ++ img_src ++ url'
                  ++ dq :: rewrite_text av rest (S i)) as Hstep.
      { intros url' Hne Hnq Hcase Hu.
        rewrite (rewrite_text_shape av _ ws url' (rewrite_text av rest (S i))
                   i).
        - rewrite (IH rest (S i) Hrest).
          destruct Hcase as [Hin | [Hin ->]]; rewrite Hin in *;
            [rewrite Hu|]; reflexivity.
        - split; [reflexivity|]. repeat split; assumption. }
      destruct (in_list (image_name (i + 2)) av) eqn:Ein.
      * apply Hstep; [apply image_name_not_nil | apply image_name_no_dq
                     | left; reflexivity | reflexivity].
      * apply Hstep; [assumption | assumption
                     | right; split; reflexivity | reflexivity].
    + rewrite (rewrite_text_none av c r i E).
      assert (match_img (c :: rewrite_text av r i) = None) as E'.
      { destruct (rewrite_text_first av r i)
          as [-> | (G & X & Y & -> & HX & ->)]; [exact E|].
        destruct (match_img (c :: G ++ lt_char :: Y)) eqn:EY;
          [|reflexivity].
        exfalso. apply (match_img_gap c G X Y HX); [congruence | exact E]. }
      rewrite (rewrite_text_none av c _ i E').
      f_equal. apply IH. lia.
Qed.

(** ** C6 *)

Lemma kept_url_unchanged (content : text) (av : list text)
    (ms : list img_match) :
  forall i : nat,
    (forall k m, nth_error ms k = Some m ->
                 in_list (image_name (i + k + 2)) av = true ->
                 group1 content m = image_name (i + k + 2)) ->
    map kept_url (records content av i ms)
    = map old_url (records content av i ms).
Proof.
  induction ms as [|m ms IH]; intros i H; [reflexivity|].
  cbn [records map]. f_equal.
  - unfold kept_url. cbn [exists_ new_url old_url].
    destruct (in_list (image_name (i + 2)) av) eqn:E; [|reflexivity].
    symmetry. specialize (H 0 m eq_refl).
    rewrite Nat.add_0_r in H. exact (H E).
  - apply IH. intros k m' Hk.
    replace (S i + k) with (i + S k) by lia. exact (H (S k) m' Hk).
Qed.

(** C6.  For every fragment [c] and inventory [v], the Rewrite Engine
    applied to its own output fragment with the same inventory returns that
    fragment unchanged.  In particular a URL that already equals its
    expected file name gets no special treatment: its record is that of any
    other URL, and when every occurrence whose expected file is in the
    inventory already carries that name, the output is the input. *)
Theorem rewrite_engine_idempotent (content : text) (av : list text)
    (dry_run dry_run' : bool) (folder_name folder_name' : text) :
  let f := fun c d n => replace_images_in_content c av d n in
  fst (f (fst (f content dry_run folder_name)) dry_run' folder_name')
  = fst (f content dry_run folder_name)
  /\ ((forall i m, nth_error (finditer content) i = Some m ->
                   in_list (image_name (i + 2)) av = true ->
                   group1 content m = image_name (i + 2)) ->
      fst (f content dry_run folder_name) = content).
Proof.
  cbn zeta. split.
  - rewrite !replace_images_in_content_rewrite.
    apply (rewrite_text_idem av (length content)). lia.
  - intros H. rewrite replace_images_in_content_weave. cbn [fst].
    rewrite (kept_url_unchanged content av (finditer content) 0 H).
    apply (weave_old_urls content av _ 0 0 (finditer_spans_ok content)).
Qed.

(** ** The content pattern *)

Lemma match_close_closes (s : text) (e : nat) :
  match_close s = Some e -> closes s /\ e <= length s.
Proof.
  unfold match_close. intros H.
  destruct (strip_prefix div_close s) as [s1|] eqn:E1; [|discriminate].
  pose proof (span_app is_space s1) as A1.
  pose proof (span_all is_space s1) as F1.
  destruct (span is_space s1) as [ws s2]. simpl in A1, F1.
  destruct (strip_prefix body_close s2) as [s3|] eqn:E2; [|discriminate].
  injection H as <-.
  apply strip_prefix_inv in E1, E2. subst s s2 s1.
  split.
  - exists ws, s3. split; [reflexivity | exact F1].
  - rewrite !length_app. change (length div_close) with 6.
    change (length body_close) with 7. lia.
Qed.

Lemma closes_match_close (s : text) : closes s -> match_close s <> None.
Proof.
  intros (ws & rest & -> & F). unfold match_close.
  rewrite strip_prefix_app.
  rewrite (span_run is_space ws (body_close ++ rest) F) by reflexivity.
  rewrite strip_prefix_app. discriminate.
Qed.

Lemma lazy_until_close_some (s : text) :
  forall (j0 j e : nat),
    lazy_until_close s j0 = Some (j, e) ->
    exists mid tail,
      s = mid ++ tail /\ j = j0 + length mid /\ closes tail
      /\ (forall mid' tail',
            s = mid' ++ tail' -> closes tail' -> length mid <= length mid').
Proof.
  induction s as [|c s IH]; intros j0 j e H; cbn [lazy_until_close] in H.
  - destruct (match_close []) as [e'|] eqn:E; [|discriminate].
    injection H as <- <-. apply match_close_closes in E.
    exists [], []. repeat split; try tauto; simpl; lia.
  - destruct (match_close (c :: s)) as [e'|] eqn:E.
    + injection H as <- <-. apply match_close_closes in E.
      exists [], (c :: s). repeat split; try tauto; simpl; lia.
    + destruct (IH (S j0) j e H) as (mid & tail & -> & -> & Hc & Hmin).
      exists (c :: mid), tail. repeat split; try assumption; simpl; try lia.
      intros mid' tail' Heq Hc'. destruct mid' as [|c' mid'].
      * simpl in Heq. subst tail'. apply closes_match_close in Hc'.
        congruence.
      * simpl in Heq. injection Heq as _ Heq. simpl.
        specialize (Hmin mid' tail' Heq Hc'). lia.
Qed.

Lemma lazy_until_close_none (s : text) :
  forall (j0 : nat),
    lazy_until_close s j0 = None ->
    forall mid tail, s = mid ++ tail -> ~ closes tail.
Proof.
  induction s as [|c s IH]; intros j0 H mid tail Heq Hc;
    cbn [lazy_until_close] in H.
  - destruct mid; [|discriminate]. simpl in Heq. subst tail.
    apply closes_match_close in Hc. destruct (match_close []); congruence.
  - destruct (match_close (c :: s)) as [e'|] eqn:E; [discriminate|].
    destruct mid as [|c' mid].
    + simpl in Heq. subst tail. apply closes_match_close in Hc. congruence.
    + simpl in Heq. injection Heq as _ Heq. exact (IH (S j0) H mid tail Heq Hc).
Qed.

Lemma match_content_some (s : text) (a b e : nat) :
  match_content s = Some (a, b, e) ->
  exists mid tail,
    s = content_open ++ mid ++ tail
    /\ a = length content_open /\ b = a + length mid /\ closes tail
    /\ (forall mid' tail',
          s = content_open ++ mid' ++ tail' -> closes tail' ->
          length mid <= length mid').
Proof.
  rewrite match_content_direct_eq. unfold match_content_direct. intros H.
  destruct (strip_prefix content_open s) as [s1|] eqn:E1; [|discriminate].
  destruct (lazy_until_close s1 0) as [[j e']|] eqn:E2; [|discriminate].
  injection H as <- <- <-.
  apply strip_prefix_inv in E1. subst s.
  destruct (lazy_until_close_some s1 0 j e' E2)
    as (mid & tail & -> & -> & Hc & Hmin).
  exists mid, tail. repeat split; try assumption.
  intros mid' tail' Heq Hc'. apply app_inv_head in Heq.
  exact (Hmin mid' tail' Heq Hc').
Qed.

Lemma match_content_none (s : text) :
  match_content s = None ->
  forall mid tail, s = content_open ++ mid ++ tail -> ~ closes tail.
Proof.
  rewrite match_content_direct_eq. unfold match_content_direct.
  intros H mid tail -> Hc.
  rewrite strip_prefix_app in H.
  destruct (lazy_until_close (mid ++ tail) 0) as [[j e']|] eqn:E2;
    [discriminate|].
  exact (lazy_until_close_none _ 0 E2 mid tail eq_refl Hc).
Qed.

Lemma search_content_some (s : text) :
  forall (pos start end_ : nat),
    search_content s pos = Some (start, end_) ->
    exists pre mid tail,
      s = pre ++ content_open ++ mid ++ tail
      /\ start = pos + length pre + length content_open
      /\ end_ = start + length mid /\ closes tail
      /\ (forall pre' mid' tail',
            s = pre' ++ content_open ++ mid' ++ tail' -> closes tail' ->
            length pre <= length pre'
            /\ (length pre' = length pre -> length mid <= length mid')).
Proof.
  assert (forall s' a b e pos start end_,
            match_content s' = Some (a, b, e) ->
            Some (pos + a, pos + b) = Some (start, end_) ->
            exists pre mid tail,
              s' = pre ++ content_open ++ mid ++ tail
              /\ start = pos + length pre + length content_open
              /\ end_ = start + length mid /\ closes tail
              /\ (forall pre' mid' tail',
                    s' = pre' ++ content_open ++ mid' ++ tail' ->
                    closes tail' ->
                    length pre <= length pre'
                    /\ (length pre' = length pre ->
                        length mid <= length mid'))) as Hhead.
  { intros s' a b e pos start end_ E H. injection H as <- <-.
    destruct (match_content_some s' a b e E)
      as (mid & tail & Hs & -> & -> & Hc & Hmin).
    exists [], mid, tail. simpl. repeat split; try assumption; try lia.
    intros Hl. destruct pre'; [|discriminate]. exact (Hmin mid' tail' H H0). }
  induction s as [|c s IH]; intros pos start end_ H;
    cbn [search_content] in H.
  - destruct (match_content []) as [[[a b] e]|] eqn:E; [|discriminate].
    exact (Hhead [] a b e pos start end_ E H).
  - destruct (match_content (c :: s)) as [[[a b] e]|] eqn:E.
    + exact (Hhead (c :: s) a b e pos start end_ E H).
    + destruct (IH (S pos) start end_ H)
        as (pre & mid & tail & -> & -> & -> & Hc & Hmin).
      exists (c :: pre), mid, tail. simpl.
      repeat split; try assumption; try lia.
      * destruct pre' as [|c' pre'].
        -- exfalso. exact (match_content_none _ E mid' tail' H0 H1).
        -- simpl in H0. injection H0 as _ H0.
           destruct (Hmin pre' mid' tail' H0 H1). simpl. lia.
      * intros Hl. destruct pre' as [|c' pre']; [discriminate|].
        simpl in H0. injection H0 as _ H0. simpl in Hl.
        destruct (Hmin pre' mid' tail' H0 H1) as [_ Hm]. apply Hm. lia.
Qed.

Lemma search_content_none (s : text) :
  forall (pos : nat),
    search_content s pos = None ->
    forall pre mid tail,
      s = pre ++ content_open ++ mid ++ tail -> ~ closes tail.
Proof.
  induction s as [|c s IH]; intros pos H pre mid tail Heq Hc;
    cbn [search_content] in H.
  - destruct pre; [|discriminate].
    destruct (match_content []) as [[[a b] e]|] eqn:E; [discriminate|].
    exact (match_content_none _ E mid tail Heq Hc).
  - destruct (match_content (c :: s)) as [[[a b] e]|] eqn:E; [discriminate|].
    destruct pre as [|c' pre].
    + exact (match_content_none _ E mid tail Heq Hc).
    + simpl in Heq. injection Heq as _ Heq.
      exact (IH (S pos) H pre mid tail Heq Hc).
Qed.

Lemma content_occurrence_none (html : text) :
  search_content html 0 = None ->
  forall p mid, ~ content_occurrence html p mid.
Proof.
  intros H p mid (pre & tail & Heq & _ & Hc).
  exact (search_content_none html 0 H pre mid tail Heq Hc).
Qed.

Lemma extract_content_section_found (html : text) (start end_ : Z)
    (t : text) :
  extract_content_section html = (start, end_, t) ->
  start <> (-1)%Z ->
  exists p,
    content_occurrence html p t
    /\ start = Z.of_nat (p + length content_open)
    /\ end_ = (start + Z.of_nat (length t))%Z
    /\ t = substring html (Z.to_nat start) (Z.to_nat end_)
    /\ p + length content_open + length t <= length html
    /\ (forall p' mid',
          content_occurrence html p' mid' ->
          p <= p' /\ (p' = p -> length t <= length mid')).
Proof.
  unfold extract_content_section. intros H Hs.
  destruct (search_content html 0) as [[s e]|] eqn:E;
    [|injection H as <- _ _; congruence].
  injection H as <- <- <-.
  destruct (search_content_some html 0 s e E)
    as (pre & mid & tail & Hh & -> & -> & Hc & Hmin).
  assert (substring html (length pre + length content_open)
            (length pre + length content_open + length mid) = mid) as Hsub.
  { unfold substring. rewrite Hh at 1.
    rewrite (app_assoc pre content_open), <- length_app, skipn_app_length.
    replace (length (pre ++ content_open) + length mid
             - length (pre ++ content_open)) with (length mid) by lia.
    apply firstn_app_length. }
  cbn [Nat.add]. rewrite Hsub.
  exists (length pre). split; [exists pre, tail; tauto|].
  split; [reflexivity|]. split; [lia|]. split.
  - rewrite !Nat2Z.id. symmetry. exact Hsub.
  - split.
    + rewrite Hh. rewrite !length_app. lia.
    + intros p' mid' (pre' & tail' & Heq & <- & Hc').
      exact (Hmin pre' mid' tail' Heq Hc').
Qed.

Lemma extract_content_section_not_found (html : text) :
  fst (fst (extract_content_section html)) = (-1)%Z <->
  search_content html 0 = None.
Proof.
  unfold extract_content_section.
  destruct (search_content html 0) as [[s e]|]; simpl; split;
    intros H; try reflexivity; try discriminate. lia.
Qed.

(** ** The file system *)

Lemma write_entry_found (name : text) (k : node -> res node)
    (create : option node) (d d' : node) (entries : list (text * node)) :
  lookup_entry name entries = Some d ->
  k d = Ok d' ->
  exists entries',
    write_entry name k create entries = Ok entries'
    /\ lookup_entry name entries' = Some d'.
Proof.
  intros Hl Hk. induction entries as [|[n x] entries IH];
    [discriminate|].
  cbn [lookup_entry write_entry] in *.
  destruct (text_eqb name n) eqn:E.
  - injection Hl as ->. rewrite Hk. cbn [bind].
    eexists. split; [reflexivity|]. cbn [lookup_entry]. rewrite E.
    reflexivity.
  - destruct (IH Hl) as (entries' & -> & Hl'). cbn [bind].
    eexists. split; [reflexivity|]. cbn [lookup_entry]. rewrite E.
    exact Hl'.
Qed.

(** A read returns the stored characters with the line endings
    translated. *)
Lemma read_file_stored (fs : node) (p : path) (html : text) :
  read_file fs p = Ok html <->
  exists raw, stored fs p = Some raw /\ html = universal_newlines raw.
Proof.
  unfold read_file, stored.
  destruct (lookup_path p fs) as [[c|es|]|]; split;
    try discriminate; try (intros (raw & Hr & _); discriminate Hr).
  - intros H. injection H as <-. exists c. split; reflexivity.
  - intros (raw & Hr & ->). injection Hr as ->. reflexivity.
Qed.

(** Writing a file that could be read succeeds, and the file then holds
    what was written. *)
Lemma write_file_after_read (p : path) (new : text) :
  forall (fs : node) (old : text),
    read_file fs p = Ok old ->
    exists fs', write_file p new fs = Ok fs' /\ stored fs' p = Some new.
Proof.
  unfold read_file, stored.
  induction p as [|c p IH]; intros fs old H.
  - simpl in H. destruct fs; try discriminate.
    exists (File new). split; reflexivity.
  - cbn [lookup_path] in H. destruct fs as [|entries|]; try discriminate.
    destruct (lookup_entry c entries) as [d|] eqn:El; [|discriminate].
    destruct (IH d old H) as (d' & Hw & Hr).
    destruct (write_entry_found c (write_file p new)
                (match p with [] => Some (File new) | _ :: _ => None end)
                d d' entries El Hw) as (entries' & Hwe & Hle).
    exists (Dir entries'). cbn [write_file]. rewrite Hwe. cbn [bind].
    split; [reflexivity|]. cbn [lookup_path]. rewrite Hle. exact Hr.
Qed.

(** ** The Article Processor *)

Lemma filter_negb_length (changes : list change) :
  length (filter exists_ changes)
  + length (filter (fun c => negb (exists_ c)) changes)
  = length changes.
Proof.
  induction changes as [|c cs IH]; [reflexivity|].
  simpl. destruct (exists_ c); simpl; lia.
Qed.

Lemma mismatch_errors_missing (changes : list change) :
  mismatch_errors changes
  = match filter (fun c => negb (exists_ c)) changes with
    | [] => []
    | _ :: _ =>
        [missing_message (filter (fun c => negb (exists_ c)) changes)]
    end.
Proof.
  unfold mismatch_errors. pose proof (filter_negb_length changes) as H.
  destruct (Nat.eqb_spec (length (filter exists_ changes)) (length changes))
    as [E|E];
    destruct (filter (fun c => negb (exists_ c)) changes);
    simpl in H; try reflexivity; lia.
Qed.

(** The processor past its two reads, when the article could be read and
    the inventory taken. *)
Lemma process_article_read (fs : node) (folder : path) (dry_run : bool)
    (html : text) (av : list text) :
  read_file fs (folder ++ [article_html]) = Ok html ->
  get_available_images fs folder = Ok av ->
  process_article fs folder dry_run
  = let '(start, end_, content) := extract_content_section html in
    if (start =? -1)%Z then
      Ok ({| r_folder := path_name folder; r_path := path_str folder;
             r_changes := []; r_errors := [content_not_found];
             r_images_in_html := 0;
             r_images_available := length av |}, fs)
    else
      let '(new_content, changes) :=
        replace_images_in_content content av dry_run (path_name folder) in
      let result :=
        {| r_folder := path_name folder; r_path := path_str folder;
           r_changes := changes; r_errors := mismatch_errors changes;
           r_images_in_html := length changes;
           r_images_available := length av |} in
      if negb dry_run && negb (Nat.eqb (length changes) 0) then
        fs' <- write_file (folder ++ [article_html])
                 (slice_to html start ++ new_content ++ slice_from html end_)
                 fs ;;
        Ok (result, fs')
      else Ok (result, fs).
Proof.
  intros Hread Hinv. unfold process_article.
  rewrite Hread. cbn [bind]. rewrite Hinv. cbn [bind]. reflexivity.
Qed.

(** ** C7 *)

(** C7, as stated, fails: the Article Processor takes the Image Inventory
    before it looks for the content section.  For an article without
    content section in a folder that holds [image-cover.webp], a name
    without number, the inventory raises [AttributeError]: no result and
    no error is recorded for the article, and the run ends there. *)
Lemma no_content_beside_unnumbered_image_raises :
  find_article_folders cover_fs example_base = Ok [example_bare]
  /\ read_file cover_fs (example_bare ++ [article_html]) = Ok bare_html
  /\ extract_content_section bare_html = ((-1)%Z, (-1)%Z, [])
  /\ get_available_images cover_fs example_bare = Raise AttributeError
  /\ (forall dry_run,
        process_article cover_fs example_bare dry_run = Raise AttributeError)
  /\ (forall dry_run,
        main cover_fs example_base dry_run = Raise AttributeError)
  /\ ~ (exists result fs',
          process_article cover_fs example_bare false = Ok (result, fs')).
Proof.
  split; [reflexivity|]. split; [reflexivity|]. split; [reflexivity|].
  split; [reflexivity|].
  split; [intros []; reflexivity|].
  split; [intros []; reflexivity|].
  intros (result & fs' & H). discriminate H.
Qed.

(** C7, amended.  For every document the Content Extractor returns the
    span and the text of the middle group of the first occurrence of the
    content pattern: the leftmost opening tag that a closing boundary
    follows, with the shortest middle; when there is no occurrence it
    returns start [-1] and the empty text.  In that case the Article
    Processor, provided the article could be read and the Image Inventory
    of the folder taken, returns a result whose only error is
    [Sezione .content non trovata], with no change record and the file
    system as it was, and the loop of [main] goes on with the folders that
    remain. *)
Theorem content_section_first_or_skipped (fs : node) (folder : path)
    (dry_run : bool) (html : text) (av : list text)
    (Hread : read_file fs (folder ++ [article_html]) = Ok html)
    (Hinv : get_available_images fs folder = Ok av) :
  (forall start end_ t,
     extract_content_section html = (start, end_, t) ->
     (start <> (-1)%Z ->
      exists p,
        content_occurrence html p t
        /\ start = Z.of_nat (p + length content_open)
        /\ end_ = (start + Z.of_nat (length t))%Z
        /\ t = substring html (Z.to_nat start) (Z.to_nat end_)
        /\ (forall p' mid',
              content_occurrence html p' mid' ->
              p <= p' /\ (p' = p -> length t <= length mid')))
     /\ (start = (-1)%Z ->
         end_ = (-1)%Z /\ t = []
         /\ forall p mid, ~ content_occurrence html p mid))
  /\ ((forall p mid, ~ content_occurrence html p mid) ->
      extract_content_section html = ((-1)%Z, (-1)%Z, [])
      /\ process_article fs folder dry_run
         = Ok ({| r_folder := path_name folder; r_path := path_str folder;
                  r_changes := [];
                  r_errors := [str "Sezione .content non trovata"];
                  r_images_in_html := 0;
                  r_images_available := length av |}, fs)
      /\ forall rest total_changes total_errors,
           main_loop fs (folder :: rest) dry_run total_changes total_errors
           = main_loop fs rest dry_run total_changes (total_errors + 1)).
Proof.
  split.
  - intros start end_ t H. split.
    + intros Hs.
      destruct (extract_content_section_found html start end_ t H Hs)
        as (p & H1 & H2 & H3 & H4 & _ & H6).
      exists p. tauto.
    + intros ->. unfold extract_content_section in H.
      destruct (search_content html 0) as [[s e]|] eqn:E.
      * injection H as H _ _. lia.
      * injection H as <- <-. repeat split.
        apply content_occurrence_none. exact E.
  - intros Hnone.
    assert (search_content html 0 = None) as E.
    { destruct (search_content html 0) as [[s e]|] eqn:E; [|reflexivity].
      exfalso.
      destruct (search_content_some html 0 s e E)
        as (pre & mid & tail & Hh & _ & _ & Hc & _).
      apply (Hnone (length pre) mid). exists pre, tail. tauto. }
    assert (extract_content_section html = ((-1)%Z, (-1)%Z, [])) as Hx
      by (unfold extract_content_section; rewrite E; reflexivity).
    assert (process_article fs folder dry_run
            = Ok ({| r_folder := path_name folder;
                     r_path := path_str folder;
                     r_changes := [];
                     r_errors := [str "Sezione .content non trovata"];
                     r_images_in_html := 0;
                     r_images_available := length av |}, fs)) as Hp
      by (rewrite (process_article_read fs folder dry_run html av Hread Hinv),
            Hx; reflexivity).
    split; [exact Hx|]. split; [exact Hp|].
    intros rest tc te. cbn [main_loop]. rewrite Hp. reflexivity.
Qed.

(** C7 at the article without content section of the small site. *)
Lemma content_section_first_or_skipped_witness :
  read_file example_fs (example_bare ++ [article_html]) = Ok bare_html
  /\ get_available_images example_fs example_bare = Ok []
  /\ extract_content_section bare_html = ((-1)%Z, (-1)%Z, [])
  /\ main_loop example_fs [example_bare; example_post] true 0 0
     = main_loop example_fs [example_post] true 0 1.
Proof.
  split; [reflexivity|]. split; [reflexivity|].
  destruct (content_section_first_or_skipped example_fs example_bare true
              bare_html [] eq_refl eq_refl) as [_ H].
  destruct (H (content_occurrence_none bare_html eq_refl)) as (H1 & _ & H3).
  split; [exact H1|]. exact (H3 [example_post] 0 0).
Defined.

(** ** Line endings *)

Lemma universal_newlines_no_cr (s : text) : ~ In cr (universal_newlines s).
Proof.
  induction s as [|c s IH]; [intros []|].
  cbn [universal_newlines].
  destruct (ascii_dec c cr) as [->|Hc].
  - destruct s as [|c' s']; [intros [H|[]]; discriminate H|].
    destruct (ascii_dec c' lf); [exact IH|].
    intros [H|H]; [discriminate H | exact (IH H)].
  - intros [H|H]; [exact (Hc H) | exact (IH H)].
Qed.

Lemma universal_newlines_id (s : text) :
  ~ In cr s -> universal_newlines s = s.
Proof.
  induction s as [|c s IH]; intros H; [reflexivity|].
  cbn [universal_newlines].
  destruct (ascii_dec c cr) as [->|_];
    [exfalso; apply H; left; reflexivity|].
  f_equal. apply IH. intros Hin. apply H. right. exact Hin.
Qed.

Lemma in_firstn (n : nat) (s : text) (x : ascii) :
  In x (firstn n s) -> In x s.
Proof.
  intros H. rewrite <- (firstn_skipn n s). apply in_or_app. left. exact H.
Qed.

Lemma in_skipn (n : nat) (s : text) (x : ascii) :
  In x (skipn n s) -> In x s.
Proof.
  intros H. rewrite <- (firstn_skipn n s). apply in_or_app. right. exact H.
Qed.

Lemma in_substring (s : text) (i j : nat) (x : ascii) :
  In x (substring s i j) -> In x s.
Proof.
  unfold substring. intros H. exact (in_skipn i s x (in_firstn _ _ x H)).
Qed.

(** Every character of the output is one of the input or one of an
    expected file name. *)
Lemma rewrite_from_chars (av : list text) (fuel : nat) :
  forall (rest : text) (i : nat) (x : ascii),
    In x (rewrite_from av fuel rest i) ->
    In x rest \/ exists n, In x (image_name n).
Proof.
  induction fuel as [|fuel IH]; intros rest i x H; [left; exact H|].
  cbn [rewrite_from] in H. destruct rest as [|c rest']; [contradiction|].
  destruct (match_img (c :: rest')) as [[[a b] e]|].
  - apply in_app_or in H. destruct H as [H|H];
      [left; exact (in_firstn _ _ _ H)|].
    apply in_app_or in H. destruct H as [H|H].
    + destruct (in_list (image_name (i + 2)) av);
        [right; eexists; exact H | left; exact (in_substring _ _ _ _ H)].
    + apply in_app_or in H. destruct H as [H|H];
        [left; exact (in_substring _ _ _ _ H)|].
      destruct (IH _ _ _ H) as [H'|H'];
        [left; exact (in_skipn _ _ _ H') | right; exact H'].
  - destruct H as [<-|H]; [left; left; reflexivity|].
    destruct (IH _ _ _ H) as [H'|H'];
      [left; right; exact H' | right; exact H'].
Qed.

Lemma string_of_uint_no_cr (d : Decimal.uint) :
  ~ In cr (str (DecimalString.NilEmpty.string_of_uint d)).
Proof.
  induction d; simpl; intros H; try contradiction;
    destruct H as [H|H]; (discriminate H || exact (IHd H)).
Qed.

Lemma image_name_no_cr (n : nat) : ~ In cr (image_name n).
Proof.
  unfold image_name, str_of_nat. intros Hin.
  apply in_app_or in Hin. destruct Hin as [Hin|Hin];
    [simpl in Hin; intuition discriminate|].
  apply in_app_or in Hin. destruct Hin as [Hin|Hin];
    [exact (string_of_uint_no_cr _ Hin)
    | simpl in Hin; intuition discriminate].
Qed.

Lemma extract_content_section_chars (html : text) (start end_ : Z)
    (content : text) (x : ascii) :
  extract_content_section html = (start, end_, content) ->
  In x content -> In x html.
Proof.
  unfold extract_content_section.
  destruct (search_content html 0) as [[s e]|]; intros H; injection H as _ _ <-.
  - apply in_substring.
  - intros [].
Qed.

(** What the Article Processor writes holds no carriage return: a read
    returns it as it is. *)
Lemma written_article_no_cr (fs : node) (p : path) (html : text)
    (av : list text) (d : bool) (n : text) (start end_ : Z) (content : text)
    (a b : Z) :
  read_file fs p = Ok html ->
  extract_content_section html = (start, end_, content) ->
  universal_newlines
    (slice_to html a
     ++ fst (replace_images_in_content content av d n)
     ++ slice_from html b)
  = slice_to html a
    ++ fst (replace_images_in_content content av d n)
    ++ slice_from html b.
Proof.
  intros Hread Hx. apply universal_newlines_id.
  assert (~ In cr html) as Hh.
  { apply read_file_stored in Hread. destruct Hread as (raw & _ & ->).
    apply universal_newlines_no_cr. }
  intros Hin. apply in_app_or in Hin. destruct Hin as [Hin|Hin];
    [exact (Hh (in_firstn _ _ _ Hin))|].
  apply in_app_or in Hin. destruct Hin as [Hin|Hin];
    [|exact (Hh (in_skipn _ _ _ Hin))].
  rewrite replace_images_in_content_rewrite in Hin.
  destruct (rewrite_from_chars av _ _ _ _ Hin) as [H|[k H]].
  - exact (Hh (extract_content_section_chars html start end_ content cr Hx H)).
  - exact (image_name_no_cr k H).
Qed.

(** The file an applying call wrote reads back as written. *)
Lemma read_file_written (fs fs' : node) (p : path) (html : text)
    (av : list text) (d : bool) (n : text) (start end_ : Z) (content : text)
    (a b : Z) :
  read_file fs p = Ok html ->
  extract_content_section html = (start, end_, content) ->
  stored fs' p
  = Some (slice_to html a
          ++ fst (replace_images_in_content content av d n)
          ++ slice_from html b) ->
  read_file fs' p
  = Ok (slice_to html a
        ++ fst (replace_images_in_content content av d n)
        ++ slice_from html b).
Proof.
  intros Hread Hx Hs. apply read_file_stored. eexists. split; [exact Hs|].
  symmetry. exact (written_article_no_cr fs p html av d n start end_ content
                     a b Hread Hx).
Qed.

(** ** C5 *)

(** C5, as stated, fails: an article stored with [\r\n] line endings is
    read with [\n] for each of them and written back so; after an applying
    call with one change record the file differs from the original before
    the extracted span already. *)
Lemma apply_changes_line_endings_outside_span :
  let article := example_post ++ [article_html] in
  exists result fs' html start end_ content written,
    stored crlf_fs article = Some crlf_html
    /\ read_file crlf_fs article = Ok html
    /\ extract_content_section html = (start, end_, content)
    /\ process_article crlf_fs example_post false = Ok (result, fs')
    /\ length (r_changes result) = 1
    /\ stored fs' article = Some written
    /\ start = 35%Z
    /\ firstn 35 written <> firstn 35 crlf_html
    /\ firstn 8 crlf_html = str "<html>" ++ [cr; lf]
    /\ firstn 8 written = str "<html>" ++ [lf] ++ str "<".
Proof.
  cbn zeta. do 7 eexists.
  split; [reflexivity|].
  split; [vm_compute; reflexivity|].
  split; [vm_compute; reflexivity|].
  split; [vm_compute; reflexivity|].
  split; [reflexivity|].
  split; [vm_compute; reflexivity|].
  split; [reflexivity|].
  split; [vm_compute; discriminate|].
  split; reflexivity.
Qed.

(** C5, amended.  With the article read and the inventory taken, the
    Article Processor returns; in preview mode the file system is as it
    was; when not in preview mode and the list of change records is not
    empty, [article.html] then holds the document as it was read, that is
    decoded and with [\r\n] and [\r] turned into [\n], with the characters
    of the extracted span [start, end) exchanged for the new fragment: the
    text before [start] and the text from [end] on are those of the
    document as read, and a later read returns what was written.  For an
    article stored without carriage return the document as read is the
    stored one. *)
Theorem preview_keeps_apply_splices (fs : node) (folder : path)
    (dry_run : bool) (html : text) (av : list text)
    (Hread : read_file fs (folder ++ [article_html]) = Ok html)
    (Hinv : get_available_images fs folder = Ok av) :
  exists result fs',
    process_article fs folder dry_run = Ok (result, fs')
    /\ (dry_run = true -> fs' = fs)
    /\ (r_changes result = [] -> fs' = fs)
    /\ (exists raw,
          stored fs (folder ++ [article_html]) = Some raw
          /\ html = universal_newlines raw
          /\ (~ In cr raw -> html = raw))
    /\ (dry_run = false -> r_changes result <> [] ->
        exists (start end_ : nat) (content : text),
          extract_content_section html
          = (Z.of_nat start, Z.of_nat end_, content)
          /\ start <= end_ /\ end_ <= length html
          /\ replace_images_in_content content av dry_run (path_name folder)
             = (fst (replace_images_in_content content av dry_run
                       (path_name folder)), r_changes result)
          /\ let new_content :=
               fst (replace_images_in_content content av dry_run
                      (path_name folder)) in
             let written :=
               firstn start html ++ new_content ++ skipn end_ html in
             stored fs' (folder ++ [article_html]) = Some written
             /\ read_file fs' (folder ++ [article_html]) = Ok written
             /\ firstn start written = firstn start html
             /\ skipn (start + length new_content) written
                = skipn end_ html).
Proof.
  assert (exists raw,
             stored fs (folder ++ [article_html]) = Some raw
             /\ html = universal_newlines raw
             /\ (~ In cr raw -> html = raw)) as Hraw.
  { destruct (proj1 (read_file_stored _ _ _) Hread) as (raw & Hs & ->).
    exists raw. split; [exact Hs|]. split; [reflexivity|].
    apply universal_newlines_id. }
  rewrite (process_article_read fs folder dry_run html av Hread Hinv).
  destruct (extract_content_section html) as [[start end_] content] eqn:Ex.
  destruct (Z.eqb_spec start (-1)) as [Hs|Hs].
  - eexists; eexists. split; [reflexivity|]. cbn [r_changes].
    split; [congruence|]. split; [congruence|].
      split; [exact Hraw | congruence].
  - destruct (extract_content_section_found html start end_ content Ex Hs)
      as (p & _ & Hst & Hen & _ & Hlen & _).
    destruct (replace_images_in_content content av dry_run (path_name folder))
      as [new_content changes] eqn:Erw.
    destruct dry_run; cbn [negb andb].
    + eexists; eexists. split; [reflexivity|].
      split; [congruence|]. split; [congruence|].
      split; [exact Hraw | congruence].
    + destruct changes as [|c changes]; cbn [length Nat.eqb negb].
      * eexists; eexists. split; [reflexivity|]. cbn [r_changes].
        split; [congruence|]. split; [congruence|].
      split; [exact Hraw | congruence].
      * set (s := p + length content_open) in *.
        set (e := s + length content).
        assert (end_ = Z.of_nat e) as He by (unfold e; lia).
        pose proof (read_file_written fs) as Hback.
        specialize (Hback) with (1 := Hread) (2 := Ex).
        rewrite Hst, He in *. rewrite slice_to_nat, slice_from_nat.
        destruct (write_file_after_read (folder ++ [article_html])
                    (firstn s html ++ new_content ++ skipn e html)
                    fs html Hread) as (fs' & Hw & Hr).
        rewrite Hw. cbn [bind].
        eexists; eexists. split; [reflexivity|]. cbn [r_changes].
        split; [discriminate|]. split; [discriminate|].
        split; [exact Hraw|].
        intros _ _. exists s, e, content. rewrite Erw. cbn [fst].
        assert (length (firstn s html) = s) as Hfl
          by (rewrite length_firstn; lia).
        split; [reflexivity|]. split; [unfold e; lia|].
        split; [unfold e; lia|]. split; [reflexivity|].
        cbn zeta. split; [exact Hr|]. split.
        { specialize (Hback fs' av false (path_name folder)
                        (Z.of_nat s) (Z.of_nat e)).
          rewrite Erw, slice_to_nat, slice_from_nat in Hback.
          exact (Hback Hr). }
        split.
        -- rewrite <- Hfl at 1. apply firstn_app_length.
        -- rewrite <- Hfl at 1. rewrite <- length_app, app_assoc.
           apply skipn_app_length.
Qed.

(** C5 at the article of the small site, in both modes. *)
Lemma preview_keeps_apply_splices_witness :
  read_file example_fs (example_post ++ [article_html])
  = Ok (example_html example_fragment)
  /\ get_available_images example_fs example_post
     = Ok [str "image-1.webp"; str "image-2.webp"]
  /\ (exists result,
        process_article example_fs example_post true
        = Ok (result, example_fs))
  /\ (exists result fs',
        process_article example_fs example_post false = Ok (result, fs')).
Proof.
  split; [reflexivity|]. split; [reflexivity|]. split.
  - destruct (preview_keeps_apply_splices example_fs example_post true
                (example_html example_fragment)
                [str "image-1.webp"; str "image-2.webp"] eq_refl eq_refl)
      as (result & fs' & H & Hdry & _).
    exists result. rewrite H, (Hdry eq_refl). reflexivity.
  - destruct (preview_keeps_apply_splices example_fs example_post false
                (example_html example_fragment)
                [str "image-1.webp"; str "image-2.webp"] eq_refl eq_refl)
      as (result & fs' & H & _).
    exists result, fs'. exact H.
Defined.


(** ** C4 *)



(** ** Orders *)

Section LexicographicOrder.
Variable A : Type.
Variable ltb : A -> A -> bool.
Hypothesis ltb_asym : asymmetric ltb.
Hypothesis ltb_trans : le_transitive ltb.
Hypothesis ltb_antisym : le_antisymmetric ltb.

Lemma ltb_irrefl (x : A) : ltb x x = false.
Proof.
  destruct (ltb x x) eqn:E; [|reflexivity].
  pose proof (ltb_asym x x E). congruence.
Qed.

Lemma lex_ltb_asym : asymmetric (lex_ltb ltb).
Proof.
  intros a. induction a as [|x a IH]; intros b H.
  - destruct b; reflexivity.
  - destruct b as [|y b]; [discriminate|]. cbn [lex_ltb] in *.
    destruct (ltb x y) eqn:Exy.
    + rewrite (ltb_asym x y Exy). reflexivity.
    + destruct (ltb y x) eqn:Eyx; [discriminate|]. apply IH. exact H.
Qed.

Lemma lex_ltb_antisym : le_antisymmetric (lex_ltb ltb).
Proof.
  intros a. induction a as [|x a IH]; intros b H1 H2.
  - destruct b; [reflexivity | discriminate H1].
  - destruct b as [|y b]; [discriminate H2|]. cbn [lex_ltb] in *.
    destruct (ltb x y) eqn:Exy; [discriminate H1|].
    destruct (ltb y x) eqn:Eyx; [discriminate H2|].
    f_equal; [apply ltb_antisym; assumption | apply IH; assumption].
Qed.

Lemma lex_ltb_trans : le_transitive (lex_ltb ltb).
Proof.
  intros a. induction a as [|x a IH]; intros b c H1 H2.
  - destruct c; reflexivity.
  - destruct b as [|y b]; [discriminate H1|].
    destruct c as [|z c]; [discriminate H2|]. cbn [lex_ltb] in *.
    destruct (ltb y x) eqn:Eyx; [discriminate H1|].
    destruct (ltb z y) eqn:Ezy; [discriminate H2|].
    rewrite (ltb_trans x y z Eyx Ezy).
    destruct (ltb x z) eqn:Exz; [reflexivity|].
    assert (x = z) as <- by (apply ltb_antisym;
                             [exact Exz | exact (ltb_trans x y z Eyx Ezy)]).
    rewrite Ezy in H1. rewrite Eyx in H2.
    apply (IH b c); assumption.
Qed.
End LexicographicOrder.

Lemma char_ltb_asym : asymmetric char_ltb.
Proof.
  intros x y H. unfold char_ltb in *.
  apply Nat.ltb_lt in H. apply Nat.ltb_ge. lia.
Qed.

Lemma char_ltb_trans : le_transitive char_ltb.
Proof.
  intros x y z H1 H2. unfold char_ltb in *.
  apply Nat.ltb_ge in H1, H2. apply Nat.ltb_ge. lia.
Qed.

Lemma char_ltb_antisym : le_antisymmetric char_ltb.
Proof.
  intros x y H1 H2. unfold char_ltb in *.
  apply Nat.ltb_ge in H1, H2.
  rewrite <- (ascii_nat_embedding x), <- (ascii_nat_embedding y).
  f_equal. lia.
Qed.

Lemma path_ltb_asym : asymmetric path_ltb.
Proof.
  exact (lex_ltb_asym text text_ltb (lex_ltb_asym ascii char_ltb char_ltb_asym)).
Qed.

Lemma path_ltb_trans : le_transitive path_ltb.
Proof.
  exact (lex_ltb_trans text text_ltb
           (lex_ltb_trans ascii char_ltb char_ltb_trans char_ltb_antisym)
           (lex_ltb_antisym ascii char_ltb char_ltb_antisym)).
Qed.

(** ** Sorting *)

Section SortedFacts.
Variable A : Type.
Variable ltb : A -> A -> bool.
Hypothesis ltb_asym : asymmetric ltb.
Hypothesis ltb_trans : le_transitive ltb.

Lemma insert_sorted_perm (x : A) (l : list A) :
  Permutation (insert_sorted ltb x l) (x :: l).
Proof.
  induction l as [|y l IH]; simpl; [reflexivity|].
  destruct (ltb y x); [|reflexivity].
  rewrite IH. apply perm_swap.
Qed.

Lemma sorted_perm (l : list A) : Permutation (sorted ltb l) l.
Proof.
  induction l as [|x l IH]; simpl; [reflexivity|].
  rewrite insert_sorted_perm. constructor. exact IH.
Qed.

Lemma insert_sorted_sorted (x : A) (l : list A) :
  StronglySorted (fun a b => ltb b a = false) l ->
  StronglySorted (fun a b => ltb b a = false) (insert_sorted ltb x l).
Proof.
  induction l as [|y l IH]; intros H; simpl.
  - repeat constructor.
  - inversion H as [|y' l' Hl Hy]; subst.
    destruct (ltb y x) eqn:E.
    + constructor; [apply IH; exact Hl|].
      apply (Permutation_Forall (x := x :: l)).
      * symmetry. apply insert_sorted_perm.
      * constructor; [apply ltb_asym; exact E | exact Hy].
    + constructor; [exact H|]. constructor; [exact E|].
      eapply Forall_impl; [|exact Hy]. intros z Hz.
      exact (ltb_trans x y z E Hz).
Qed.

Lemma sorted_sorted (l : list A) :
  StronglySorted (fun a b => ltb b a = false) (sorted ltb l).
Proof.
  induction l as [|x l IH]; simpl; [constructor|].
  apply insert_sorted_sorted. exact IH.
Qed.
End SortedFacts.

(** ** [sorted] with a key *)

Lemma map_res_total {A B : Type} (key : A -> res B) (k : A -> B)
    (l : list A) :
  (forall x, In x l -> key x = Ok (k x)) ->
  map_res key l = Ok (map k l).
Proof.
  induction l as [|x l IH]; intros H; [reflexivity|].
  cbn [map_res map]. rewrite (H x (or_introl eq_refl)). cbn [bind].
  rewrite IH by (intros y Hy; apply H; right; exact Hy). reflexivity.
Qed.

Lemma combine_map_self {A B : Type} (k : A -> B) (l : list A) :
  combine (map k l) l = map (fun x => (k x, x)) l.
Proof.
  induction l as [|x l IH]; [reflexivity|]. simpl. rewrite IH. reflexivity.
Qed.

Lemma StronglySorted_map {A B : Type} (R : A -> A -> Prop)
    (R' : B -> B -> Prop) (P : A -> Prop) (f : A -> B) (l : list A) :
  (forall a b, P a -> P b -> R a b -> R' (f a) (f b)) ->
  Forall P l -> StronglySorted R l -> StronglySorted R' (map f l).
Proof.
  intros HR HP HS. induction HS as [|a l HS IH Ha]; simpl; [constructor|].
  inversion HP as [|a' l' Pa Pl]; subst.
  constructor; [apply IH; exact Pl|].
  rewrite Forall_forall in *. intros b Hb. apply in_map_iff in Hb.
  destruct Hb as (x & <- & Hx). apply HR; auto.
Qed.

Lemma key_ltb_asym (A : Type) : asymmetric (@key_ltb A).
Proof. intros p q H. unfold key_ltb in *. lia. Qed.

Lemma key_ltb_trans (A : Type) : le_transitive (@key_ltb A).
Proof. intros p q r H1 H2. unfold key_ltb in *. lia. Qed.

(** When every key can be computed, the result holds the elements of the
    list, each as often as the list, in ascending order of the keys. *)
Lemma sorted_by_key_total {A : Type} (key : A -> res Z) (k : A -> Z)
    (l : list A) :
  (forall x, In x l -> key x = Ok (k x)) ->
  exists l',
    sorted_by_key key l = Ok l'
    /\ Permutation l' l
    /\ StronglySorted (fun a b => (k a <= k b)%Z) l'.
Proof.
  intros H. unfold sorted_by_key.
  rewrite (map_res_total key k l H). cbn [bind].
  rewrite combine_map_self.
  fold (@key_ltb A).
  set (pairs := map (fun x => (k x, x)) l).
  pose proof (sorted_perm _ key_ltb pairs) as Hperm.
  eexists. split; [reflexivity|]. split.
  - rewrite Hperm. unfold pairs. rewrite map_map. simpl. rewrite map_id.
    reflexivity.
  - apply (StronglySorted_map (fun a b => key_ltb b a = false)
             (fun a b => (k a <= k b)%Z)
             (fun p => fst p = k (snd p))).
    + intros a b Ha Hb Hab. unfold key_ltb in Hab. rewrite <- Ha, <- Hb. lia.
    + apply (Permutation_Forall (x := pairs)); [symmetry; exact Hperm|].
      unfold pairs. apply Forall_forall. intros p Hp.
      apply in_map_iff in Hp. destruct Hp as (x & <- & _). reflexivity.
    + apply sorted_sorted; [apply key_ltb_asym | apply key_ltb_trans].
Qed.

(** ** The Image Inventory *)

Lemma path_name_child (folder : path) (name : text) :
  path_name (folder ++ [name]) = name.
Proof. unfold path_name. apply last_last. Qed.

Lemma search_image_number_head (s digits : text) :
  match_image_number s = Some digits ->
  search_image_number s = Some digits.
Proof.
  intros H. destruct s; cbn [search_image_number]; rewrite H; reflexivity.
Qed.

(** The sort key of a name with a digit right after the leading [image-]
    is the integer written there. *)
Lemma image_sort_key_number (d : ascii) (rest : text) :
  is_digit d = true ->
  image_sort_key (image_prefix ++ d :: rest)
  = Ok (image_number (image_prefix ++ d :: rest)).
Proof.
  intros Hd. unfold image_sort_key, image_number.
  rewrite skipn_app_length.
  assert (match_image_number (image_prefix ++ d :: rest)
          = Some (fst (span is_digit (d :: rest)))) as Hm.
  { rewrite match_image_number_direct_eq.
    unfold match_image_number_direct. rewrite strip_prefix_app.
    cbn [span]. rewrite Hd. destruct (span is_digit rest). reflexivity. }
  rewrite (search_image_number_head _ _ Hm). reflexivity.
Qed.

Lemma get_available_images_dir (fs : node) (folder : path)
    (entries : list (text * node)) :
  lookup_path folder fs = Some (Dir entries) ->
  get_available_images fs folder
  = sorted_by_key image_sort_key (filter is_image_name (map fst entries)).
Proof.
  intros H. unfold get_available_images, iterdir. rewrite H. cbn [bind].
  rewrite map_map.
  rewrite (map_ext (fun e => path_name (folder ++ [fst e])) fst)
    by (intros e; apply path_name_child).
  reflexivity.
Qed.

(** ** Expected file names and their numbers *)

Lemma string_of_uint_digits (d : Decimal.uint) :
  Forall (fun c => is_digit c = true)
    (str (DecimalString.NilEmpty.string_of_uint d)).
Proof.
  induction d; simpl; constructor; (reflexivity || assumption).
Qed.

Lemma int_of_digits_uint (d : Decimal.uint) :
  forall acc : nat,
    fold_left (fun a c => (10 * a + Z.of_nat (nat_of_ascii c - 48))%Z)
      (str (DecimalString.NilEmpty.string_of_uint d)) (Z.of_nat acc)
    = Z.of_nat (Nat.of_uint_acc d acc).
Proof.
  induction d; intros acc; cbn [Nat.of_uint_acc];
    try reflexivity;
    cbn [DecimalString.NilEmpty.string_of_uint str
           String.list_ascii_of_string fold_left];
    rewrite <- IHd; f_equal; rewrite Nat.tail_mul_spec;
    match goal with
    | |- context [nat_of_ascii ?c - 48] =>
        let v := eval vm_compute in (nat_of_ascii c - 48) in
        change (nat_of_ascii c - 48) with v
    end; lia.
Qed.

Lemma str_of_nat_inj (n m : nat) : str_of_nat n = str_of_nat m -> n = m.
Proof.
  unfold str_of_nat, str. intros H.
  apply (f_equal String.string_of_list_ascii) in H.
  rewrite !String.string_of_list_ascii_of_string in H.
  apply (f_equal DecimalString.NilEmpty.uint_of_string) in H.
  rewrite !DecimalString.NilEmpty.usu in H. injection H as H.
  exact (DecimalNat.Unsigned.to_uint_inj n m H).
Qed.

Lemma str_of_nat_not_nil (n : nat) : str_of_nat n <> [].
Proof.
  intros H. assert (str_of_nat n = str_of_nat 0 -> False) as Hne.
  { intros H0. rewrite H in H0. discriminate H0. }
  unfold str_of_nat, str in H.
  apply (f_equal String.string_of_list_ascii) in H.
  rewrite String.string_of_list_ascii_of_string in H.
  apply (f_equal DecimalString.NilEmpty.uint_of_string) in H.
  rewrite DecimalString.NilEmpty.usu in H. cbn in H. injection H as H.
  pose proof (DecimalNat.Unsigned.of_to n) as Hn. rewrite H in Hn.
  cbn in Hn. subst n. discriminate H.
Qed.

(** The sort key of the Image Inventory reads the number of an expected
    file name back. *)
Lemma image_name_sort_key (n : nat) :
  image_sort_key (image_name n) = Ok (Z.of_nat n).
Proof.
  pose proof (string_of_uint_digits (Nat.to_uint n)) as Hdig.
  fold (str_of_nat n) in Hdig.
  pose proof (str_of_nat_not_nil n) as Hne.
  unfold image_name. fold image_prefix.
  destruct (str_of_nat n) as [|d ds] eqn:Es; [congruence|].
  inversion Hdig as [|d' ds' Hd Hds]; subst.
  cbn [app]. rewrite (image_sort_key_number d (ds ++ str ".webp") Hd).
  f_equal. unfold image_number. rewrite skipn_app_length.
  change (d :: ds ++ str ".webp") with ((d :: ds) ++ str ".webp").
  rewrite (span_run is_digit (d :: ds) (str ".webp") Hdig)
    by reflexivity.
  cbn [fst]. rewrite <- Es. unfold int_of_digits, str_of_nat.
  change 0%Z with (Z.of_nat 0).
  rewrite (int_of_digits_uint (Nat.to_uint n) 0).
  f_equal. exact (DecimalNat.Unsigned.of_to n).
Qed.

(** ** The occurrences of the image pattern *)

Lemma app_same_length (X Y : text) :
  forall X' Y' : text,
    X ++ Y = X' ++ Y' -> length X = length X' -> X = X' /\ Y = Y'.
Proof.
  induction X as [|x X IH]; intros [|x' X'] Y' H L; simpl in *;
    try discriminate L.
  - split; [reflexivity | exact H].
  - injection H as -> H. injection L as L.
    destruct (IH X' Y' H L) as [-> ->]. split; reflexivity.
Qed.

Lemma img_shape_unique (s ws url rest ws' url' rest' : text) :
  img_shape s ws url rest -> img_shape s ws' url' rest' ->
  ws = ws' /\ url = url' /\ rest = rest'.
Proof.
  intros H H'. pose proof (match_img_of_shape _ _ _ _ H) as E.
  pose proof (match_img_of_shape _ _ _ _ H') as E'.
  rewrite E in E'. injection E' as Ha Hb.
  destruct H as (Hs & _). destruct H' as (Hs' & _).
  assert (length ws = length ws') as Lw by lia.
  assert (length url = length url') as Lu by lia.
  rewrite Hs in Hs'. apply app_inv_head in Hs'.
  destruct (app_same_length _ _ _ _ Hs' Lw) as [-> Hs2].
  apply app_inv_head in Hs2.
  destruct (app_same_length _ _ _ _ Hs2 Lu) as [-> Hs3].
  injection Hs3 as ->. repeat split.
Qed.

Lemma shape_at_match (content : text) (p : nat) :
  shape_at content p <-> match_img (skipn p content) <> None.
Proof.
  split.
  - intros (ws & url & rest & H).
    rewrite (match_img_of_shape _ _ _ _ H). discriminate.
  - destruct (match_img (skipn p content)) as [[[a b] e]|] eqn:E;
      [|congruence].
    intros _. destruct (match_img_shape _ _ _ _ E)
      as (ws & url & rest & H & _).
    exists ws, url, rest. exact H.
Qed.

Lemma shape_at_inside (content : text) (p : nat) :
  shape_at content p -> p < length content.
Proof.
  intros (ws & url & rest & (Hs & _)).
  destruct (Nat.lt_ge_cases p (length content)) as [L|L]; [exact L|].
  rewrite skipn_all2 in Hs by exact L. discriminate Hs.
Qed.

Lemma scanned_weaken (content : text) (from : nat)
    (occurrences : list (nat * text)) :
  scanned content (S from) occurrences ->
  ~ shape_at content from ->
  scanned content from occurrences.
Proof.
  intros H Hn.
  assert (forall q (P : Prop),
             (S from <= q -> P) -> (q = from -> P) -> from <= q -> P) as Hcase.
  { intros q P H1 H2 Hq. destruct (Nat.eq_dec q from); [auto|].
    apply H1. lia. }
  inversion H as [from' Hnone | from' p ws url rest occs Hle Hnone Hs Hrest];
    subst.
  - apply scanned_nil. intros q Hq.
    apply (Hcase q); [apply Hnone | intros ->; exact Hn | exact Hq].
  - apply (@scanned_cons content from p ws url rest occs); try assumption.
    + lia.
    + intros q Hq Hlt.
      apply (Hcase q); [intros H1; exact (Hnone q H1 Hlt)
                       | intros ->; exact Hn | exact Hq].
Qed.

(** The matches of the scan are the occurrences, each with the URL its
    group 1 captures. *)
Lemma finditer_from_scanned (content : text) (fuel : nat) :
  forall pos : nat,
    length content - pos <= fuel ->
    scanned content pos
      (map (fun m => (m_start m, group1 content m))
         (finditer_from fuel (skipn pos content) pos)).
Proof.
  induction fuel as [|fuel IH]; intros pos Hfuel.
  - apply scanned_nil. intros q Hq Hs. apply shape_at_inside in Hs. lia.
  - cbn [finditer_from].
    destruct (skipn pos content) as [|c rest] eqn:Es.
    + apply scanned_nil. intros q Hq Hs. apply shape_at_inside in Hs.
      assert (length (skipn pos content) = 0) as Hl by (rewrite Es; reflexivity).
      rewrite length_skipn in Hl. lia.
    + destruct (match_img (c :: rest)) as [[[a b] e]|] eqn:E.
      * destruct (match_img_shape _ _ _ _ E)
          as (ws & url & rest' & Hshape & Ha & Hb & He).
        cbn [map m_start]. unfold group1 at 1. cbn [g1_start g1_end].
        assert (substring content (pos + a) (pos + b) = url) as ->.
        { rewrite <- substring_skipn, Es.
          destruct Hshape as (-> & _). subst a b.
          set (p := img_open ++ ws ++ img_src).
          replace (length img_open + length ws + length img_src)
            with (length p) by (unfold p; rewrite !length_app; lia).
          replace (img_open ++ ws ++ img_src ++ url ++ dq :: rest')
            with (p ++ url ++ dq :: rest')
            by (unfold p; rewrite <- !app_assoc; reflexivity).
          apply substring_middle. }
        apply (@scanned_cons content pos pos ws url rest').
        -- apply le_n.
        -- intros q H1 H2. lia.
        -- rewrite Es. exact Hshape.
        -- replace (pos + length img_open + length ws + length img_src
                    + length url + 1) with (pos + e) by lia.
           rewrite <- Es, skipn_skipn, (Nat.add_comm e pos).
           apply IH. lia.
      * rewrite <- (skipn_S_tail content rest c pos Es).
        apply scanned_weaken.
        -- apply IH. lia.
        -- intros Hs. apply shape_at_match in Hs. rewrite Es in Hs.
           exact (Hs E).
Qed.

(** The occurrences are determined by the text. *)
Lemma scanned_unique (content : text) :
  forall (from : nat) (occs occs' : list (nat * text)),
    scanned content from occs -> scanned content from occs' ->
    occs = occs'.
Proof.
  intros from occs occs' H. revert occs'.
  induction H as [from Hnone | from p ws url rest occs Hle Hnone Hs Hrest IH];
    intros occs' H';
    inversion H' as [from' Hnone'
                    | from' p' ws' url' rest' occs2 Hle' Hnone' Hs' Hrest'];
    subst.
  - reflexivity.
  - exfalso. apply (Hnone p' Hle'). exists ws', url', rest'. exact Hs'.
  - exfalso. apply (Hnone' p Hle). exists ws, url, rest. exact Hs.
  - assert (p = p') as <-.
    { destruct (Nat.lt_trichotomy p p') as [L|[L|L]]; [|exact L|].
      - exfalso. apply (Hnone' p Hle L). exists ws, url, rest. exact Hs.
      - exfalso. apply (Hnone p' Hle' L). exists ws', url', rest'.
        exact Hs'. }
    destruct (img_shape_unique _ _ _ _ _ _ _ Hs Hs') as (<- & <- & <-).
    f_equal. exact (IH occs2 Hrest').
Qed.

(** The occurrences come by increasing position. *)
Lemma scanned_ordered (content : text) :
  forall (from : nat) (occs : list (nat * text)),
    scanned content from occs ->
    Forall (fun o => from <= fst o) occs
    /\ StronglySorted (fun o1 o2 => fst o1 < fst o2) occs.
Proof.
  intros from occs H.
  induction H as [from Hnone | from p ws url rest occs Hle Hnone Hs Hrest IH].
  - split; constructor.
  - destruct IH as [IH1 IH2]. split.
    + constructor; [exact Hle|].
      eapply Forall_impl; [|exact IH1]. cbn. intros o Ho. lia.
    + constructor; [exact IH2|].
      eapply Forall_impl; [|exact IH1]. cbn. intros o Ho. lia.
Qed.

Lemma records_old_url (content : text) (av : list text)
    (ms : list img_match) :
  forall i : nat,
    map old_url (records content av i ms) = map (group1 content) ms.
Proof.
  induction ms as [|m ms IH]; intros i; [reflexivity|].
  cbn [records map old_url]. f_equal. apply IH.
Qed.

(** ** C1 *)

(** C1.  For every fragment and every inventory the Rewrite Engine returns
    one change record per occurrence of [<img src=\x22...\x22>], in the
    left-to-right order of the scan.  The occurrences are those the text
    determines: the leftmost place where [<img], white space, [src=\x22], a
    non-empty URL without quote and a quote stand, then the leftmost such
    place behind its closing quote, and so on, by increasing position.
    The record of 0-based scan position [i] has index [i + 1], the URL of
    the occurrence as old URL, and new URL [image-(i+2).webp], the name
    whose number the inventory's sort key reads as [i + 2], whether or
    not that name is in the inventory.  On the example of the
    specification the records are those of [image-2.webp] and
    [image-3.webp]. *)
Theorem change_records_follow_scan (content : text) (av : list text)
    (dry_run : bool) (folder_name : text) :
  let changes :=
    snd (replace_images_in_content content av dry_run folder_name) in
  (exists occurrences : list (nat * text),
     scanned content 0 occurrences
     /\ (forall others, scanned content 0 others -> others = occurrences)
     /\ StronglySorted (fun o1 o2 => fst o1 < fst o2) occurrences
     /\ length changes = length occurrences
     /\ map old_url changes = map snd occurrences
     /\ forall (i p : nat) (url : text),
          nth_error occurrences i = Some (p, url) ->
          exists c,
            nth_error changes i = Some c
            /\ index c = i + 1
            /\ old_url c = url
            /\ new_url c = str "image-" ++ str_of_nat (i + 2) ++ str ".webp"
            /\ image_sort_key (new_url c) = Ok (Z.of_nat (i + 2))
            /\ exists_ c = in_list (new_url c) av)
  /\ snd (replace_images_in_content example_fragment [str "image-2.webp"]
            dry_run folder_name)
     = [ {| index := 1; old_url := str "https://cdn.x/a.jpg";
            new_url := str "image-2.webp"; exists_ := true |};
         {| index := 2; old_url := str "https://cdn.x/b.jpg";
            new_url := str "image-3.webp"; exists_ := false |} ].
Proof.
  cbn zeta. split; [|vm_compute; reflexivity].
  rewrite replace_images_in_content_weave. cbn [snd].
  set (occs := map (fun m => (m_start m, group1 content m))
                 (finditer content)).
  assert (scanned content 0 occs) as Hscan.
  { unfold occs, finditer.
    exact (finditer_from_scanned content (length content) 0
             (Nat.le_sub_l _ _)). }
  exists occs. split; [exact Hscan|]. split.
  { intros others Ho. exact (scanned_unique content 0 _ _ Ho Hscan). }
  split; [exact (proj2 (scanned_ordered content 0 occs Hscan))|].
  split; [unfold occs; rewrite records_length, length_map; reflexivity|].
  split.
  { unfold occs. rewrite map_map. cbn [snd].
    apply records_old_url. }
  intros i p url Hnth. unfold occs in Hnth.
  rewrite nth_error_map in Hnth.
  destruct (nth_error (finditer content) i) as [m|] eqn:Em;
    [|discriminate Hnth].
  cbn [option_map] in Hnth. injection Hnth as <- <-.
  eexists. split; [apply (records_nth content av _ 0 i m Em)|].
  cbn [index old_url new_url exists_ Nat.add].
  split; [reflexivity|]. split; [reflexivity|]. split; [reflexivity|].
  split; [|reflexivity].
  exact (image_name_sort_key (i + 2)).
Qed.

(** ** C8 *)

(** C8.  For every folder in which every entry whose name starts with
    [image-] and ends with [.webp] has a digit right after [image-], the
    Image Inventory returns exactly those names, in ascending order of the
    integer written after [image-], which is the key the code sorts by. *)
Theorem inventory_sorted_by_number (fs : node) (folder : path)
    (entries : list (text * node))
    (Hdir : lookup_path folder fs = Some (Dir entries))
    (Hnum : forall name,
        In name (map fst entries) ->
        startswith image_prefix name = true ->
        endswith webp_suffix name = true ->
        exists d rest, name = image_prefix ++ d :: rest /\ is_digit d = true) :
  exists images,
    get_available_images fs folder = Ok images
    /\ Permutation images
         (filter (fun name => startswith image_prefix name
                              && endswith webp_suffix name)
                 (map fst entries))
    /\ StronglySorted
         (fun x y => (image_number x <= image_number y)%Z) images
    /\ (forall x, In x images ->
                  image_sort_key x = Ok (image_number x)).
Proof.
  rewrite (get_available_images_dir fs folder entries Hdir).
  assert (forall x, In x (filter is_image_name (map fst entries)) ->
            image_sort_key x = Ok (image_number x)) as Hkey.
  { intros x Hx. apply filter_In in Hx. destruct Hx as [Hin Himg].
    unfold is_image_name in Himg. apply andb_prop in Himg.
    destruct Himg as [Hs He].
    destruct (Hnum x Hin Hs He) as (d & rest & -> & Hd).
    apply image_sort_key_number. exact Hd. }
  destruct (sorted_by_key_total image_sort_key image_number _ Hkey)
    as (images & Hs & Hperm & Hsorted).
  exists images. split; [exact Hs|]. split; [exact Hperm|].
  split; [exact Hsorted|].
  intros x Hx. apply Hkey. apply (Permutation_in _ Hperm). exact Hx.
Qed.

(** C8 at a folder with [image-10.webp], [image-2.webp] and
    [image-1.webp]: the order is that of the numbers, not of the names. *)
Lemma inventory_sorted_by_number_witness :
  lookup_path gallery gallery_fs = Some (Dir gallery_entries)
  /\ get_available_images gallery_fs gallery
     = Ok [str "image-1.webp"; str "image-2.webp"; str "image-10.webp"]
  /\ text_ltb (str "image-10.webp") (str "image-2.webp") = true
  /\ exists images,
       get_available_images gallery_fs gallery = Ok images
       /\ StronglySorted
            (fun x y => (image_number x <= image_number y)%Z) images.
Proof.
  split; [reflexivity|]. split; [reflexivity|]. split; [reflexivity|].
  destruct (inventory_sorted_by_number gallery_fs gallery gallery_entries
              eq_refl) as (images & H & _ & Hsorted & _).
  - intros name Hin Hs He. simpl in Hin.
    repeat (destruct Hin as [<-|Hin];
            [try (vm_compute in Hs; discriminate Hs);
             try (vm_compute in He; discriminate He);
             eexists; eexists; split; reflexivity|]).
    destruct Hin.
  - exists images. split; assumption.
Defined.

(** ** The Folder Scanner *)

Lemma scan_subdir_folders_in (fs : node) (base_path : path) (subdir : text) :
  (path_exists fs (base_path ++ [subdir]) = true ->
   is_dir fs (base_path ++ [subdir]) = true) ->
  scan_subdir fs base_path subdir = Ok (folders_in fs base_path subdir).
Proof.
  unfold scan_subdir, folders_in, iterdir, path_exists, is_dir. intros H.
  destruct (lookup_path (base_path ++ [subdir]) fs)
    as [[content|entries|]|].
  - specialize (H eq_refl). discriminate H.
  - cbn [bind]. rewrite map_ext with
      (g := fun e => base_path ++ [subdir; fst e]);
      [reflexivity|].
    intros e. rewrite <- app_assoc. reflexivity.
  - specialize (H eq_refl). discriminate H.
  - reflexivity.
Qed.

Lemma scan_subdirs_folders_in (fs : node) (base_path : path)
    (names : list text) :
  forall folders : list path,
    (forall subdir, In subdir names ->
       path_exists fs (base_path ++ [subdir]) = true ->
       is_dir fs (base_path ++ [subdir]) = true) ->
    scan_subdirs fs base_path names folders
    = Ok (folders ++ flat_map (folders_in fs base_path) names).
Proof.
  induction names as [|subdir names IH]; intros folders H.
  - simpl. rewrite app_nil_r. reflexivity.
  - cbn [scan_subdirs flat_map].
    rewrite (scan_subdir_folders_in fs base_path subdir
               (H subdir (or_introl eq_refl))).
    cbn [bind]. rewrite IH, app_assoc; [reflexivity|].
    intros s Hs. apply H. right. exact Hs.
Qed.

(** ** C9 *)

(** C9, as stated, fails: for a base directory in which [articles] is a
    regular file the Folder Scanner raises [NotADirectoryError] and returns
    no folder at all, though [feedback-friday] holds one. *)
Lemma scanner_raises_on_plain_file :
  is_dir odd_fs (example_base ++ [str "articles"]) = false
  /\ folders_in odd_fs example_base (str "feedback-friday")
     = [[str "site"; str "feedback-friday"; str "week-1"]]
  /\ find_article_folders odd_fs example_base = Raise NotADirectoryError
  /\ ~ (exists folders, find_article_folders odd_fs example_base = Ok folders).
Proof.
  split; [reflexivity|]. split; [reflexivity|]. split; [reflexivity|].
  intros (folders & H). discriminate H.
Qed.

(** C9, amended.  For every base directory in which [articles] and
    [feedback-friday] are each absent or a directory, the Folder Scanner
    returns exactly the immediate children of these two subdirectories
    that are directories and hold an entry named [article.html], merged
    and sorted by path; a child without [article.html] is not among them,
    and a missing subdirectory contributes nothing and raises nothing. *)
Theorem folders_found_and_sorted (fs : node) (base_path : path)
    (Hsub : forall subdir,
        In subdir [str "articles"; str "feedback-friday"] ->
        path_exists fs (base_path ++ [subdir]) = true ->
        is_dir fs (base_path ++ [subdir]) = true) :
  exists folders,
    find_article_folders fs base_path = Ok folders
    /\ Permutation folders (article_folders fs base_path)
    /\ StronglySorted path_le folders
    /\ (forall p,
          In p folders <->
          exists subdir entries name,
            In subdir [str "articles"; str "feedback-friday"]
            /\ lookup_path (base_path ++ [subdir]) fs = Some (Dir entries)
            /\ In name (map fst entries)
            /\ p = base_path ++ [subdir; name]
            /\ is_dir fs p = true
            /\ path_exists fs (p ++ [article_html]) = true)
    /\ (forall subdir,
          path_exists fs (base_path ++ [subdir]) = false ->
          scan_subdir fs base_path subdir = Ok []).
Proof.
  unfold find_article_folders.
  rewrite (scan_subdirs_folders_in fs base_path subdirs [] Hsub).
  cbn [bind app]. fold (article_folders fs base_path).
  pose proof (sorted_perm _ path_ltb (article_folders fs base_path)) as Hperm.
  eexists. split; [reflexivity|]. split; [exact Hperm|]. split.
  - apply sorted_sorted; [exact path_ltb_asym | exact path_ltb_trans].
  - split.
    + intros p. split.
      * intros Hp. apply (Permutation_in _ Hperm) in Hp.
        unfold article_folders in Hp. apply in_flat_map in Hp.
        destruct Hp as (subdir & Hs & Hp). unfold folders_in in Hp.
        destruct (lookup_path (base_path ++ [subdir]) fs)
          as [[content|entries|]|] eqn:El; try destruct Hp.
        apply filter_In in Hp. destruct Hp as [Hin Hq].
        apply in_map_iff in Hin. destruct Hin as (e & <- & He).
        apply andb_prop in Hq. destruct Hq as [Hd Ha].
        exists subdir, entries, (fst e). repeat split; try assumption.
        apply in_map. exact He.
      * intros (subdir & entries & name & Hs & El & Hn & -> & Hd & Ha).
        apply (Permutation_in _ (Permutation_sym Hperm)).
        unfold article_folders. apply in_flat_map. exists subdir.
        split; [exact Hs|]. unfold folders_in. rewrite El.
        apply filter_In. split.
        -- apply in_map_iff in Hn. destruct Hn as (e & <- & He).
           apply in_map_iff. exists e. split; [reflexivity | exact He].
        -- rewrite Hd, Ha. reflexivity.
    + intros subdir H. unfold scan_subdir. rewrite H. reflexivity.
Qed.

(** The amended C9 at a site with both subdirectories. *)
Lemma folders_found_and_sorted_witness :
  find_article_folders two_fs example_base
  = Ok [[str "site"; str "articles"; str "alpha"];
        [str "site"; str "articles"; str "zeta"];
        [str "site"; str "feedback-friday"; str "week-1"];
        [str "site"; str "feedback-friday"; str "week-2"]]
  /\ exists folders,
       find_article_folders two_fs example_base = Ok folders
       /\ StronglySorted path_le folders.
Proof.
  split; [reflexivity|].
  destruct (folders_found_and_sorted two_fs example_base)
    as (folders & H & _ & Hsorted & _).
  - intros subdir [<-|[<-|[]]] _; reflexivity.
  - exists folders. split; assumption.
Defined.

(** ** C10 *)

Lemma finditer_from_shape (content : text) (fuel : nat) :
  forall (pos : nat) (m : img_match),
    In m (finditer_from fuel (skipn pos content) pos) ->
    exists ws url rest,
      img_shape (skipn (m_start m) content) ws url rest
      /\ g1_start m
         = m_start m + length img_open + length ws + length img_src
      /\ g1_end m = g1_start m + length url
      /\ m_end m = g1_end m + 1.
Proof.
  induction fuel as [|fuel IH]; intros pos m Hin; [destruct Hin|].
  cbn [finditer_from] in Hin.
  destruct (skipn pos content) as [|c rest] eqn:Es; [destruct Hin|].
  destruct (match_img (c :: rest)) as [[[a b] e]|] eqn:E.
  - destruct Hin as [<-|Hin].
    + apply match_img_shape in E.
      destruct E as (ws & url & rest' & Hshape & -> & -> & ->).
      exists ws, url, rest'. cbn [m_start g1_start g1_end m_end].
      rewrite Es. repeat split; try apply Hshape; lia.
    + rewrite <- Es, skipn_skipn, (Nat.add_comm e pos) in Hin.
      exact (IH (pos + e) m Hin).
  - rewrite <- (skipn_S_tail content rest c pos Es) in Hin.
    exact (IH (S pos) m Hin).
Qed.

Lemma match_img_other_attribute (ws rest : text) :
  Forall (fun c => is_space c = true) ws ->
  stops is_space rest ->
  strip_prefix img_src rest = None ->
  match_img (img_open ++ ws ++ rest) = None.
Proof.
  intros Fws Hstop Hsrc. rewrite match_img_direct_eq.
  unfold match_img_direct. rewrite strip_prefix_app.
  rewrite (span_run is_space ws rest Fws Hstop).
  destruct ws; [reflexivity|]. rewrite Hsrc. reflexivity.
Qed.

(** C10, as stated, fails: an image tag with another attribute before
    [src] is no match where it stands, but text of the shape inside it is.
    In [<img alt=\x22<img src=\x22 src=\x22real.jpg\x22>] the pattern matches
    inside the value of [alt]: the tag yields a change record and, with
    [image-2.webp] in the inventory, is modified. *)
Lemma tag_with_other_attribute_is_rewritten :
  match_img nested_fragment = None
  /\ replace_images_in_content nested_fragment [str "image-2.webp"] false []
     = (str "<img alt=" ++ [dq] ++ str "<img src=" ++ [dq]
        ++ str "image-2.webp" ++ [dq] ++ str "real.jpg" ++ [dq] ++ str ">",
        [ {| index := 1; old_url := str " src=";
             new_url := str "image-2.webp"; exists_ := true |} ])
  /\ snd (replace_images_in_content nested_fragment [str "image-2.webp"]
            false []) <> []
  /\ fst (replace_images_in_content nested_fragment [str "image-2.webp"]
            false []) <> nested_fragment.
Proof.
  split; [reflexivity|]. split; [vm_compute; reflexivity|].
  split; vm_compute; discriminate.
Qed.

Lemma no_shape_no_match (content : text) :
  (forall p, ~ shape_at content p) <-> finditer content = [].
Proof.
  pose proof (finditer_from_scanned content (length content) 0
                (Nat.le_sub_l _ _)) as Hscan.
  change (finditer_from (length content) (skipn 0 content) 0)
    with (finditer content) in Hscan.
  split.
  - intros Hnone.
    assert (scanned content 0 []) as Hnil
      by (apply scanned_nil; intros q _; apply Hnone).
    pose proof (scanned_unique content 0 _ _ Hscan Hnil) as H.
    destruct (finditer content); [reflexivity | discriminate H].
  - intros E p Hs. rewrite E in Hscan. cbn [map] in Hscan.
    inversion Hscan as [from Hnone|]; subst.
    exact (Hnone p (Nat.le_0_l p) Hs).
Qed.

(** C10, amended.  The Rewrite Engine counts and rewrites only occurrences
    of the literal shape [<img], white space, [src=\x22], a non-empty value
    without double quote, [\x22]: every change record belongs to a match
    of that shape, whose group 1 is the quoted value, and the output
    differs from the input inside these values only.  An image tag whose
    first attribute is not [src=\x22], one with another attribute before
    [src] or with a single-quoted [src], is no match where it stands.  A
    fragment in which the shape stands at no position, inside such a tag
    or elsewhere, gives no change record and comes out as it went in, and
    only such a fragment gives no record; the two fragments of the kind do
    so. *)
Theorem only_leading_double_quoted_src (content : text) (av : list text)
    (dry_run : bool) (folder_name : text) :
  let result := replace_images_in_content content av dry_run folder_name in
  length (snd result) = length (finditer content)
  /\ (forall (i : nat) (m : img_match),
        nth_error (finditer content) i = Some m ->
        exists ws url rest c,
          img_shape (skipn (m_start m) content) ws url rest
          /\ g1_start m
             = m_start m + length img_open + length ws + length img_src
          /\ g1_end m = g1_start m + length url
          /\ nth_error (snd result) i = Some c
          /\ old_url c = url)
  /\ content = weave (gaps content) (map old_url (snd result))
  /\ fst result = weave (gaps content) (map kept_url (snd result))
  /\ (forall ws rest,
        Forall (fun c => is_space c = true) ws ->
        stops is_space rest ->
        strip_prefix img_src rest = None ->
        match_img (img_open ++ ws ++ rest) = None)
  /\ (forall ws value,
        Forall (fun c => is_space c = true) ws ->
        match_img (img_open ++ ws ++ str "src='" ++ value) = None)
  /\ (snd result = [] <-> forall p, ~ shape_at content p)
  /\ ((forall p, ~ shape_at content p) -> result = (content, []))
  /\ replace_images_in_content class_fragment av dry_run folder_name
     = (class_fragment, [])
  /\ replace_images_in_content single_quote_fragment av dry_run folder_name
     = (single_quote_fragment, []).
Proof.
  cbn zeta.
  assert ((forall p, ~ shape_at content p) ->
          replace_images_in_content content av dry_run folder_name
          = (content, [])) as Hnone.
  { intros H. apply no_shape_no_match in H.
    unfold replace_images_in_content. rewrite H. reflexivity. }
  assert (snd (replace_images_in_content content av dry_run folder_name) = []
          <-> forall p, ~ shape_at content p) as Hiff.
  { split; [|intros H; rewrite (Hnone H); reflexivity].
    rewrite replace_images_in_content_weave. cbn [snd]. intros H.
    apply no_shape_no_match.
    destruct (finditer content); [reflexivity | discriminate H]. }
  revert Hnone Hiff.
  rewrite replace_images_in_content_weave. cbn [fst snd].
  intros Hnone Hiff.
  split; [apply records_length|]. split.
  - intros i m Hm.
    assert (In m (finditer_from (length content) (skipn 0 content) 0)) as Hin
      by (apply (nth_error_In _ i); exact Hm).
    destruct (finditer_from_shape content _ 0 m Hin)
      as (ws & url & rest & Hshape & Hs & He & _).
    exists ws, url, rest. eexists. split; [exact Hshape|].
    split; [exact Hs|]. split; [exact He|].
    split; [apply (records_nth content av _ 0 i m Hm)|].
    cbn [old_url]. unfold group1. rewrite He, Hs.
    set (p := img_open ++ ws ++ img_src).
    replace (m_start m + length img_open + length ws + length img_src)
      with (m_start m + length p) by (unfold p; rewrite !length_app; lia).
    rewrite <- Nat.add_assoc.
    rewrite <- (substring_skipn content (m_start m)).
    destruct Hshape as (-> & _).
    replace (img_open ++ ws ++ img_src ++ url ++ dq :: rest)
      with (p ++ url ++ dq :: rest)
      by (unfold p; rewrite <- !app_assoc; reflexivity).
    apply substring_middle.
  - split;
      [symmetry;
       apply (weave_old_urls content av _ 0 0 (finditer_spans_ok content))|].
    split; [reflexivity|].
    split; [exact match_img_other_attribute|]. split.
    + intros ws value Fws.
      apply match_img_other_attribute;
        [exact Fws | reflexivity | reflexivity].
    + split; [exact Hiff|]. split; [exact Hnone|]. split; reflexivity.
Qed.

(** ** The image pattern on small subjects *)

Example match_img_white_space :
  match_img (str "<img" ++ ["010"%char; "009"%char; " "%char]
             ++ str "src=" ++ [dq] ++ str "a.png" ++ [dq] ++ str " alt=x>")
  = Some (12, 17, 18).
Proof. reflexivity. Qed.

Example match_img_empty_value :
  match_img (str "<img src=" ++ [dq; dq] ++ str ">") = None.
Proof. reflexivity. Qed.

Example match_img_unclosed_value :
  match_img (str "<img src=" ++ [dq] ++ str "a.png>") = None.
Proof. reflexivity. Qed.

Example match_img_no_white_space :
  match_img (str "<imgsrc=" ++ [dq] ++ str "a.png" ++ [dq] ++ str ">") = None.
Proof. reflexivity. Qed.

Example finditer_example :
  finditer example_fragment
  = [ {| m_start := 0; g1_start := 10; g1_end := 29; m_end := 30 |};
      {| m_start := 32; g1_start := 42; g1_end := 61; m_end := 62 |} ].
Proof. reflexivity. Qed.

Example extract_example :
  extract_content_section (example_html example_fragment)
  = (43%Z, 106%Z, example_fragment).
Proof. reflexivity. Qed.

(** A closing [</div>] that no [</body>] follows belongs to the section. *)
Example extract_inner_div :
  extract_content_section
    (str "x" ++ content_open ++ str "A</div> B</div>" ++ ["010"%char]
     ++ str "</body>")
  = (22%Z, 31%Z, str "A</div> B").
Proof. reflexivity. Qed.

(** Names with the same number keep the order of the directory listing. *)
Example sorted_by_key_stable :
  sorted_by_key image_sort_key
    [str "image-10.webp"; str "image-2.webp"; str "image-1.webp";
     str "image-02.webp"]
  = Ok [str "image-1.webp"; str "image-2.webp"; str "image-02.webp";
        str "image-10.webp"].
Proof. reflexivity. Qed.

(** A name without digits after [image-] has no sort key. *)
Example image_sort_key_raises :
  image_sort_key (str "image-cover.webp") = Raise AttributeError.
Proof. reflexivity. Qed.

(** * Further properties *)

(** ** The Rewrite Engine without a file *)

Lemma records_none_present (content : text) (av : list text)
    (ms : list img_match) :
  forall i : nat,
    (forall k, k < length ms -> in_list (image_name (i + k + 2)) av = false) ->
    Forall (fun c => exists_ c = false) (records content av i ms).
Proof.
  induction ms as [|m ms IH]; intros i H; [constructor|].
  cbn [records]. constructor.
  - cbn [exists_]. rewrite <- (Nat.add_0_r i) at 1. apply H. simpl. lia.
  - apply IH. intros k Hk.
    replace (S i + k) with (i + S k) by lia. apply H. simpl. lia.
Qed.

(** X2.  When none of the expected file names is in the inventory, as with
    an empty folder, the Rewrite Engine returns the fragment as it is, and
    every change record has [exists] false. *)
Theorem nothing_available_nothing_replaced (content : text)
    (av : list text) (dry_run : bool) (folder_name : text)
    (Hnone : forall i, i < length (finditer content) ->
                       in_list (image_name (i + 2)) av = false) :
  fst (replace_images_in_content content av dry_run folder_name) = content
  /\ Forall (fun c => exists_ c = false)
       (snd (replace_images_in_content content av dry_run folder_name))
  /\ length (snd (replace_images_in_content content av dry_run folder_name))
     = length (finditer content).
Proof.
  rewrite replace_images_in_content_weave. cbn [fst snd].
  split; [|split].
  - rewrite (kept_url_unchanged content av (finditer content) 0).
    + apply (weave_old_urls content av _ 0 0 (finditer_spans_ok content)).
    + intros k m Hm Hin. exfalso.
      assert (k < length (finditer content))
        by (apply nth_error_Some; congruence).
      cbn [Nat.add] in Hin.
      rewrite (Hnone k) in Hin by assumption. discriminate Hin.
  - apply records_none_present. exact Hnone.
  - apply records_length.
Qed.

Lemma nothing_available_nothing_replaced_witness :
  fst (replace_images_in_content example_fragment [] false [])
  = example_fragment.
Proof.
  apply (nothing_available_nothing_replaced example_fragment [] false []).
  intros i _. reflexivity.
Defined.

(** ** The Article Processor and the loop of [main] *)

(** Whatever the processor returns in preview mode, it returns with the
    file system it was given. *)
Lemma process_article_preview (fs fs' : node) (folder : path)
    (result : article_result) :
  process_article fs folder true = Ok (result, fs') -> fs' = fs.
Proof.
  unfold process_article.
  destruct (read_file fs (folder ++ [article_html])) as [html|];
    [|discriminate].
  destruct (get_available_images fs folder) as [av|]; [|discriminate].
  cbn [bind].
  destruct (extract_content_section html) as [[start end_] content].
  destruct (start =? -1)%Z; [intros H; injection H as _ <-; reflexivity|].
  destruct (replace_images_in_content content av true (path_name folder))
    as [new_content changes].
  cbn [negb andb]. intros H. injection H as _ <-. reflexivity.
Qed.

(** The processor reports at most one error for an article. *)
Lemma article_result_errors (fs fs' : node) (folder : path)
    (dry_run : bool) (result : article_result) :
  process_article fs folder dry_run = Ok (result, fs') ->
  length (r_errors result) <= 1
  /\ r_images_in_html result = length (r_changes result).
Proof.
  unfold process_article. intros Hrun.
  destruct (read_file fs (folder ++ [article_html])) as [html|];
    [|discriminate].
  destruct (get_available_images fs folder) as [av|]; [|discriminate].
  cbn [bind] in Hrun.
  destruct (extract_content_section html) as [[start end_] content].
  destruct (start =? -1)%Z.
  - injection Hrun as <- _. simpl. split; [lia | reflexivity].
  - destruct (replace_images_in_content content av dry_run (path_name folder))
      as [new_content changes].
    assert (r_errors result = mismatch_errors changes
            /\ r_images_in_html result = length (r_changes result))
      as [-> ->].
    { destruct (negb dry_run && negb (length changes =? 0)).
      - destruct (write_file (folder ++ [article_html]) _ fs);
          [|discriminate]. cbn [bind] in Hrun. injection Hrun as <- _.
        split; reflexivity.
      - injection Hrun as <- _. split; reflexivity. }
    split; [|reflexivity]. rewrite mismatch_errors_missing.
    destruct (filter (fun c => negb (exists_ c)) changes); simpl; lia.
Qed.

Lemma missing_message_last (missing : list change) :
  last (missing_message missing) " "%char = "]"%char.
Proof.
  unfold missing_message, repr_list.
  rewrite !app_assoc. apply last_last.
Qed.

(** X3.  The result the Article Processor returns is consistent: the count
    of images in the HTML is the number of change records, the count of
    available images is the size of the inventory, there is at most one
    error, the missing-content error comes with no change record, and
    without error every change record has [exists] true. *)
Theorem article_result_consistent (fs fs' : node) (folder : path)
    (dry_run : bool) (result : article_result)
    (Hrun : process_article fs folder dry_run = Ok (result, fs')) :
  r_images_in_html result = length (r_changes result)
  /\ (exists av, get_available_images fs folder = Ok av
                 /\ r_images_available result = length av)
  /\ length (r_errors result) <= 1
  /\ r_folder result = path_name folder
  /\ (r_errors result = [str "Sezione .content non trovata"] ->
      r_changes result = [])
  /\ (r_errors result = [] ->
      Forall (fun c => exists_ c = true) (r_changes result)).
Proof.
  unfold process_article in Hrun.
  destruct (read_file fs (folder ++ [article_html])) as [html|];
    [|discriminate].
  destruct (get_available_images fs folder) as [av|]; [|discriminate].
  cbn [bind] in Hrun.
  destruct (extract_content_section html) as [[start end_] content].
  destruct (start =? -1)%Z.
  - injection Hrun as <- _.
    cbn [r_images_in_html r_changes r_errors r_folder r_images_available].
    split; [reflexivity|]. split; [exists av; split; reflexivity|].
    split; [simpl; lia|]. split; [reflexivity|].
    split; [reflexivity | discriminate].
  - destruct (replace_images_in_content content av dry_run (path_name folder))
      as [new_content changes] eqn:Erw.
    assert (result
            = {| r_folder := path_name folder; r_path := path_str folder;
                 r_changes := changes;
                 r_errors := mismatch_errors changes;
                 r_images_in_html := length changes;
                 r_images_available := length av |}) as ->.
    { destruct (negb dry_run && negb (length changes =? 0)).
      - destruct (write_file (folder ++ [article_html]) _ fs);
          [|discriminate]. cbn [bind] in Hrun. injection Hrun as <- _.
        reflexivity.
      - injection Hrun as <- _. reflexivity. }
    cbn [r_images_in_html r_changes r_errors r_folder r_images_available].
    rewrite mismatch_errors_missing.
    split; [reflexivity|]. split; [exists av; split; reflexivity|].
    destruct (filter (fun c => negb (exists_ c)) changes) as [|c l] eqn:Ef.
    + split; [simpl; lia|]. split; [reflexivity|]. split; [discriminate|].
      intros _. apply Forall_forall. intros c Hc.
      destruct (exists_ c) eqn:Ec; [reflexivity|].
      assert (In c (filter (fun c => negb (exists_ c)) changes)) as Hin
        by (apply filter_In; split; [exact Hc | rewrite Ec; reflexivity]).
      rewrite Ef in Hin. destruct Hin.
    + split; [simpl; lia|]. split; [reflexivity|]. split; [|discriminate].
      intros H. exfalso. injection H as H.
      apply (f_equal (fun l => last l " "%char)) in H.
      rewrite missing_message_last in H. discriminate H.
Qed.

Lemma article_result_consistent_witness :
  exists result fs',
    process_article example_fs example_post false = Ok (result, fs')
    /\ r_images_in_html result = length (r_changes result)
    /\ length (r_errors result) <= 1.
Proof.
  destruct (process_article example_fs example_post false)
    as [[result fs']|] eqn:E; [|discriminate E].
  exists result, fs'. split; [reflexivity|].
  destruct (article_result_consistent example_fs fs' example_post false
              result E) as (H1 & _ & H3 & _).
  split; assumption.
Defined.

(** The loop of [main] is the articles processed one after the other, with
    the counts of their results added up. *)
Lemma main_loop_process_all (folders : list path) (dry_run : bool) :
  forall (fs : node) (total_changes total_errors : nat),
    main_loop fs folders dry_run total_changes total_errors
    = r <- process_all fs folders dry_run ;;
      Ok (total_changes + sum_of (fun x => length (r_changes x)) (fst r),
          total_errors + sum_of (fun x => length (r_errors x)) (fst r),
          snd r).
Proof.
  induction folders as [|folder folders IH]; intros fs tc te.
  - cbn [main_loop process_all bind fst snd sum_of fold_right].
    rewrite !Nat.add_0_r. reflexivity.
  - cbn [main_loop process_all].
    destruct (process_article fs folder dry_run) as [[result fs1]|];
      [|reflexivity].
    cbn [bind fst snd]. rewrite IH.
    destruct (process_all fs1 folders dry_run) as [[results fs2]|];
      [|reflexivity].
    cbn [bind fst snd sum_of fold_right].
    assert (forall (A : Type) (l : list A) (n : nat),
              match l with [] => n | _ :: _ => n + length l end
              = n + length l) as Hadd
      by (intros A l n; destruct l; simpl; lia).
    rewrite !Hadd, !Nat.add_assoc. reflexivity.
Qed.

Lemma process_all_preview (folders : list path) :
  forall (fs fs' : node) (results : list article_result),
    process_all fs folders true = Ok (results, fs') -> fs' = fs.
Proof.
  induction folders as [|folder folders IH]; intros fs fs' results H.
  - injection H as _ <-. reflexivity.
  - cbn [process_all] in H.
    destruct (process_article fs folder true) as [[result fs1]|] eqn:E;
      [|discriminate].
    apply process_article_preview in E. subst fs1. cbn [bind snd] in H.
    destruct (process_all fs folders true) as [[rs fs2]|] eqn:E2;
      [|discriminate].
    cbn [bind fst snd] in H. injection H as _ <-.
    exact (IH fs fs2 rs E2).
Qed.

Lemma process_all_errors (folders : list path) (dry_run : bool) :
  forall (fs fs' : node) (results : list article_result),
    process_all fs folders dry_run = Ok (results, fs') ->
    length results = length folders
    /\ sum_of (fun x => length (r_errors x)) results <= length folders.
Proof.
  induction folders as [|folder folders IH]; intros fs fs' results H.
  - injection H as <- _. split; [reflexivity | simpl; lia].
  - cbn [process_all] in H.
    destruct (process_article fs folder dry_run) as [[result fs1]|] eqn:E;
      [|discriminate].
    cbn [bind snd] in H.
    destruct (process_all fs1 folders dry_run) as [[rs fs2]|] eqn:E2;
      [|discriminate].
    cbn [bind fst snd] in H. injection H as <- _.
    destruct (IH fs1 fs2 rs E2) as [Hl Hs].
    destruct (article_result_errors fs fs1 folder dry_run result E).
    cbn [length sum_of fold_right].
    fold (sum_of (fun x => length (r_errors x)) rs). split; lia.
Qed.

(** X4.  A whole run in preview mode, when it completes, leaves the file
    system exactly as it found it. *)
Theorem preview_run_changes_nothing (fs fs' : node) (base_path : path)
    (total_changes total_errors : nat)
    (Hrun : main fs base_path true = Ok (total_changes, total_errors, fs')) :
  fs' = fs.
Proof.
  unfold main in Hrun.
  destruct (find_article_folders fs base_path) as [folders|];
    [|discriminate].
  cbn [bind] in Hrun. rewrite main_loop_process_all in Hrun.
  destruct (process_all fs folders true) as [[results fs1]|] eqn:E;
    [|discriminate].
  cbn [bind fst snd] in Hrun. injection Hrun as _ _ <-.
  exact (process_all_preview folders fs fs1 results E).
Qed.

Lemma preview_run_changes_nothing_witness :
  main example_fs example_base true = Ok (2, 2, example_fs).
Proof.
  destruct (main example_fs example_base true) as [[[tc te] fs']|] eqn:E;
    [|discriminate E].
  pose proof (preview_run_changes_nothing example_fs fs' example_base tc te
                E) as ->.
  rewrite <- E. reflexivity.
Defined.

(** X5.  The totals a completed run reports are the sums, over the folders
    the Folder Scanner returned, of the number of change records and of the
    number of errors of each article; there is at most one error per
    folder. *)
Theorem run_totals_are_sums (fs fs' : node) (base_path : path)
    (dry_run : bool) (total_changes total_errors : nat)
    (Hrun : main fs base_path dry_run
            = Ok (total_changes, total_errors, fs')) :
  exists folders results,
    find_article_folders fs base_path = Ok folders
    /\ process_all fs folders dry_run = Ok (results, fs')
    /\ length results = length folders
    /\ total_changes = sum_of r_images_in_html results
    /\ total_changes = sum_of (fun r => length (r_changes r)) results
    /\ total_errors = sum_of (fun r => length (r_errors r)) results
    /\ total_errors <= length folders.
Proof.
  unfold main in Hrun.
  destruct (find_article_folders fs base_path) as [folders|];
    [|discriminate].
  cbn [bind] in Hrun. rewrite main_loop_process_all in Hrun.
  destruct (process_all fs folders dry_run) as [[results fs1]|] eqn:E;
    [|discriminate].
  cbn [bind fst snd Nat.add] in Hrun. injection Hrun as <- <- <-.
  destruct (process_all_errors folders dry_run fs fs1 results E) as [Hl He].
  exists folders, results. split; [reflexivity|]. split; [exact E|].
  split; [exact Hl|]. split; [|split; [reflexivity|split; [reflexivity|]]].
  - clear Hl He. revert fs fs1 results E.
    induction folders as [|folder folders IH]; intros fs fs1 results E.
    + injection E as <- _. reflexivity.
    + cbn [process_all] in E.
      destruct (process_article fs folder dry_run) as [[result fs2]|] eqn:E1;
        [|discriminate].
      cbn [bind snd] in E.
      destruct (process_all fs2 folders dry_run) as [[rs fs3]|] eqn:E2;
        [|discriminate].
      cbn [bind fst snd] in E. injection E as <- _.
      cbn [sum_of fold_right].
      fold (sum_of (fun r => length (r_changes r)) rs).
      fold (sum_of r_images_in_html rs).
      rewrite (IH fs2 fs3 rs E2).
      destruct (article_result_errors fs fs2 folder dry_run result E1)
        as [_ ->]. reflexivity.
  - exact He.
Qed.

Lemma run_totals_are_sums_witness :
  exists folders results,
    find_article_folders example_fs example_base = Ok folders
    /\ length results = length folders
    /\ sum_of r_images_in_html results = 2
    /\ sum_of (fun r => length (r_errors r)) results = 2.
Proof.
  destruct (main example_fs example_base false) as [[[tc te] fs']|] eqn:E;
    [|discriminate E].
  destruct (run_totals_are_sums example_fs fs' example_base false tc te E)
    as (folders & results & H1 & _ & H3 & H4 & _ & H6 & _).
  exists folders, results.
  split; [exact H1|]. split; [exact H3|].
  vm_compute in E. injection E as Htc Hte _.
  rewrite <- H4, <- H6, <- Htc, <- Hte. split; reflexivity.
Defined.

(** X6.  A base directory with neither [articles] nor [feedback-friday]
    gives a run over no folder: no change, no error, and the file system as
    it was. *)
Theorem run_without_subdirectories (fs : node) (base_path : path)
    (dry_run : bool)
    (Harticles : path_exists fs (base_path ++ [str "articles"]) = false)
    (Hfriday : path_exists fs (base_path ++ [str "feedback-friday"]) = false) :
  find_article_folders fs base_path = Ok []
  /\ main fs base_path dry_run = Ok (0, 0, fs).
Proof.
  assert (find_article_folders fs base_path = Ok []) as H.
  { unfold find_article_folders, subdirs. cbn [scan_subdirs].
    unfold scan_subdir. rewrite Harticles. cbn [bind app].
    rewrite Hfriday. reflexivity. }
  split; [exact H|]. unfold main. rewrite H. reflexivity.
Qed.

Lemma run_without_subdirectories_witness :
  main gallery_fs gallery false = Ok (0, 0, gallery_fs).
Proof.
  apply (run_without_subdirectories gallery_fs gallery false);
    reflexivity.
Defined.

(** ** The errors of the Image Inventory *)

Lemma match_image_number_some (s digits : text) :
  match_image_number s = Some digits ->
  exists d rest, s = image_prefix ++ d :: rest /\ is_digit d = true.
Proof.
  rewrite match_image_number_direct_eq. unfold match_image_number_direct.
  destruct (strip_prefix image_prefix s) as [s1|] eqn:E; [|discriminate].
  apply strip_prefix_inv in E. subst s.
  destruct s1 as [|c s1]; [discriminate|]. cbn [span].
  destruct (is_digit c) eqn:Ec; [|discriminate].
  intros _. exists c, s1. split; [reflexivity | exact Ec].
Qed.

Lemma match_image_number_digit (d : ascii) (rest : text) :
  is_digit d = true ->
  match_image_number (image_prefix ++ d :: rest) <> None.
Proof.
  intros Hd. rewrite match_image_number_direct_eq.
  unfold match_image_number_direct. rewrite strip_prefix_app.
  cbn [span]. rewrite Hd. destruct (span is_digit rest). discriminate.
Qed.

(** The search finds a number exactly in the names that have one. *)
Lemma search_image_number_has_number (s : text) :
  search_image_number s <> None <-> has_number s.
Proof.
  split.
  - induction s as [|c s IH]; cbn [search_image_number]; intros H.
    + destruct (match_image_number []) as [ds|] eqn:E; [|congruence].
      destruct (match_image_number_some [] ds E) as (d & rest & Hs & Hd).
      exists [], d, rest. split; assumption.
    + destruct (match_image_number (c :: s)) as [ds|] eqn:E.
      * destruct (match_image_number_some _ ds E) as (d & rest & Hs & Hd).
        exists [], d, rest. split; assumption.
      * destruct (IH H) as (pre & d & rest & -> & Hd).
        exists (c :: pre), d, rest. split; [reflexivity | exact Hd].
  - intros (pre & d & rest & -> & Hd).
    induction pre as [|c pre IH].
    + cbn [app].
      pose proof (match_image_number_digit d rest Hd) as Hm.
      destruct (image_prefix ++ d :: rest) as [|x t] eqn:Es;
        cbn [search_image_number];
        destruct (match_image_number _); congruence.
    + cbn [app search_image_number].
      destruct (match_image_number (c :: pre ++ image_prefix ++ d :: rest));
        [discriminate | exact IH].
Qed.

Lemma image_sort_key_raises_only (x : text) (e : exn) :
  image_sort_key x = Raise e -> e = AttributeError.
Proof.
  unfold image_sort_key. destruct (search_image_number x); congruence.
Qed.

Lemma map_res_raises {A B : Type} (key : A -> res B) (e : exn)
    (l : list A) (x : A) :
  (forall y e', key y = Raise e' -> e' = e) ->
  In x l -> key x = Raise e -> map_res key l = Raise e.
Proof.
  intros Honly. induction l as [|y l IH]; intros Hin Hx; [destruct Hin|].
  cbn [map_res]. destruct (key y) as [b|e'] eqn:Ey.
  - cbn [bind]. destruct Hin as [->|Hin]; [congruence|].
    rewrite (IH Hin Hx). reflexivity.
  - cbn [bind]. rewrite (Honly y e' Ey). reflexivity.
Qed.

Lemma image_name_number_or_raise (fs : node) (folder : path)
    (entries : list (text * node)) (name : text) :
  lookup_path folder fs = Some (Dir entries) ->
  In name (map fst entries) ->
  is_image_name name = true ->
  ~ has_number name ->
  get_available_images fs folder = Raise AttributeError.
Proof.
  intros Hdir Hin Himage Hnone.
  rewrite (get_available_images_dir fs folder entries Hdir).
  unfold sorted_by_key.
  rewrite (map_res_raises image_sort_key AttributeError _ name).
  - reflexivity.
  - exact image_sort_key_raises_only.
  - apply filter_In. split; assumption.
  - unfold image_sort_key.
    destruct (search_image_number name) as [ds|] eqn:E; [|reflexivity].
    exfalso. apply Hnone. apply search_image_number_has_number.
    congruence.
Qed.

(** X7.  A folder that holds an entry whose name starts with [image-] and
    ends with [.webp] but in which no [image-] is followed by a digit makes
    the Image Inventory raise [AttributeError]; the Article Processor, once
    it has read the article, raises it too, and so does the loop of [main],
    whatever folders remain. *)
Theorem image_name_without_number_raises (fs : node) (folder : path)
    (entries : list (text * node)) (name : text)
    (Hdir : lookup_path folder fs = Some (Dir entries))
    (Hin : In name (map fst entries))
    (Himage : is_image_name name = true)
    (Hnone : ~ has_number name) :
  get_available_images fs folder = Raise AttributeError
  /\ forall (dry_run : bool) (html : text),
       read_file fs (folder ++ [article_html]) = Ok html ->
       process_article fs folder dry_run = Raise AttributeError
       /\ forall rest total_changes total_errors,
            main_loop fs (folder :: rest) dry_run total_changes total_errors
            = Raise AttributeError.
Proof.
  pose proof (image_name_number_or_raise fs folder entries name
                Hdir Hin Himage Hnone) as H.
  split; [exact H|]. intros dry_run html Hread.
  assert (process_article fs folder dry_run = Raise AttributeError) as Hp
    by (unfold process_article; rewrite Hread; cbn [bind]; rewrite H;
        reflexivity).
  split; [exact Hp|]. intros rest tc te. cbn [main_loop]. rewrite Hp.
  reflexivity.
Qed.

Lemma image_name_without_number_raises_witness :
  get_available_images
    (Dir [(str "a", Dir [(str "image-cover.webp", File [])])]) [str "a"]
  = Raise AttributeError.
Proof.
  apply (image_name_without_number_raises
           (Dir [(str "a", Dir [(str "image-cover.webp", File [])])])
           [str "a"] [(str "image-cover.webp", File [])]
           (str "image-cover.webp") eq_refl (or_introl eq_refl) eq_refl).
  intros H. apply search_image_number_has_number in H. apply H. reflexivity.
Defined.

(** X8.  On a directory the Image Inventory returns exactly when every
    entry name that starts with [image-] and ends with [.webp] has a digit
    after some [image-]; it then returns those names, each as often as the
    directory lists it, in ascending order of their sort keys. *)
Theorem inventory_returns_iff_numbered (fs : node) (folder : path)
    (entries : list (text * node))
    (Hdir : lookup_path folder fs = Some (Dir entries)) :
  ((exists images, get_available_images fs folder = Ok images)
   <-> forall name, In name (map fst entries) ->
                    is_image_name name = true -> has_number name)
  /\ forall images,
       get_available_images fs folder = Ok images ->
       Permutation images (filter is_image_name (map fst entries))
       /\ exists key : text -> Z,
            (forall x, In x images -> image_sort_key x = Ok (key x))
            /\ StronglySorted (fun x y => (key x <= key y)%Z) images.
Proof.
  set (names := filter is_image_name (map fst entries)).
  set (key := fun x => match image_sort_key x with
                       | Ok z => z
                       | Raise _ => 0%Z
                       end).
  assert ((forall name, In name (map fst entries) ->
                        is_image_name name = true -> has_number name) ->
          forall x, In x names -> image_sort_key x = Ok (key x)) as Hkey.
  { intros Hall x Hx. apply filter_In in Hx. destruct Hx as [Hin Himg].
    specialize (Hall x Hin Himg).
    apply search_image_number_has_number in Hall.
    unfold key, image_sort_key.
    destruct (search_image_number x); [reflexivity | congruence]. }
  assert ((exists images, get_available_images fs folder = Ok images) ->
          forall name, In name (map fst entries) ->
                       is_image_name name = true -> has_number name) as Hall.
  { intros (images & Hok) name Hin Himg.
    destruct (search_image_number name) as [ds|] eqn:E.
    - apply search_image_number_has_number. congruence.
    - exfalso.
      assert (~ has_number name) as Hn
        by (intros H; apply search_image_number_has_number in H;
            congruence).
      pose proof (image_name_number_or_raise fs folder entries name
                    Hdir Hin Himg Hn) as Hr.
      rewrite Hr in Hok. discriminate Hok. }
  split.
  - split; [exact Hall|]. intros H.
    rewrite (get_available_images_dir fs folder entries Hdir).
    destruct (sorted_by_key_total image_sort_key key names (Hkey H))
      as (images & Hs & _). exists images. exact Hs.
  - intros images Hok.
    pose proof (Hkey (Hall (ex_intro _ images Hok))) as Hk.
    rewrite (get_available_images_dir fs folder entries Hdir) in Hok.
    destruct (sorted_by_key_total image_sort_key key names Hk)
      as (images' & Hs & Hperm & Hsorted).
    fold names in Hok. rewrite Hs in Hok. injection Hok as <-.
    split; [exact Hperm|]. exists key. split; [|exact Hsorted].
    intros x Hx. apply Hk. apply (Permutation_in _ Hperm). exact Hx.
Qed.

Lemma inventory_returns_iff_numbered_witness :
  Permutation
    [str "image-1.webp"; str "image-2.webp"; str "image-10.webp"]
    (filter is_image_name (map fst gallery_entries)).
Proof.
  destruct (inventory_returns_iff_numbered gallery_fs gallery gallery_entries
              eq_refl) as [_ H].
  exact (proj1 (H _ eq_refl)).
Defined.

(** ** The folders the Folder Scanner hands to the Article Processor *)

Lemma lookup_path_app (p q : path) :
  forall fs : node,
    lookup_path (p ++ q) fs
    = match lookup_path p fs with
      | Some d => lookup_path q d
      | None => None
      end.
Proof.
  induction p as [|c p IH]; intros fs; [reflexivity|].
  cbn [app lookup_path]. destruct fs as [|entries|]; try reflexivity.
  destruct (lookup_entry c entries); [apply IH | reflexivity].
Qed.

Lemma scan_subdir_returns (fs : node) (base_path : path) (subdir : text)
    (found : list path) :
  scan_subdir fs base_path subdir = Ok found ->
  path_exists fs (base_path ++ [subdir]) = true ->
  is_dir fs (base_path ++ [subdir]) = true.
Proof.
  unfold scan_subdir, iterdir, path_exists, is_dir.
  destruct (lookup_path (base_path ++ [subdir]) fs) as [[c|es|]|];
    cbn [bind]; intros H1 H2; (reflexivity || discriminate).
Qed.

Lemma scan_subdirs_returns (fs : node) (base_path : path)
    (names : list text) :
  forall folders result : list path,
    scan_subdirs fs base_path names folders = Ok result ->
    forall subdir, In subdir names ->
      path_exists fs (base_path ++ [subdir]) = true ->
      is_dir fs (base_path ++ [subdir]) = true.
Proof.
  induction names as [|n names IH]; intros folders result H subdir Hin;
    [destruct Hin|].
  cbn [scan_subdirs] in H.
  destruct (scan_subdir fs base_path n) as [found|] eqn:E; [|discriminate].
  cbn [bind] in H. destruct Hin as [<-|Hin].
  - exact (scan_subdir_returns fs base_path n found E).
  - exact (IH _ _ H subdir Hin).
Qed.

(** What the scanner returns are the sorted folders of the two
    subdirectories. *)
Lemma find_article_folders_returns (fs : node) (base_path : path)
    (folders : list path) :
  find_article_folders fs base_path = Ok folders ->
  folders = sorted path_ltb (article_folders fs base_path).
Proof.
  unfold find_article_folders. intros H.
  destruct (scan_subdirs fs base_path subdirs []) as [l|] eqn:E;
    [|discriminate].
  cbn [bind] in H. injection H as <-.
  rewrite (scan_subdirs_folders_in fs base_path subdirs []
             (scan_subdirs_returns fs base_path subdirs [] l E)) in E.
  injection E as <-. reflexivity.
Qed.

Lemma article_folders_in (fs : node) (base_path folder : path) :
  In folder (article_folders fs base_path) ->
  exists subdir entries name,
    In subdir subdirs
    /\ lookup_path (base_path ++ [subdir]) fs = Some (Dir entries)
    /\ In name (map fst entries)
    /\ folder = base_path ++ [subdir; name]
    /\ is_dir fs folder = true
    /\ path_exists fs (folder ++ [article_html]) = true.
Proof.
  unfold article_folders. intros Hp. apply in_flat_map in Hp.
  destruct Hp as (subdir & Hs & Hp). unfold folders_in in Hp.
  destruct (lookup_path (base_path ++ [subdir]) fs)
    as [[content|entries|]|] eqn:El; try destruct Hp.
  apply filter_In in Hp. destruct Hp as [Hin Hq].
  apply in_map_iff in Hin. destruct Hin as (e & <- & He).
  apply andb_prop in Hq. destruct Hq as [Hd Ha].
  exists subdir, entries, (fst e). repeat split; try assumption.
  apply in_map. exact He.
Qed.

(** X9.  Every folder the Folder Scanner returns lies exactly two levels
    below the base directory, in [articles] or [feedback-friday], is a
    directory and lists an entry [article.html].  So on such a folder the
    listing of the Image Inventory does not raise, and the Article
    Processor raises neither [FileNotFoundError] nor [NotADirectoryError]:
    the scan has ruled out the missing article and the folder that is no
    directory. *)
Theorem scanned_folders_are_processable (fs : node) (base_path : path)
    (folders : list path) (folder : path)
    (Hscan : find_article_folders fs base_path = Ok folders)
    (Hin : In folder folders) :
  (exists subdir name,
     In subdir [str "articles"; str "feedback-friday"]
     /\ folder = base_path ++ [subdir; name])
  /\ (exists entries,
        lookup_path folder fs = Some (Dir entries)
        /\ In (str "article.html") (map fst entries))
  /\ (exists children, iterdir fs folder = Ok children)
  /\ read_file fs (folder ++ [article_html]) <> Raise FileNotFoundError
  /\ read_file fs (folder ++ [article_html]) <> Raise NotADirectoryError
  /\ forall dry_run,
       process_article fs folder dry_run <> Raise FileNotFoundError
       /\ process_article fs folder dry_run <> Raise NotADirectoryError.
Proof.
  rewrite (find_article_folders_returns fs base_path folders Hscan) in Hin.
  apply (Permutation_in _ (sorted_perm _ path_ltb _)) in Hin.
  destruct (article_folders_in fs base_path folder Hin)
    as (subdir & es & name & Hs & _ & _ & Hf & Hd & Ha).
  unfold is_dir in Hd. unfold path_exists in Ha.
  destruct (lookup_path folder fs) as [[c|entries|]|] eqn:El;
    try discriminate Hd.
  rewrite lookup_path_app, El in Ha. cbn [lookup_path] in Ha.
  destruct (lookup_entry article_html entries) as [d|] eqn:Ee;
    [|discriminate Ha].
  assert (read_file fs (folder ++ [article_html])
          = match d with
            | File content => Ok (universal_newlines content)
            | Dir _ => Raise IsADirectoryError
            | Undecodable => Raise UnicodeDecodeError
            end) as Hread.
  { unfold read_file. rewrite lookup_path_app, El. cbn [lookup_path].
    rewrite Ee. destruct d; reflexivity. }
  assert (forall dry_run e,
             process_article fs folder dry_run = Raise e ->
             e = IsADirectoryError \/ e = UnicodeDecodeError
             \/ e = AttributeError) as Hraise.
  { intros dry_run e. unfold process_article. rewrite Hread.
    destruct d as [html| |]; cbn [bind];
      [|intros H; left; congruence | intros H; right; left; congruence].
    destruct (get_available_images fs folder) as [av|e'] eqn:Eg; cbn [bind].
    - destruct (extract_content_section (universal_newlines html))
        as [[start end_] content].
      destruct (start =? -1)%Z; [discriminate|].
      destruct (replace_images_in_content content av dry_run
                  (path_name folder)) as [new_content changes].
      destruct (negb dry_run && negb (length changes =? 0));
        [|discriminate].
      destruct (write_file_after_read (folder ++ [article_html])
                  (slice_to (universal_newlines html) start ++ new_content
                   ++ slice_from (universal_newlines html) end_)
                  fs (universal_newlines html)) as (fs' & Hw & _).
      { unfold read_file. rewrite lookup_path_app, El. cbn [lookup_path].
        rewrite Ee. reflexivity. }
      rewrite Hw. discriminate.
    - intros H. right. right. injection H as <-.
      rewrite (get_available_images_dir fs folder entries El) in Eg.
      unfold sorted_by_key in Eg.
      destruct (map_res image_sort_key _) as [keys|e''] eqn:Em;
        [discriminate|].
      cbn [bind] in Eg. injection Eg as <-.
      clear - Em. revert Em.
      induction (filter is_image_name (map fst entries)) as [|x l IH];
        [discriminate|].
      cbn [map_res]. destruct (image_sort_key x) as [z|e1] eqn:Ex.
      + cbn [bind]. destruct (map_res image_sort_key l) as [ys|e2];
          [discriminate|].
        cbn [bind]. intros H. injection H as <-. apply IH. reflexivity.
      + cbn [bind]. intros H. injection H as <-.
        exact (image_sort_key_raises_only x e1 Ex). }
  split; [exists subdir, name; split; assumption|].
  split.
  { exists entries. split; [reflexivity|].
    clear - Ee. induction entries as [|[n x] entries IH]; [discriminate|].
    cbn [lookup_entry] in Ee. cbn [map fst].
    destruct (text_eqb article_html n) eqn:E.
    - left. apply text_eqb_eq in E. symmetry. exact E.
    - right. exact (IH Ee). }
  split; [unfold iterdir; rewrite El; eexists; reflexivity|].
  split; [rewrite Hread; destruct d; discriminate|].
  split; [rewrite Hread; destruct d; discriminate|].
  intros dry_run. split; intros H;
    destruct (Hraise dry_run _ H) as [H'|[H'|H']]; discriminate H'.
Qed.

Lemma scanned_folders_are_processable_witness :
  find_article_folders two_fs example_base
  = Ok [[str "site"; str "articles"; str "alpha"];
        [str "site"; str "articles"; str "zeta"];
        [str "site"; str "feedback-friday"; str "week-1"];
        [str "site"; str "feedback-friday"; str "week-2"]]
  /\ process_article two_fs [str "site"; str "articles"; str "zeta"] false
     <> Raise FileNotFoundError.
Proof.
  split; [reflexivity|].
  refine (proj1 (proj2 (proj2 (proj2 (proj2 (proj2
    (scanned_folders_are_processable two_fs example_base _
       [str "site"; str "articles"; str "zeta"] eq_refl _))))) false)).
  right. left. reflexivity.
Defined.

(** ** Expected file names and the Image Inventory *)

(** X10.  The file name the Rewrite Engine expects for a number is a name
    the Image Inventory keeps, and the inventory's sort key reads that
    number back from it; different numbers give different names, so no two
    occurrences of a fragment expect the same file. *)
Theorem expected_name_round_trip (n m : nat) :
  is_image_name (image_name n) = true
  /\ image_sort_key (image_name n) = Ok (Z.of_nat n)
  /\ (image_name n = image_name m -> n = m).
Proof.
  pose proof (string_of_uint_digits (Nat.to_uint n)) as Hdig.
  fold (str_of_nat n) in Hdig.
  pose proof (str_of_nat_not_nil n) as Hne.
  split; [|split].
  - unfold is_image_name, image_name. fold image_prefix. fold webp_suffix.
    unfold startswith. rewrite strip_prefix_app. cbn [andb].
    unfold endswith. rewrite app_assoc.
    rewrite (length_app (image_prefix ++ str_of_nat n) webp_suffix).
    replace (length (image_prefix ++ str_of_nat n) + length webp_suffix
             - length webp_suffix)
      with (length (image_prefix ++ str_of_nat n)) by lia.
    rewrite skipn_app_length, text_eqb_refl.
    rewrite Bool.andb_true_r. apply Nat.leb_le. lia.
  - unfold image_name. fold image_prefix.
    destruct (str_of_nat n) as [|d ds] eqn:Es; [congruence|].
    inversion Hdig as [|d' ds' Hd Hds]; subst.
    cbn [app]. rewrite (image_sort_key_number d (ds ++ str ".webp") Hd).
    f_equal. unfold image_number. rewrite skipn_app_length.
    change (d :: ds ++ str ".webp") with ((d :: ds) ++ str ".webp").
    rewrite (span_run is_digit (d :: ds) (str ".webp") Hdig)
      by reflexivity.
    cbn [fst]. rewrite <- Es. unfold int_of_digits, str_of_nat.
    change 0%Z with (Z.of_nat 0).
    rewrite (int_of_digits_uint (Nat.to_uint n) 0).
    f_equal. exact (DecimalNat.Unsigned.of_to n).
  - unfold image_name. intros H.
    apply app_inv_head in H. apply app_inv_tail in H.
    exact (str_of_nat_inj n m H).
Qed.

(** ** What a run leaves alone *)

Lemma same_outside_refl (P : path -> Prop) (fs : node) :
  same_outside P fs fs.
Proof.
  intros q. destruct (lookup_path q fs) as [[c|es|]|]; auto.
Qed.

Lemma same_outside_trans (P Q R : path -> Prop) (fs1 fs2 fs3 : node) :
  (forall q, P q -> R q) -> (forall q, Q q -> R q) ->
  same_outside P fs1 fs2 -> same_outside Q fs2 fs3 ->
  same_outside R fs1 fs3.
Proof.
  intros HP HQ H12 H23 q. specialize (H12 q). specialize (H23 q).
  destruct (lookup_path q fs1) as [[c1|es1|]|];
    destruct (lookup_path q fs2) as [[c2|es2|]|];
    destruct (lookup_path q fs3) as [[c3|es3|]|];
    try contradiction; try exact I.
  - intros Hn. rewrite H12, H23; [reflexivity | |]; intros H; apply Hn; auto.
  - congruence.
Qed.

(** What can be observed of two such file systems: listings, the tests on
    paths, and the files outside [P]. *)
Lemma same_outside_observed (P : path -> Prop) (fs fs' : node) :
  same_outside P fs fs' ->
  forall q,
    iterdir fs' q = iterdir fs q
    /\ is_dir fs' q = is_dir fs q
    /\ path_exists fs' q = path_exists fs q
    /\ (~ P q -> read_file fs' q = read_file fs q).
Proof.
  intros H q. specialize (H q).
  unfold iterdir, is_dir, path_exists, read_file.
  destruct (lookup_path q fs) as [[c|es|]|];
    destruct (lookup_path q fs') as [[c'|es'|]|];
    try contradiction; repeat split; try reflexivity.
  - intros Hn. rewrite (H Hn). reflexivity.
  - f_equal. rewrite <- (map_map fst (fun n => q ++ [n]) es').
    rewrite <- (map_map fst (fun n => q ++ [n]) es). rewrite H. reflexivity.
Qed.

Lemma same_outside_stored (P : path -> Prop) (fs fs' : node) (q : path) :
  same_outside P fs fs' -> ~ P q -> stored fs' q = stored fs q.
Proof.
  intros H Hn. specialize (H q). unfold stored.
  destruct (lookup_path q fs) as [[c|es|]|];
    destruct (lookup_path q fs') as [[c'|es'|]|];
    try contradiction; try reflexivity.
  rewrite (H Hn). reflexivity.
Qed.

Lemma write_entry_found_inv (name : text) (k : node -> res node)
    (create : option node) (d : node) :
  forall (entries entries' : list (text * node)),
    lookup_entry name entries = Some d ->
    write_entry name k create entries = Ok entries' ->
    exists d',
      k d = Ok d'
      /\ map fst entries' = map fst entries
      /\ lookup_entry name entries' = Some d'
      /\ forall other, text_eqb other name = false ->
                       lookup_entry other entries'
                       = lookup_entry other entries.
Proof.
  induction entries as [|[n x] entries IH]; intros entries' Hl Hw;
    [discriminate|].
  cbn [lookup_entry write_entry] in *.
  destruct (text_eqb name n) eqn:E.
  - injection Hl as ->. destruct (k d) as [d'|]; [|discriminate].
    cbn [bind] in Hw. injection Hw as <-. exists d'.
    split; [reflexivity|]. split; [reflexivity|].
    cbn [lookup_entry]. rewrite E. split; [reflexivity|].
    intros other Ho. apply text_eqb_eq in E. subst n. rewrite Ho.
    reflexivity.
  - destruct (write_entry name k create entries) as [es|] eqn:Ew;
      [|discriminate].
    cbn [bind] in Hw. injection Hw as <-.
    destruct (IH es Hl eq_refl) as (d' & Hk & Hn & Hl' & Ho).
    exists d'. split; [exact Hk|]. cbn [map fst lookup_entry].
    split; [f_equal; exact Hn|]. rewrite E. split; [exact Hl'|].
    intros other Hother. rewrite (Ho other Hother). reflexivity.
Qed.

(** Overwriting a file changes that file only. *)
Lemma write_file_same_outside (p : path) (new : text) :
  forall (fs fs' : node) (old : text),
    read_file fs p = Ok old ->
    write_file p new fs = Ok fs' ->
    same_outside (eq p) fs fs'.
Proof.
  unfold read_file.
  induction p as [|c p IH]; intros fs fs' old Hr Hw q.
  - cbn [lookup_path] in Hr. destruct fs as [content| |]; try discriminate.
    cbn [write_file] in Hw. injection Hw as <-.
    destruct q as [|x q]; cbn [lookup_path]; [|exact I].
    intros Hn. exfalso. apply Hn. reflexivity.
  - cbn [lookup_path] in Hr. destruct fs as [|entries|]; try discriminate.
    destruct (lookup_entry c entries) as [d|] eqn:El; [|discriminate].
    cbn [write_file] in Hw.
    destruct (write_entry c (write_file p new) _ entries) as [es|] eqn:Ew;
      [|discriminate].
    cbn [bind] in Hw. injection Hw as <-.
    destruct (write_entry_found_inv c (write_file p new) _ d entries es
                El Ew) as (d' & Hk & Hn & Hl' & Ho).
    destruct q as [|x q]; cbn [lookup_path]; [exact (eq_sym Hn)|].
    destruct (text_eqb x c) eqn:E.
    + apply text_eqb_eq in E. subst x. rewrite El, Hl'.
      specialize (IH d d' old Hr Hk q).
      destruct (lookup_path q d) as [[c1|es1|]|];
        destruct (lookup_path q d') as [[c2|es2|]|]; try exact IH.
      intros Hne. apply IH. intros ->. apply Hne. reflexivity.
    + rewrite (Ho x E).
      destruct (lookup_entry x entries) as [n|]; [|exact I].
      destruct (lookup_path q n) as [[c1|es1|]|]; auto.
Qed.

Lemma process_article_same_outside (fs fs' : node) (folder : path)
    (dry_run : bool) (result : article_result) :
  process_article fs folder dry_run = Ok (result, fs') ->
  same_outside (eq (folder ++ [article_html])) fs fs'.
Proof.
  unfold process_article.
  destruct (read_file fs (folder ++ [article_html])) as [html|] eqn:Er;
    [|discriminate].
  destruct (get_available_images fs folder) as [av|]; [|discriminate].
  cbn [bind].
  destruct (extract_content_section html) as [[start end_] content].
  destruct (start =? -1)%Z;
    [intros H; injection H as _ <-; apply same_outside_refl|].
  destruct (replace_images_in_content content av dry_run (path_name folder))
    as [new_content changes].
  destruct (negb dry_run && negb (length changes =? 0));
    [|intros H; injection H as _ <-; apply same_outside_refl].
  destruct (write_file (folder ++ [article_html]) _ fs) as [fs1|] eqn:Ew;
    [|discriminate].
  cbn [bind]. intros H. injection H as _ <-.
  exact (write_file_same_outside _ _ fs fs1 html Er Ew).
Qed.

Lemma process_all_same_outside (folders : list path) (dry_run : bool) :
  forall (fs fs' : node) (results : list article_result),
    process_all fs folders dry_run = Ok (results, fs') ->
    same_outside (article_of folders) fs fs'.
Proof.
  induction folders as [|folder folders IH]; intros fs fs' results H.
  - injection H as _ <-. apply same_outside_refl.
  - cbn [process_all] in H.
    destruct (process_article fs folder dry_run) as [[result fs1]|] eqn:E;
      [|discriminate].
    cbn [bind snd] in H.
    destruct (process_all fs1 folders dry_run) as [[rs fs2]|] eqn:E2;
      [|discriminate].
    cbn [bind fst snd] in H. injection H as _ <-.
    apply (same_outside_trans (eq (folder ++ [article_html]))
             (article_of folders) _ fs fs1 fs2).
    + intros q <-. exists folder. split; [left|]; reflexivity.
    + intros q (f & Hf & ->). exists f. split; [right; exact Hf|reflexivity].
    + exact (process_article_same_outside fs fs1 folder dry_run result E).
    + exact (IH fs1 fs2 rs E2).
Qed.

(** X11.  A completed run, in either mode, changes no file other than the
    [article.html] of the folders the Folder Scanner returned: every
    directory lists the same names before and after, the same paths exist
    and are directories, and every other file reads as before.  Images are
    not touched, nothing is created, nothing removed. *)
Theorem run_touches_articles_only (fs fs' : node) (base_path : path)
    (dry_run : bool) (total_changes total_errors : nat)
    (Hrun : main fs base_path dry_run
            = Ok (total_changes, total_errors, fs')) :
  exists folders,
    find_article_folders fs base_path = Ok folders
    /\ forall q,
         iterdir fs' q = iterdir fs q
         /\ is_dir fs' q = is_dir fs q
         /\ path_exists fs' q = path_exists fs q
         /\ ((forall folder, In folder folders ->
                             q <> folder ++ [str "article.html"]) ->
             read_file fs' q = read_file fs q).
Proof.
  unfold main in Hrun.
  destruct (find_article_folders fs base_path) as [folders|];
    [|discriminate].
  cbn [bind] in Hrun. rewrite main_loop_process_all in Hrun.
  destruct (process_all fs folders dry_run) as [[results fs1]|] eqn:E;
    [|discriminate].
  cbn [bind fst snd] in Hrun. injection Hrun as _ _ <-.
  exists folders. split; [reflexivity|]. intros q.
  destruct (same_outside_observed _ fs fs1
              (process_all_same_outside folders dry_run fs fs1 results E) q)
    as (H1 & H2 & H3 & H4).
  split; [exact H1|]. split; [exact H2|]. split; [exact H3|].
  intros Hq. apply H4. intros (folder & Hin & ->).
  exact (Hq folder Hin eq_refl).
Qed.

Lemma run_touches_articles_only_witness :
  exists fs',
    main example_fs example_base false = Ok (2, 2, fs')
    /\ read_file fs' (example_post ++ [str "image-2.webp"])
       = read_file example_fs (example_post ++ [str "image-2.webp"])
    /\ iterdir fs' example_post = iterdir example_fs example_post.
Proof.
  destruct (main example_fs example_base false) as [[[tc te] fs']|] eqn:E;
    [|discriminate E].
  destruct (run_touches_articles_only example_fs fs' example_base false
              tc te E) as (folders & Hf & H).
  exists fs'. split.
  - pose proof E as E'. vm_compute in E'. injection E' as <- <- _.
    reflexivity.
  - destruct (H (example_post ++ [str "image-2.webp"])) as (_ & _ & _ & Hr).
    destruct (H example_post) as (Hi & _).
    split; [|exact Hi]. apply Hr. intros folder Hin.
    vm_compute in Hf. injection Hf as <-.
    destruct Hin as [<-|[<-|[]]]; discriminate.
Defined.

(** ** The change records of a second pass *)

Lemma records_from_fuel (av : list text) (f1 : nat) :
  forall (f2 : nat) (rest : text) (i : nat),
    length rest <= f1 -> length rest <= f2 ->
    records_from av f1 rest i = records_from av f2 rest i.
Proof.
  induction f1 as [|f1 IH]; intros f2 rest i H1 H2.
  - destruct rest; [|simpl in H1; lia]. destruct f2; reflexivity.
  - destruct rest as [|c rest]; [destruct f2; reflexivity|].
    destruct f2 as [|f2]; [simpl in H2; lia|].
    simpl in H1, H2. cbn [records_from].
    destruct (match_img (c :: rest)) as [[[a b] e]|] eqn:E.
    + apply match_img_bounds in E. destruct E as (Ha & Hb & He & Hl).
      f_equal.
      apply IH; rewrite length_skipn; simpl length in *; lia.
    + apply IH; lia.
Qed.

(** The records of the loop are those read off the text. *)
Lemma records_finditer (content : text) (av : list text) (fuel : nat) :
  forall (i pos : nat),
    records content av i (finditer_from fuel (skipn pos content) pos)
    = records_from av fuel (skipn pos content) i.
Proof.
  induction fuel as [|fuel IH]; intros i pos; [reflexivity|].
  cbn [finditer_from records_from].
  destruct (skipn pos content) as [|c rest] eqn:Es; [reflexivity|].
  destruct (match_img (c :: rest)) as [[[a b] e]|] eqn:E.
  - cbn [records]. unfold group1. cbn [g1_start g1_end].
    rewrite <- Es, substring_skipn. f_equal.
    rewrite skipn_skipn, (Nat.add_comm e pos). apply IH.
  - rewrite <- (skipn_S_tail content rest c pos Es). apply IH.
Qed.

Lemma replace_images_in_content_records (content : text) (av : list text)
    (dry_run : bool) (folder_name : text) :
  snd (replace_images_in_content content av dry_run folder_name)
  = records_text av content 0.
Proof.
  rewrite replace_images_in_content_weave. cbn [snd].
  exact (records_finditer content av (length content) 0 0).
Qed.

Lemma records_text_none (av : list text) (c : ascii) (r : text) (i : nat) :
  match_img (c :: r) = None ->
  records_text av (c :: r) i = records_text av r i.
Proof.
  intros H. unfold records_text. cbn [length records_from].
  rewrite H. reflexivity.
Qed.

Lemma records_text_shape (av : list text) (s ws url rest : text) (i : nat) :
  img_shape s ws url rest ->
  records_text av s i
  = {| index := i + 1; old_url := url; new_url := image_name (i + 2);
       exists_ := in_list (image_name (i + 2)) av |}
    :: records_text av rest (S i).
Proof.
  intros Hshape. pose proof (match_img_of_shape s ws url rest Hshape) as Hm.
  destruct Hshape as (Hs & Hws & Fws & Hurl & Furl).
  set (p := img_open ++ ws ++ img_src) in *.
  assert (length img_open + length ws + length img_src = length p) as Hp
    by (unfold p; rewrite !length_app; lia).
  rewrite Hp in Hm.
  assert (s = p ++ url ++ dq :: rest) as Hs'
    by (rewrite Hs; unfold p; rewrite <- !app_assoc; reflexivity).
  assert (length s = S (length p + length url + length rest)) as Hlen
    by (rewrite Hs', !length_app; simpl; lia).
  unfold records_text. rewrite Hlen.
  assert (exists c r, s = c :: r) as (c & r & Hcr)
    by (rewrite Hs; unfold img_open; simpl; eauto).
  rewrite Hcr in *. cbn [records_from]. rewrite Hm. rewrite <- Hcr in *.
  rewrite Hs' at 1. rewrite substring_middle.
  assert (skipn (length p + length url + 1) s = rest) as ->.
  { replace (length p + length url + 1)
      with (1 + (length url + length p)) by lia.
    rewrite <- !skipn_skipn, Hs', skipn_app_length, skipn_app_length.
    reflexivity. }
  rewrite (records_from_fuel av _ (length rest) rest (S i)) by lia.
  reflexivity.
Qed.

Lemma records_text_rewrite (av : list text) (n : nat) :
  forall (s : text) (i : nat),
    length s <= n ->
    records_text av (rewrite_text av s i) i
    = map settle (records_text av s i).
Proof.
  induction n as [|n IH]; intros s i Hn.
  - destruct s; [reflexivity | simpl in Hn; lia].
  - destruct s as [|c r]; [reflexivity|]. simpl in Hn.
    destruct (match_img (c :: r)) as [[[a b] e]|] eqn:E.
    + apply match_img_shape in E.
      destruct E as (ws & url & rest & Hshape & _).
      rewrite (rewrite_text_shape av _ ws url rest i Hshape).
      rewrite (records_text_shape av _ ws url rest i Hshape).
      destruct Hshape as (Hs & Hws & Fws & Hurl & Furl).
      assert (length rest <= n) as Hrest.
      { assert (length (c :: r) = length
                  (img_open ++ ws ++ img_src ++ url ++ dq :: rest)) as Hl
          by (rewrite Hs; reflexivity).
        rewrite !length_app in Hl. simpl in Hl. lia. }
      cbn [map]. unfold settle at 1, kept_url at 1.
      cbn [index old_url new_url exists_].
      rewrite <- (IH rest (S i) Hrest).
      apply (records_text_shape av _ ws).
      split; [reflexivity|]. split; [exact Hws|]. split; [exact Fws|].
      destruct (in_list (image_name (i + 2)) av).
      * split; [apply image_name_not_nil | apply image_name_no_dq].
      * split; assumption.
    + rewrite (rewrite_text_none av c r i E).
      assert (match_img (c :: rewrite_text av r i) = None) as E'.
      { destruct (rewrite_text_first av r i)
          as [-> | (G & X & Y & -> & HX & ->)]; [exact E|].
        destruct (match_img (c :: G ++ lt_char :: Y)) eqn:EY;
          [|reflexivity].
        exfalso. apply (match_img_gap c G X Y HX); [congruence | exact E]. }
      rewrite (records_text_none av c _ i E').
      rewrite (records_text_none av c r i E).
      apply IH. lia.
Qed.

Lemma map_settle_facts (changes : list change) :
  length (map settle changes) = length changes
  /\ map index (map settle changes) = map index changes
  /\ map new_url (map settle changes) = map new_url changes
  /\ map exists_ (map settle changes) = map exists_ changes
  /\ map old_url (map settle changes) = map kept_url changes
  /\ mismatch_errors (map settle changes) = mismatch_errors changes.
Proof.
  split; [apply length_map|]. rewrite !map_map.
  repeat split; try reflexivity.
  unfold mismatch_errors. rewrite length_map.
  assert (forall f : change -> bool,
             (forall c, f (settle c) = f c) ->
             filter f (map settle changes) = map settle (filter f changes))
    as Hf.
  { intros f Hfc. induction changes as [|c cs IH]; [reflexivity|].
    cbn [map filter]. rewrite Hfc. destruct (f c); cbn [map]; rewrite IH;
      reflexivity. }
  rewrite !Hf by reflexivity. rewrite length_map.
  destruct (_ =? _); [reflexivity|].
  unfold missing_message. rewrite length_map, map_map. reflexivity.
Qed.

(** X12.  A second pass of the Rewrite Engine over its own output, with
    the same inventory, reports the same images again: as many change
    records, with the same indexes, the same expected file names and the
    same [exists] flags, each [old_url] now being the URL the output
    carries (the file name where the file exists, the former URL where it
    does not).  A replaced image is thus counted as a change on every
    later pass. *)
Theorem second_pass_same_records (content : text) (av : list text)
    (dry_run dry_run' : bool) (folder_name folder_name' : text) :
  let first := replace_images_in_content content av dry_run folder_name in
  let second :=
    replace_images_in_content (fst first) av dry_run' folder_name' in
  snd second = map settle (snd first)
  /\ length (snd second) = length (snd first)
  /\ map index (snd second) = map index (snd first)
  /\ map new_url (snd second) = map new_url (snd first)
  /\ map exists_ (snd second) = map exists_ (snd first)
  /\ map old_url (snd second) = map kept_url (snd first).
Proof.
  cbn zeta.
  assert (snd (replace_images_in_content
                 (fst (replace_images_in_content content av dry_run
                         folder_name)) av dry_run' folder_name')
          = map settle
              (snd (replace_images_in_content content av dry_run
                      folder_name))) as H.
  { rewrite replace_images_in_content_rewrite.
    rewrite !replace_images_in_content_records.
    apply (records_text_rewrite av (length content)). lia. }
  rewrite H. split; [reflexivity|].
  destruct (map_settle_facts
              (snd (replace_images_in_content content av dry_run
                      folder_name))) as (H1 & H2 & H3 & H4 & H5 & _).
  repeat split; assumption.
Qed.

(** ** The content section of a rewritten article *)

Lemma closes_head (s : text) : closes s -> exists r, s = lt_char :: r.
Proof. intros (ws & rest & -> & _). eexists. reflexivity. Qed.

(** The closing boundary holds no quote: what follows a quote does not
    matter to it. *)
Lemma closes_before_dq (A Z Z' : text) :
  closes (A ++ dq :: Z) -> closes (A ++ dq :: Z').
Proof.
  intros (ws & rest & Heq & F).
  assert (~ In dq (div_close ++ ws ++ body_close)) as Hn.
  { intros Hin. apply in_app_or in Hin. destruct Hin as [Hin|Hin].
    - unfold div_close in Hin. simpl in Hin. intuition discriminate.
    - apply in_app_or in Hin. destruct Hin as [Hin|Hin].
      + rewrite Forall_forall in F. specialize (F _ Hin). discriminate F.
      + unfold body_close in Hin. simpl in Hin. intuition discriminate. }
  assert (A ++ dq :: Z = (div_close ++ ws ++ body_close) ++ rest) as Heq'
    by (rewrite Heq, <- !app_assoc; reflexivity).
  destruct (app_split_notin dq _ A Z rest Heq' Hn) as [A' ->].
  exists ws, (A' ++ dq :: Z'). split; [|exact F].
  rewrite <- !app_assoc. reflexivity.
Qed.

Lemma no_close_app (A B t : text) :
  no_close (A ++ B) t <-> no_close A (B ++ t) /\ no_close B t.
Proof.
  induction A as [|a A IH]; cbn [app no_close].
  - tauto.
  - rewrite IH, <- app_assoc. tauto.
Qed.

Lemma no_close_dq (A Z Z' : text) :
  no_close A (dq :: Z) -> no_close A (dq :: Z').
Proof.
  induction A as [|a A IH]; cbn [no_close]; [tauto|].
  intros [H1 H2]. split; [|exact (IH H2)].
  intros Hc. apply H1. exact (closes_before_dq (a :: A) Z' Z Hc).
Qed.

Lemma no_close_no_lt (A t : text) : ~ In lt_char A -> no_close A t.
Proof.
  induction A as [|a A IH]; cbn [no_close]; [tauto|].
  intros Hn. split.
  - intros Hc. destruct (closes_head _ Hc) as [r Hr].
    injection Hr as -> _. apply Hn. left. reflexivity.
  - apply IH. intros Hin. apply Hn. right. exact Hin.
Qed.

Lemma string_of_uint_no_lt (d : Decimal.uint) :
  ~ In lt_char (str (DecimalString.NilEmpty.string_of_uint d)).
Proof.
  induction d; simpl; intros H; try contradiction;
    destruct H as [H|H]; (discriminate H || exact (IHd H)).
Qed.

Lemma image_name_no_lt (n : nat) : ~ In lt_char (image_name n).
Proof.
  unfold image_name, str_of_nat. intros Hin.
  apply in_app_or in Hin. destruct Hin as [Hin|Hin];
    [simpl in Hin; intuition discriminate|].
  apply in_app_or in Hin. destruct Hin as [Hin|Hin];
    [exact (string_of_uint_no_lt _ Hin) | simpl in Hin; intuition discriminate].
Qed.

(** Up to the quote that opens its first URL the rewriting copies the
    subject. *)
Lemma rewrite_text_first_dq (av : list text) (r : text) :
  forall i : nat,
    rewrite_text av r i = r
    \/ exists G X Y,
         r = G ++ dq :: X /\ rewrite_text av r i = G ++ dq :: Y.
Proof.
  induction r as [|c r IH]; intros i; [left; reflexivity|].
  destruct (match_img (c :: r)) as [[[a b] e]|] eqn:E.
  - right. apply match_img_shape in E.
    destruct E as (ws & url & rest & Hshape & _).
    rewrite (rewrite_text_shape av _ ws url rest i Hshape).
    destruct Hshape as (-> & _).
    exists (img_open ++ ws ++ str "src="). eexists. eexists.
    split; unfold img_src; rewrite <- !app_assoc; reflexivity.
  - rewrite (rewrite_text_none av c r i E).
    destruct (IH i) as [-> | (G & X & Y & -> & ->)];
      [left; reflexivity|].
    right. exists (c :: G), X, Y. split; reflexivity.
Qed.

(** The rewriting brings no closing boundary into the section. *)
Lemma no_close_rewrite (av : list text) (tail : text) (n : nat) :
  forall (s : text) (i : nat),
    length s <= n -> no_close s tail ->
    no_close (rewrite_text av s i) tail.
Proof.
  assert (forall Z, ~ closes (dq :: Z)) as Hdq.
  { intros Z Hc. destruct (closes_head _ Hc) as [x Hx]. discriminate Hx. }
  induction n as [|n IH]; intros s i Hn Hnc.
  - destruct s; [exact I | simpl in Hn; lia].
  - destruct s as [|c r]; [exact I|]. simpl in Hn.
    destruct (match_img (c :: r)) as [[[a b] e]|] eqn:E.
    + apply match_img_shape in E.
      destruct E as (ws & url & rest & Hshape & _).
      rewrite (rewrite_text_shape av _ ws url rest i Hshape).
      destruct Hshape as (Hs & Hws & Fws & Hurl & Furl).
      assert (length rest <= n) as Hrest.
      { assert (length (c :: r) = length
                  (img_open ++ ws ++ img_src ++ url ++ dq :: rest)) as Hl
          by (rewrite Hs; reflexivity).
        rewrite !length_app in Hl. simpl in Hl. lia. }
      rewrite Hs in Hnc.
      set (P := img_open ++ ws ++ str "src=").
      assert (forall u R,
                 img_open ++ ws ++ img_src ++ u ++ dq :: R
                 = P ++ dq :: u ++ dq :: R) as HP
        by (intros; unfold P, img_src; rewrite <- !app_assoc; reflexivity).
      rewrite HP in Hnc. rewrite HP.
      apply no_close_app in Hnc. destruct Hnc as [H1 H2].
      cbn [no_close] in H2. destruct H2 as [_ H2].
      apply no_close_app in H2. destruct H2 as [H2 H3].
      cbn [no_close] in H3. destruct H3 as [_ H3].
      apply no_close_app. split; [exact (no_close_dq P _ _ H1)|].
      cbn [no_close]. split; [apply Hdq|].
      apply no_close_app. split.
      * destruct (in_list (image_name (i + 2)) av);
          [apply no_close_no_lt, image_name_no_lt
          | exact (no_close_dq url _ _ H2)].
      * cbn [no_close]. split; [apply Hdq|].
        exact (IH rest (S i) Hrest H3).
    + rewrite (rewrite_text_none av c r i E).
      cbn [no_close] in Hnc |- *. destruct Hnc as [H1 H2].
      split; [|apply IH; [lia | exact H2]].
      destruct (rewrite_text_first_dq av r i)
        as [-> | (G & X & Y & -> & ->)]; [exact H1|].
      intros Hc. apply H1. rewrite <- app_assoc in Hc |- *.
      exact (closes_before_dq (c :: G) _ _ Hc).
Qed.

Lemma no_close_min (mid tail : text) :
  no_close mid tail ->
  forall mid' tail',
    mid ++ tail = mid' ++ tail' -> closes tail' ->
    length mid <= length mid'.
Proof.
  induction mid as [|c m IH]; intros Hnc mid' tail' Heq Hc; [simpl; lia|].
  cbn [no_close] in Hnc. destruct Hnc as [H1 H2].
  destruct mid' as [|c' m']; simpl in Heq.
  - subst tail'. contradiction.
  - injection Heq as _ Heq. simpl.
    specialize (IH H2 m' tail' Heq Hc). lia.
Qed.

Lemma min_no_close (mid tail : text) :
  (forall mid' tail',
      mid ++ tail = mid' ++ tail' -> closes tail' ->
      length mid <= length mid') ->
  no_close mid tail.
Proof.
  induction mid as [|c m IH]; intros H; [exact I|]. cbn [no_close]. split.
  - intros Hc. specialize (H [] _ eq_refl Hc). simpl in H. lia.
  - apply IH. intros mid' tail' Heq Hc.
    specialize (H (c :: mid') tail'). simpl in H. rewrite Heq in H.
    specialize (H eq_refl Hc). lia.
Qed.

(** What the Content Extractor returns, as a cut of the document. *)
Lemma extract_content_section_split (html : text) (start end_ : Z)
    (t : text) :
  extract_content_section html = (start, end_, t) ->
  start <> (-1)%Z ->
  exists pre tail,
    html = pre ++ content_open ++ t ++ tail
    /\ start = Z.of_nat (length pre + length content_open)
    /\ end_ = Z.of_nat (length pre + length content_open + length t)
    /\ closes tail /\ leftmost html pre /\ no_close t tail.
Proof.
  unfold extract_content_section. intros H Hs.
  destruct (search_content html 0) as [[s e]|] eqn:E;
    [|injection H as <- _ _; congruence].
  injection H as <- <- <-.
  destruct (search_content_some html 0 s e E)
    as (pre & mid & tail & Hh & -> & -> & Hc & Hmin).
  assert (substring html (length pre + length content_open)
            (length pre + length content_open + length mid) = mid) as Hsub.
  { unfold substring. rewrite Hh at 1.
    rewrite (app_assoc pre content_open), <- length_app, skipn_app_length.
    replace (length (pre ++ content_open) + length mid
             - length (pre ++ content_open)) with (length mid) by lia.
    apply firstn_app_length. }
  cbn [Nat.add]. rewrite Hsub. exists pre, tail.
  split; [exact Hh|]. split; [reflexivity|]. split; [reflexivity|].
  split; [exact Hc|]. split.
  - intros pre' mid' tail' Heq Hc'.
    exact (proj1 (Hmin pre' mid' tail' Heq Hc')).
  - apply min_no_close. intros mid' tail' Heq Hc'.
    apply (Hmin pre mid' tail'); [|exact Hc' | reflexivity].
    rewrite Hh at 1. rewrite Heq. reflexivity.
Qed.

(** The cut determines what the Content Extractor returns. *)
Lemma extract_content_section_at (pre mid tail : text) :
  closes tail ->
  leftmost (pre ++ content_open ++ mid ++ tail) pre ->
  no_close mid tail ->
  extract_content_section (pre ++ content_open ++ mid ++ tail)
  = (Z.of_nat (length pre + length content_open),
     Z.of_nat (length pre + length content_open + length mid), mid).
Proof.
  intros Hc Hleft Hnc. unfold extract_content_section.
  destruct (search_content (pre ++ content_open ++ mid ++ tail) 0)
    as [[s e]|] eqn:E.
  - destruct (search_content_some _ 0 s e E)
      as (pre0 & mid0 & tail0 & Hh & -> & -> & Hc0 & Hmin).
    destruct (Hmin pre mid tail eq_refl Hc) as [Hle Hmid].
    pose proof (Hleft pre0 mid0 tail0 Hh Hc0) as Hge.
    assert (length pre = length pre0) as Hl by lia.
    destruct (app_same_length _ _ _ _ Hh Hl) as [<- Hrest].
    apply app_inv_head in Hrest.
    pose proof (no_close_min mid tail Hnc mid0 tail0 Hrest Hc0) as Hm.
    specialize (Hmid eq_refl).
    assert (length mid = length mid0) as Hl' by lia.
    destruct (app_same_length _ _ _ _ Hrest Hl') as [<- <-].
    cbn [Nat.add]. f_equal.
    unfold substring.
    rewrite (app_assoc pre content_open), <- length_app, skipn_app_length.
    replace (length (pre ++ content_open) + length mid
             - length (pre ++ content_open)) with (length mid) by lia.
    apply firstn_app_length.
  - exfalso.
    exact (search_content_none _ 0 E pre mid tail eq_refl Hc).
Qed.

(** An occurrence that starts before the section starts before it whatever
    the section holds. *)
Lemma leftmost_splice (pre mid mid' tail : text) :
  closes tail ->
  leftmost (pre ++ content_open ++ mid ++ tail) pre ->
  leftmost (pre ++ content_open ++ mid' ++ tail) pre.
Proof.
  intros Hc Hl pre' m t Heq Hct.
  destruct (Nat.le_gt_cases (length pre) (length pre')) as [L|L];
    [exact L|]. exfalso.
  rewrite (app_assoc pre), (app_assoc pre') in Heq.
  apply app_eq_app in Heq.
  destruct Heq as [l [[H1 H2] | [H1 H2]]].
  - assert (length pre <= length pre'); [|lia].
    apply (Hl pre' (l ++ mid) tail); [|exact Hc].
    rewrite (app_assoc pre), H1, <- !app_assoc. reflexivity.
  - apply (f_equal (@length ascii)) in H1. rewrite !length_app in H1. lia.
Qed.

(** [content[:start] + new + content[end:]] on the cut. *)
Lemma splice_content (pre mid tail new : text) :
  slice_to (pre ++ content_open ++ mid ++ tail)
    (Z.of_nat (length pre + length content_open))
  ++ new
  ++ slice_from (pre ++ content_open ++ mid ++ tail)
       (Z.of_nat (length pre + length content_open + length mid))
  = pre ++ content_open ++ new ++ tail.
Proof.
  rewrite slice_to_nat, slice_from_nat.
  replace (length pre + length content_open + length mid)
    with (length ((pre ++ content_open) ++ mid))
    by (rewrite !length_app; reflexivity).
  replace (length pre + length content_open)
    with (length (pre ++ content_open)) by (rewrite length_app; reflexivity).
  rewrite (app_assoc pre content_open), firstn_app_length.
  rewrite (app_assoc (pre ++ content_open) mid), skipn_app_length.
  rewrite <- !app_assoc. reflexivity.
Qed.

(** ** Writing what was read *)

Lemma write_entry_same (name : text) (k : node -> res node)
    (create : option node) (d : node) :
  forall entries : list (text * node),
    lookup_entry name entries = Some d -> k d = Ok d ->
    write_entry name k create entries = Ok entries.
Proof.
  induction entries as [|[n x] es IH]; intros Hl Hk; [discriminate|].
  cbn [lookup_entry write_entry] in *.
  destruct (text_eqb name n).
  - injection Hl as ->. rewrite Hk. reflexivity.
  - rewrite (IH Hl Hk). reflexivity.
Qed.

Lemma write_file_same (p : path) :
  forall (fs : node) (c : text),
    stored fs p = Some c -> write_file p c fs = Ok fs.
Proof.
  unfold stored. induction p as [|x p IH]; intros fs c H.
  - simpl in H. destruct fs; try discriminate. injection H as ->.
    reflexivity.
  - cbn [lookup_path] in H. destruct fs as [|entries|]; try discriminate.
    destruct (lookup_entry x entries) as [d|] eqn:El; [|discriminate].
    cbn [write_file].
    rewrite (write_entry_same x _ _ d entries El (IH d c H)). reflexivity.
Qed.

Lemma get_available_images_same (P : path -> Prop) (fs fs' : node)
    (folder : path) :
  same_outside P fs fs' ->
  get_available_images fs' folder = get_available_images fs folder.
Proof.
  intros H. unfold get_available_images.
  destruct (same_outside_observed P fs fs' H folder) as (-> & _).
  reflexivity.
Qed.

(** ** A second run *)

Lemma replace_images_in_content_second (content : text) (av : list text)
    (d d' : bool) (n n' : text) (new : text) (changes : list change) :
  replace_images_in_content content av d n = (new, changes) ->
  replace_images_in_content new av d' n' = (new, map settle changes).
Proof.
  intros H.
  rewrite (surjective_pairing (replace_images_in_content new av d' n')).
  rewrite replace_images_in_content_rewrite.
  rewrite replace_images_in_content_records.
  pose proof (replace_images_in_content_rewrite content av d n) as H1.
  pose proof (replace_images_in_content_records content av d n) as H2.
  rewrite H in H1, H2. cbn [fst snd] in H1, H2. subst new changes.
  rewrite (rewrite_text_idem av (length content) content 0 (le_n _)).
  rewrite (records_text_rewrite av (length content) content 0 (le_n _)).
  reflexivity.
Qed.

(** The Article Processor on the file system an applying call left: the
    same result, with the written URLs as old URLs, and no change to any
    file, in either mode. *)
Lemma process_article_settled (fs fs1 : node) (folder : path)
    (r : article_result) :
  process_article fs folder false = Ok (r, fs1) ->
  forall dry_run : bool,
    process_article fs1 folder dry_run = Ok (settled_result r, fs1).
Proof.
  intros H dry_run.
  pose proof (process_article_same_outside fs fs1 folder false r H) as Hsame.
  pose proof H as H0. unfold process_article in H0.
  destruct (read_file fs (folder ++ [article_html])) as [html|] eqn:Er;
    [|discriminate].
  destruct (get_available_images fs folder) as [av|] eqn:Ei;
    [|discriminate].
  clear H0.
  pose proof (get_available_images_same _ fs fs1 folder Hsame) as Hav.
  rewrite Ei in Hav.
  rewrite (process_article_read fs folder false html av Er Ei) in H.
  destruct (extract_content_section html) as [[start end_] content] eqn:Ex.
  destruct (start =? -1)%Z eqn:Es.
  { injection H as <- <-.
    rewrite (process_article_read fs folder dry_run html av Er Ei), Ex, Es.
    reflexivity. }
  destruct (replace_images_in_content content av false (path_name folder))
    as [new changes] eqn:Erep.
  pose proof (replace_images_in_content_second content av false dry_run
                (path_name folder) (path_name folder) new changes Erep)
    as Hsecond.
  destruct (length changes =? 0) eqn:El; cbn [negb andb] in H.
  { injection H as <- <-.
    destruct changes; [|discriminate El].
    rewrite (process_article_read fs folder dry_run html av Er Ei), Ex, Es.
    assert (replace_images_in_content content av dry_run (path_name folder)
            = (new, [])) as -> by exact Erep.
    cbn [length Nat.eqb negb andb]. rewrite Bool.andb_false_r.
    reflexivity. }
  destruct (write_file (folder ++ [article_html]) _ fs) as [fs2|] eqn:Ew;
    [|discriminate].
  cbn [bind] in H. injection H as <- <-.
  assert (start <> (-1)%Z) as Hstart by (apply Z.eqb_neq; exact Es).
  destruct (write_file_after_read _
              (slice_to html start ++ new ++ slice_from html end_)
              fs _ Er) as (fs3 & Hw & Hr).
  rewrite Ew in Hw. injection Hw as <-.
  pose proof (read_file_written fs fs2 _ html av false (path_name folder)
                start end_ content start end_ Er Ex) as Hback.
  rewrite Erep in Hback. cbn [fst] in Hback. specialize (Hback Hr).
  destruct (extract_content_section_split html start end_ content Ex Hstart)
    as (pre & tail & -> & -> & -> & Hc & Hleft & Hnc).
  rewrite splice_content in Hback, Hr.
  rewrite (process_article_read fs2 folder dry_run _ av Hback Hav).
  assert (new = rewrite_text av content 0) as Hnew.
  { pose proof (replace_images_in_content_rewrite content av false
                  (path_name folder)) as Hf.
    rewrite Erep in Hf. exact Hf. }
  rewrite (extract_content_section_at pre new tail Hc
             (leftmost_splice pre content new tail Hc Hleft)).
  2:{ rewrite Hnew. apply (no_close_rewrite av tail (length content)).
      - lia.
      - exact Hnc. }
  assert ((Z.of_nat (length pre + length content_open) =? -1)%Z = false)
    as -> by (apply Z.eqb_neq; lia).
  rewrite Hsecond.
  destruct (map_settle_facts changes) as (Hl1 & _ & _ & _ & _ & Hm).
  rewrite Hl1, El, Hm. cbn [negb andb].
  destruct dry_run; cbn [negb andb]; [reflexivity|].
  rewrite splice_content.
  rewrite (write_file_same _ fs2 _ Hr). reflexivity.
Qed.

(** X13.  Applying the Article Processor to a folder a second time changes
    no file: the second call, in either mode, returns with the file system
    the first call left, and reports the same folder, the same errors and
    the same counts, each change record keeping its index, expected file
    name and [exists] flag, its old URL being the one the article now
    carries. *)
Theorem second_apply_changes_nothing (fs fs1 : node) (folder : path)
    (r : article_result)
    (Hfirst : process_article fs folder false = Ok (r, fs1)) :
  forall dry_run : bool,
  exists r',
    process_article fs1 folder dry_run = Ok (r', fs1)
    /\ r_changes r' = map settle (r_changes r)
    /\ r_errors r' = r_errors r
    /\ r_images_in_html r' = r_images_in_html r
    /\ r_images_available r' = r_images_available r
    /\ r_folder r' = r_folder r.
Proof.
  intros dry_run. exists (settled_result r).
  split; [exact (process_article_settled fs fs1 folder r Hfirst dry_run)|].
  repeat split; reflexivity.
Qed.

Lemma second_apply_changes_nothing_witness :
  exists r fs1 r',
    process_article example_fs example_post false = Ok (r, fs1)
    /\ fs1 <> example_fs
    /\ process_article fs1 example_post false = Ok (r', fs1)
    /\ r_errors r' = r_errors r
    /\ length (r_changes r') = 2.
Proof.
  destruct (process_article example_fs example_post false)
    as [[r fs1]|] eqn:E; [|discriminate E].
  destruct (second_apply_changes_nothing example_fs fs1 example_post r E
              false) as (r' & H1 & H2 & H3 & _).
  exists r, fs1, r'. split; [reflexivity|].
  pose proof E as E'. vm_compute in E'. injection E' as <- <-.
  split; [discriminate|]. split; [exact H1|]. split; [exact H3|].
  rewrite H2. reflexivity.
Defined.

(** ** A second run over all folders *)

(** A call that leaves the file system as it is does so on any file system
    that differs in other files only. *)
Lemma process_article_fixed_frame (P : path -> Prop) (fs fs' : node)
    (folder : path) (dry_run : bool) (r : article_result) :
  process_article fs folder dry_run = Ok (r, fs) ->
  same_outside P fs fs' -> ~ P (folder ++ [article_html]) ->
  process_article fs' folder dry_run = Ok (r, fs').
Proof.
  intros H Hsame HP.
  pose proof H as H0. unfold process_article in H0.
  destruct (read_file fs (folder ++ [article_html])) as [html|] eqn:Er;
    [|discriminate].
  destruct (get_available_images fs folder) as [av|] eqn:Ei;
    [|discriminate].
  clear H0.
  pose proof (get_available_images_same _ fs fs' folder Hsame) as Hav.
  rewrite Ei in Hav.
  destruct (same_outside_observed P fs fs' Hsame (folder ++ [article_html]))
    as (_ & _ & _ & Hread).
  specialize (Hread HP). rewrite Er in Hread.
  rewrite (process_article_read fs folder dry_run html av Er Ei) in H.
  rewrite (process_article_read fs' folder dry_run html av Hread Hav).
  destruct (extract_content_section html) as [[start end_] content].
  destruct (start =? -1)%Z;
    [injection H as <-; reflexivity|].
  destruct (replace_images_in_content content av dry_run (path_name folder))
    as [new changes].
  destruct (negb dry_run && negb (length changes =? 0));
    [|injection H as <-; reflexivity].
  destruct (write_file (folder ++ [article_html]) _ fs) as [fs2|] eqn:Ew;
    [|discriminate].
  cbn [bind] in H. injection H as <- Hfs. subst fs2.
  destruct (write_file_after_read _
              (slice_to html start ++ new ++ slice_from html end_)
              fs _ Er) as (fs3 & Hw & Hr).
  rewrite Ew in Hw. injection Hw as <-.
  rewrite <- (same_outside_stored P fs fs' (folder ++ [article_html])
                Hsame HP) in Hr.
  rewrite (write_file_same _ fs' _ Hr). reflexivity.
Qed.

Lemma process_article_fixed_step (fs fs' : node) (folder folder' : path)
    (r r' : article_result) :
  (forall d, process_article fs folder d = Ok (r, fs)) ->
  process_article fs folder' false = Ok (r', fs') ->
  forall d, process_article fs' folder d = Ok (r, fs').
Proof.
  intros Hfix Hstep d.
  destruct (list_eq_dec (list_eq_dec ascii_dec)
              (folder' ++ [article_html]) (folder ++ [article_html]))
    as [E|E].
  - apply app_inj_tail in E. destruct E as [-> _].
    rewrite (Hfix false) in Hstep. injection Hstep as _ <-. apply Hfix.
  - apply (process_article_fixed_frame (eq (folder' ++ [article_html]))
             fs fs' folder d r (Hfix d)
             (process_article_same_outside fs fs' folder' false r' Hstep)).
    exact E.
Qed.

Lemma process_all_fixed (folders : list path) (folder : path)
    (r : article_result) :
  forall (fs fs' : node) (results : list article_result),
    (forall d, process_article fs folder d = Ok (r, fs)) ->
    process_all fs folders false = Ok (results, fs') ->
    forall d, process_article fs' folder d = Ok (r, fs').
Proof.
  induction folders as [|f folders IH]; intros fs fs' results Hfix H.
  - injection H as _ <-. exact Hfix.
  - cbn [process_all] in H.
    destruct (process_article fs f false) as [[r1 fs1]|] eqn:E;
      [|discriminate].
    cbn [bind snd] in H.
    destruct (process_all fs1 folders false) as [[rs fs2]|] eqn:E2;
      [|discriminate].
    cbn [bind fst snd] in H. injection H as _ <-.
    exact (IH fs1 fs2 rs
             (process_article_fixed_step fs fs1 folder f r r1 Hfix E) E2).
Qed.

Lemma process_all_settled (folders : list path) :
  forall (fs fs1 : node) (results : list article_result),
    process_all fs folders false = Ok (results, fs1) ->
    forall d,
      process_all fs1 folders d = Ok (map settled_result results, fs1).
Proof.
  induction folders as [|f folders IH]; intros fs fs1 results H d.
  - injection H as <- <-. reflexivity.
  - cbn [process_all] in H.
    destruct (process_article fs f false) as [[r fsa]|] eqn:E;
      [|discriminate].
    cbn [bind snd] in H.
    destruct (process_all fsa folders false) as [[rs fsb]|] eqn:E2;
      [|discriminate].
    cbn [bind fst snd] in H. injection H as <- <-.
    cbn [process_all].
    rewrite (process_all_fixed folders f (settled_result r) fsa fsb rs
               (process_article_settled fs fsa f r E) E2 d).
    cbn [bind snd]. rewrite (IH fsa fsb rs E2 d). reflexivity.
Qed.

(** The Folder Scanner reads names and kinds only. *)
Lemma find_article_folders_same (P : path -> Prop) (fs fs' : node)
    (base_path : path) :
  same_outside P fs fs' ->
  find_article_folders fs' base_path = find_article_folders fs base_path.
Proof.
  intros H. unfold find_article_folders.
  assert (forall subdir,
             scan_subdir fs' base_path subdir
             = scan_subdir fs base_path subdir) as Hsub.
  { intros subdir. unfold scan_subdir.
    destruct (same_outside_observed P fs fs' H (base_path ++ [subdir]))
      as (-> & _ & -> & _).
    destruct (path_exists fs (base_path ++ [subdir])); [|reflexivity].
    destruct (iterdir fs (base_path ++ [subdir])) as [children|];
      [|reflexivity].
    cbn [bind]. f_equal. apply filter_ext. intros folder.
    destruct (same_outside_observed P fs fs' H folder) as (_ & -> & _).
    destruct (same_outside_observed P fs fs' H (folder ++ [article_html]))
      as (_ & _ & -> & _).
    reflexivity. }
  assert (forall names folders,
             scan_subdirs fs' base_path names folders
             = scan_subdirs fs base_path names folders) as ->.
  { induction names as [|n names IH]; intros folders; [reflexivity|].
    cbn [scan_subdirs]. rewrite Hsub.
    destruct (scan_subdir fs base_path n); [|reflexivity].
    cbn [bind]. apply IH. }
  reflexivity.
Qed.

Lemma sum_of_settled (results : list article_result) :
  sum_of (fun x => length (r_changes x)) (map settled_result results)
  = sum_of (fun x => length (r_changes x)) results
  /\ sum_of (fun x => length (r_errors x)) (map settled_result results)
     = sum_of (fun x => length (r_errors x)) results.
Proof.
  induction results as [|r rs [IH1 IH2]]; [split; reflexivity|].
  cbn [map sum_of fold_right] in *. unfold sum_of in IH1, IH2.
  rewrite IH1, IH2. cbn [settled_result r_changes r_errors].
  rewrite length_map. split; reflexivity.
Qed.

(** X14.  A run over the file system an applying run left, in either mode,
    finds the same folders, reports the same totals of changes and of
    errors, and leaves every file as it is: replaced images are counted
    again on every later run, and nothing more is rewritten. *)
Theorem second_run_same_totals (fs fs1 : node) (base_path : path)
    (total_changes total_errors : nat)
    (Hfirst : main fs base_path false
              = Ok (total_changes, total_errors, fs1)) :
  find_article_folders fs1 base_path = find_article_folders fs base_path
  /\ forall dry_run : bool,
       main fs1 base_path dry_run = Ok (total_changes, total_errors, fs1).
Proof.
  unfold main in Hfirst.
  destruct (find_article_folders fs base_path) as [folders|] eqn:Ef;
    [|discriminate].
  cbn [bind] in Hfirst. rewrite main_loop_process_all in Hfirst.
  destruct (process_all fs folders false) as [[results fs2]|] eqn:E;
    [|discriminate].
  cbn [bind fst snd] in Hfirst. injection Hfirst as <- <- <-.
  pose proof (find_article_folders_same _ fs fs2 base_path
                (process_all_same_outside folders false fs fs2 results E))
    as Hsame.
  rewrite Ef in Hsame. split; [exact Hsame|].
  intros dry_run. unfold main. rewrite Hsame. cbn [bind].
  rewrite main_loop_process_all.
  rewrite (process_all_settled folders fs fs2 results E dry_run).
  cbn [bind fst snd].
  destruct (sum_of_settled results) as [-> ->]. reflexivity.
Qed.

Lemma second_run_same_totals_witness :
  exists fs1,
    main example_fs example_base false = Ok (2, 2, fs1)
    /\ fs1 <> example_fs
    /\ main fs1 example_base false = Ok (2, 2, fs1).
Proof.
  destruct (main example_fs example_base false) as [[[tc te] fs1]|] eqn:E;
    [|discriminate E].
  destruct (second_run_same_totals example_fs fs1 example_base tc te E)
    as [_ H].
  specialize (H false).
  pose proof E as E'. vm_compute in E'. injection E' as <- <- <-.
  eexists. split; [reflexivity|]. split; [discriminate | exact H].
Defined.

(** ** Preview and apply *)

(** On a file system that differs in other files only, the applying call
    returns what the preview returns, or raises what it raises. *)
Lemma process_article_frame (P : path -> Prop) (fs fs' : node)
    (folder : path) :
  same_outside P fs fs' -> ~ P (folder ++ [article_html]) ->
  match process_article fs folder true with
  | Ok (r, _) => exists fs'', process_article fs' folder false = Ok (r, fs'')
  | Raise e => process_article fs' folder false = Raise e
  end.
Proof.
  intros Hsame HP.
  pose proof (get_available_images_same _ fs fs' folder Hsame) as Hav.
  destruct (same_outside_observed P fs fs' Hsame (folder ++ [article_html]))
    as (_ & _ & _ & Hread).
  specialize (Hread HP). unfold process_article.
  destruct (read_file fs (folder ++ [article_html])) as [html|e] eqn:Er;
    rewrite Hread; [|reflexivity].
  cbn [bind]. rewrite Hav.
  destruct (get_available_images fs folder) as [av|e]; [|reflexivity].
  cbn [bind].
  destruct (extract_content_section html) as [[start end_] content].
  destruct (start =? -1)%Z; [eexists; reflexivity|].
  change (replace_images_in_content content av true (path_name folder))
    with (replace_images_in_content content av false (path_name folder)).
  destruct (replace_images_in_content content av false (path_name folder))
    as [new changes].
  cbn [negb andb]. destruct (negb (length changes =? 0));
    [|eexists; reflexivity].
  destruct (write_file_after_read _
              (slice_to html start ++ new ++ slice_from html end_)
              fs' html Hread) as (fs3 & -> & _).
  eexists. reflexivity.
Qed.

Lemma same_counts_settled (r : article_result) :
  same_counts r (settled_result r).
Proof.
  split; [reflexivity|]. cbn [settled_result r_changes].
  rewrite length_map. reflexivity.
Qed.

Lemma preview_apply_step (fs0 fs : node) (done : list path)
    (folder : path) :
  applied fs0 done fs ->
  match process_article fs0 folder true with
  | Ok (r, _) =>
      exists r' fs',
        process_article fs folder false = Ok (r', fs')
        /\ same_counts r r' /\ applied fs0 (folder :: done) fs'
  | Raise e => process_article fs folder false = Raise e
  end.
Proof.
  intros [Hsame Hdone].
  destruct (in_dec (list_eq_dec (list_eq_dec ascii_dec)) folder done)
    as [Hin|Hin].
  - destruct (Hdone folder Hin) as (r0 & r1 & H0 & Hfix & Hc).
    rewrite H0. exists r1, fs. split; [exact (Hfix false)|].
    split; [exact Hc|]. split.
    + apply (same_outside_trans (article_of done) (article_of done) _
               fs0 fs fs); [| |exact Hsame | apply same_outside_refl];
        intros q (g & Hg & ->); exists g; (split; [right; exact Hg|]);
        reflexivity.
    + intros g [<-|Hg]; [|exact (Hdone g Hg)].
      exists r0, r1. split; [exact H0|]. split; [exact Hfix | exact Hc].
  - assert (~ article_of done (folder ++ [article_html])) as HP.
    { intros (g & Hg & Heq). apply app_inj_tail in Heq.
      destruct Heq as [-> _]. exact (Hin Hg). }
    pose proof (process_article_frame _ fs0 fs folder Hsame HP) as Hframe.
    destruct (process_article fs0 folder true) as [[r fsx]|e] eqn:E;
      [|exact Hframe].
    pose proof (process_article_preview fs0 fsx folder r E) as ->.
    destruct Hframe as [fs' Hnext].
    exists r, fs'. split; [exact Hnext|].
    split; [split; reflexivity|]. split.
    + apply (same_outside_trans (article_of done)
               (eq (folder ++ [article_html])) _ fs0 fs fs').
      * intros q (g & Hg & ->). exists g. split; [right; exact Hg|].
        reflexivity.
      * intros q <-. exists folder. split; [left|]; reflexivity.
      * exact Hsame.
      * exact (process_article_same_outside fs fs' folder false r Hnext).
    + intros g [<-|Hg].
      * exists r, (settled_result r). split; [exact E|].
        split; [|apply same_counts_settled].
        exact (process_article_settled fs fs' folder r Hnext).
      * destruct (Hdone g Hg) as (r0 & r1 & H0 & Hfix & Hc).
        exists r0, r1. split; [exact H0|]. split; [|exact Hc].
        exact (process_article_fixed_step fs fs' g folder r1 r Hfix Hnext).
Qed.

Lemma preview_apply_all (fs0 : node) (folders : list path) :
  forall (done : list path) (fs : node),
    applied fs0 done fs ->
    match process_all fs0 folders true with
    | Ok (rs, _) =>
        exists rs' fs',
          process_all fs folders false = Ok (rs', fs')
          /\ Forall2 same_counts rs rs'
    | Raise e => process_all fs folders false = Raise e
    end.
Proof.
  induction folders as [|folder folders IH]; intros done fs Happ.
  - exists [], fs. split; [reflexivity | constructor].
  - cbn [process_all].
    pose proof (preview_apply_step fs0 fs done folder Happ) as Hstep.
    destruct (process_article fs0 folder true) as [[r fsx]|e] eqn:E.
    + pose proof (process_article_preview fs0 fsx folder r E) as ->.
      destruct Hstep as (r' & fs' & -> & Hc & Happ').
      cbn [bind fst snd]. specialize (IH (folder :: done) fs' Happ').
      destruct (process_all fs0 folders true) as [[rs fsy]|e'].
      * destruct IH as (rs' & fs'' & -> & HF). cbn [bind fst snd].
        eexists. eexists. split; [reflexivity|].
        constructor; assumption.
      * rewrite IH. reflexivity.
    + rewrite Hstep. reflexivity.
Qed.

Lemma sum_of_same_counts (rs rs' : list article_result) :
  Forall2 same_counts rs rs' ->
  sum_of (fun x => length (r_changes x)) rs
  = sum_of (fun x => length (r_changes x)) rs'
  /\ sum_of (fun x => length (r_errors x)) rs
     = sum_of (fun x => length (r_errors x)) rs'.
Proof.
  induction 1 as [|r r' rs rs' [He Hc] _ [IH1 IH2]]; [split; reflexivity|].
  cbn [sum_of fold_right] in *. unfold sum_of in IH1, IH2.
  rewrite IH1, IH2, He, Hc. split; reflexivity.
Qed.

(** X15.  The preview predicts the applying run: from the same file system
    the two runs report the same totals of changes and of errors, or raise
    the same exception. *)
Theorem preview_predicts_apply (fs : node) (base_path : path) :
  totals_of (main fs base_path true) = totals_of (main fs base_path false).
Proof.
  unfold main.
  destruct (find_article_folders fs base_path) as [folders|e];
    [|reflexivity].
  cbn [bind]. rewrite !main_loop_process_all.
  assert (applied fs [] fs) as Happ.
  { split; [apply same_outside_refl | intros f []]. }
  pose proof (preview_apply_all fs folders [] fs Happ) as H.
  destruct (process_all fs folders true) as [[rs fsx]|e].
  - destruct H as (rs' & fs' & -> & HF).
    destruct (sum_of_same_counts rs rs' HF) as [H1 H2].
    unfold totals_of. cbn [bind fst snd]. rewrite H1, H2. reflexivity.
  - rewrite H. reflexivity.
Qed.

(** ** What the Rewrite Engine reads of the inventory *)

Lemma records_ext (content : text) (av av' : list text)
    (ms : list img_match) :
  forall i : nat,
    (forall k, k < length ms ->
               in_list (image_name (i + k + 2)) av
               = in_list (image_name (i + k + 2)) av') ->
    records content av i ms = records content av' i ms.
Proof.
  induction ms as [|m ms IH]; intros i H; [reflexivity|].
  cbn [records]. f_equal.
  - specialize (H 0 (Nat.lt_0_succ _)). rewrite Nat.add_0_r in H.
    rewrite H. reflexivity.
  - apply IH. intros k Hk.
    replace (S i + k) with (i + S k) by lia.
    apply H. simpl. lia.
Qed.

(** X16.  The Rewrite Engine reads the inventory at the expected names
    only: for a fragment with [n] matches, two inventories that agree on
    whether they hold [image-2.webp] .. [image-(n+1).webp] give the same
    output fragment and the same change records.  The order of the
    inventory, repeated names, [image-1.webp] and the names with higher
    numbers have no effect. *)
Theorem inventory_read_at_expected_names (content : text)
    (av av' : list text) (dry_run dry_run' : bool)
    (folder_name folder_name' : text)
    (Hsame : forall i, i < length (finditer content) ->
                       in_list (image_name (i + 2)) av
                       = in_list (image_name (i + 2)) av') :
  replace_images_in_content content av dry_run folder_name
  = replace_images_in_content content av' dry_run' folder_name'.
Proof.
  rewrite !replace_images_in_content_weave.
  rewrite (records_ext content av av' (finditer content) 0 Hsame).
  reflexivity.
Qed.

Lemma inventory_read_at_expected_names_witness :
  replace_images_in_content example_fragment [str "image-2.webp"] false []
  = replace_images_in_content example_fragment
      [str "image-9.webp"; str "image-1.webp"; str "image-2.webp";
       str "image-2.webp"] true (str "post").
Proof.
  apply (inventory_read_at_expected_names example_fragment).
  intros i Hi. destruct i as [|[|i]]; [reflexivity | reflexivity|].
  vm_compute in Hi. lia.
Defined.

(** ** The article an applying call leaves *)

Lemma process_article_written (fs fs1 : node) (folder : path)
    (r : article_result) (html : text) (av : list text)
    (start end_ : Z) (content : text) :
  read_file fs (folder ++ [article_html]) = Ok html ->
  get_available_images fs folder = Ok av ->
  extract_content_section html = (start, end_, content) ->
  start <> (-1)%Z ->
  process_article fs folder false = Ok (r, fs1) ->
  read_file fs1 (folder ++ [article_html])
  = Ok (slice_to html start
        ++ fst (replace_images_in_content content av false
                  (path_name folder))
        ++ slice_from html end_).
Proof.
  intros Er Ei Ex Hstart H.
  rewrite (process_article_read fs folder false html av Er Ei), Ex in H.
  assert ((start =? -1)%Z = false) as Es by (apply Z.eqb_neq; exact Hstart).
  rewrite Es in H.
  destruct (replace_images_in_content content av false (path_name folder))
    as [new changes] eqn:Erep.
  cbn [fst negb andb] in *.
  destruct (length changes =? 0) eqn:El; cbn [negb] in H.
  - injection H as _ <-. destruct changes; [|discriminate El].
    assert (finditer content = []) as Hnone.
    { pose proof (replace_images_in_content_weave content av false
                    (path_name folder)) as Hw.
      rewrite Erep in Hw. injection Hw as _ Hrec.
      destruct (finditer content); [reflexivity | discriminate Hrec]. }
    unfold replace_images_in_content in Erep. rewrite Hnone in Erep.
    injection Erep as <-.
    destruct (extract_content_section_split html start end_ content Ex
                Hstart) as (pre & tail & Hh & -> & -> & _).
    rewrite Er. f_equal. rewrite Hh.
    symmetry. apply splice_content.
  - destruct (write_file (folder ++ [article_html]) _ fs) as [fs2|] eqn:Ew;
      [|discriminate].
    cbn [bind] in H. injection H as _ <-.
    destruct (write_file_after_read _
                (slice_to html start ++ new ++ slice_from html end_)
                fs _ Er) as (fs3 & Hw & Hr).
    rewrite Ew in Hw. injection Hw as <-.
    pose proof (read_file_written fs fs2 _ html av false (path_name folder)
                  start end_ content start end_ Er Ex) as Hback.
    rewrite Erep in Hback. cbn [fst] in Hback. exact (Hback Hr).
Qed.

(** X17.  After an applying call on an article with a content section,
    a read of the article returns the document read before the call (line
    endings translated, as every read does) with the section exchanged for
    the output fragment of the Rewrite Engine, and the Content Extractor
    finds that fragment in it as the content section, at the same start:
    the rewritten URLs neither hide the section nor end it early. *)
Theorem applied_article_keeps_section (fs fs1 : node) (folder : path)
    (r : article_result) (html : text) (av : list text)
    (start end_ : Z) (content : text)
    (Hread : read_file fs (folder ++ [str "article.html"]) = Ok html)
    (Hinv : get_available_images fs folder = Ok av)
    (Hsection : extract_content_section html = (start, end_, content))
    (Hfound : start <> (-1)%Z)
    (Hrun : process_article fs folder false = Ok (r, fs1)) :
  let new :=
    fst (replace_images_in_content content av false (path_name folder)) in
  exists html1,
    read_file fs1 (folder ++ [str "article.html"]) = Ok html1
    /\ html1 = slice_to html start ++ new ++ slice_from html end_
    /\ extract_content_section html1
       = (start, (start + Z.of_nat (length new))%Z, new).
Proof.
  cbn zeta. eexists. split.
  - exact (process_article_written fs fs1 folder r html av start end_
             content Hread Hinv Hsection Hfound Hrun).
  - split; [reflexivity|].
    destruct (extract_content_section_split html start end_ content
                Hsection Hfound)
      as (pre & tail & -> & -> & -> & Hc & Hleft & Hnc).
    rewrite splice_content.
    rewrite (extract_content_section_at pre _ tail Hc
               (leftmost_splice pre content _ tail Hc Hleft)).
    + f_equal. f_equal. lia.
    + rewrite replace_images_in_content_rewrite.
      apply (no_close_rewrite av tail (length content)); [lia | exact Hnc].
Qed.

Lemma applied_article_keeps_section_witness :
  exists fs1 html1,
    read_file fs1 (example_post ++ [str "article.html"]) = Ok html1
    /\ html1 <> example_html example_fragment
    /\ fst (fst (extract_content_section html1)) = 43%Z.
Proof.
  destruct (process_article example_fs example_post false)
    as [[r fs1]|] eqn:E; [|discriminate E].
  destruct (extract_content_section (example_html example_fragment))
    as [[start end_] content] eqn:Ex.
  assert (start = 43%Z) as Hs by (vm_compute in Ex; congruence).
  assert (start <> (-1)%Z) as Hfound by (rewrite Hs; discriminate).
  destruct (applied_article_keeps_section example_fs fs1 example_post r
              (example_html example_fragment)
              [str "image-1.webp"; str "image-2.webp"]
              start end_ content eq_refl eq_refl Ex Hfound E)
    as (html1 & H1 & H2 & H3).
  exists fs1, html1. split; [exact H1|]. split.
  - rewrite H2. vm_compute in Ex. injection Ex as <- <- <-.
    vm_compute. discriminate.
  - rewrite H3, Hs. reflexivity.
Defined.
